(** * Creative chess: rules and effect layer

    A shallow embedding of the game hook ([useChessGame]) and of the action
    catalogue ([creativeActions]) of the repository, with the properties of
    the turn controller, the win evaluation and the individual actions.

    Conventions of the embedding.
    - The React state of the hook (the [gameState] and [actionRegistry]
      cells) is passed explicitly: every operation takes the current [Hook]
      and returns the next one together with its boolean result.  The
      functional updates [setGameState (prev => ...)] are read with [prev]
      being the state the callback closed over.
    - [chess.js] is an external library.  Its position object is the record
      [Chess] (piece placement and side to move); [get], [put], [remove],
      [turn] and the copy [new Chess (c.fen ())] are modelled on it.  The
      constructor validates the position string and throws when it shows
      other than one king of either colour, or a pawn on the first or last
      rank: the copy is the partial function [copyChess].  Move legality
      stays abstract: the class [Engine] supplies [move] and [moves].
    - A JavaScript number that may be [NaN] is an [option Z], with [None]
      for [NaN]; a value that may be [undefined] is an [option].
    - A thrown exception is the result [None] of a fallible function.
    - [Math.random ()] is ambient.  The source only ever uses it as
      [Math.floor (Math.random () * 6)]; the record [Random] is the oracle
      giving that integer for each successive call, with the number of
      calls made so far. *)

From stdpp Require Import gmap strings list fin_maps pretty.
From Stdlib Require Import ZArith Ascii String.

Open Scope Z_scope.

(** ** types/chess.ts *)

Inductive PieceColor := White | Black.
Inductive PieceType := Pawn | Rook | Knight | Bishop | Queen | King.

Global Instance PieceColor_eq_dec : EqDecision PieceColor.
Proof. solve_decision. Defined.
Global Instance PieceType_eq_dec : EqDecision PieceType.
Proof. solve_decision. Defined.

(** The piece object of chess.js: [{ type, color }]. *)
Record Piece := { type : PieceType; color : PieceColor }.

Global Instance Piece_eq_dec : EqDecision Piece.
Proof. solve_decision. Defined.

(** A square is its algebraic name, ["a1"] to ["h8"]. *)
Definition Square := string.

Inductive Phase := standard | creative.

Global Instance Phase_eq_dec : EqDecision Phase.
Proof. solve_decision. Defined.

Inductive TargetType := square_target | piece_target | area_target | none_target.

(** ** The chess.js position *)

Record Chess := { board : gmap string Piece; turn : PieceColor }.

(** [String.fromCharCode (n)] for a code below 256. *)
Definition fromCharCode (n : Z) : string :=
  String (ascii_of_nat (Z.to_nat n)) EmptyString.

(** [String.fromCharCode (97 + file) + rank] *)
Definition squareName (file rank : Z) : Square :=
  fromCharCode (97 + file) +:+ pretty rank.

(** The loop nest shared by every board scan of the source:
    [for (rank = 1; rank <= 8; rank++) for (file = 0; file < 8; file++)]. *)
Definition scanSquares : list Square :=
  rank ← seqZ 1 8; file ← seqZ 0 8; [squareName file rank].

Definition isSquare (sq : Square) : bool := bool_decide (sq ∈ scanSquares).

(** [chess.get (square)]: the piece on the square, [undefined] for an empty
    square and for a name that is not a square. *)
Definition get (c : Chess) (sq : Square) : option Piece :=
  if isSquare sq then board c !! sq else None.

(** [chess.remove (square)] *)
Definition remove (c : Chess) (sq : Square) : Chess :=
  if isSquare sq then {| board := delete sq (board c); turn := turn c |} else c.

(** [chess.put (piece, square)]; the library's refusal of a second king of
    one colour is not modelled. *)
Definition put (c : Chess) (p : Piece) (sq : Square) : Chess :=
  if isSquare sq then {| board := <[sq := p]> (board c); turn := turn c |} else c.

(** The same three operations at an argument that may be [undefined]. *)
Definition getArg (c : Chess) (a : option Square) : option Piece :=
  sq ← a; get c sq.

Definition removeArg (c : Chess) (a : option Square) : Chess :=
  match a with Some sq => remove c sq | None => c end.

Definition putArg (c : Chess) (p : Piece) (a : option Square) : Chess :=
  match a with Some sq => put c p sq | None => c end.

(** [new Chess ()]: the standard starting position, white to move. *)
Definition backRank : list PieceType :=
  [Rook; Knight; Bishop; Queen; King; Bishop; Knight; Rook].

Definition startRow (rank : Z) (col : PieceColor) (types : list PieceType)
  : list (Square * Piece) :=
  imap (λ i t, (squareName (Z.of_nat i) rank, {| type := t; color := col |})) types.

Definition newChess : Chess :=
  {| board := list_to_map (startRow 1 White backRank
                           ++ startRow 2 White (replicate 8 Pawn)
                           ++ startRow 7 Black (replicate 8 Pawn)
                           ++ startRow 8 Black backRank);
     turn := White |}.

(** The squares of one rank, from file a to file h. *)
Definition rankSquares (rank : Z) : list Square :=
  (λ file, squareName file rank) <$> seqZ 0 8.

(** What the validation of a position string looks at in the placement: the
    squares holding the king of a colour, and the pawns on the last and the
    first rank. *)
Definition kingSquares (c : Chess) (col : PieceColor) : list Square :=
  filter (λ sq, get c sq = Some {| type := King; color := col |}) scanSquares.

Definition edgePawns (c : Chess) : list Square :=
  filter (λ sq, type <$> get c sq = Some Pawn) (rankSquares 8 ++ rankSquares 1).

(** The position string [c.fen ()] is accepted by the constructor: exactly
    one white king, exactly one black king, no pawn on the edge ranks.  The
    other fields of the string are written by the library itself. *)
Definition validFen (c : Chess) : bool :=
  bool_decide (List.length (kingSquares c White) = 1%nat)
  && bool_decide (List.length (kingSquares c Black) = 1%nat)
  && bool_decide (edgePawns c = []).

(** [new Chess (c.fen ())]: a copy of the position, or an exception. *)
Definition copyChess (c : Chess) : option Chess :=
  if validFen c then Some c else None.

(** The move generator of chess.js, as far as the hook uses it:
    [move c from to] is the outcome of
    [newChess = new Chess (c.fen ()); newChess.move ({ from, to })], the
    position [newChess] after the move, and [None] when the library rejects
    the attempt (by returning [null] or by throwing, in the copy or in the
    move); [moves c sq] lists the destinations of
    [chess.moves ({ square, verbose: true })]. *)
Class Engine := {
  move : Chess → Square → Square → option Chess;
  moves : Chess → Square → list Square
}.

(** ** The game state *)

Record GameState := {
  chess : Chess;
  currentPlayer : PieceColor;
  phase : Phase;
  halfMoves : Z;
  selectedSquare : option Square;
  validMoves : list string;
  gameOver : bool;
  winner : option PieceColor;
  lastMove : option (Square * Square)
}.

(** [{ ...gameState, chess: newChess }] *)
Definition withChess (gameState : GameState) (c : Chess) : GameState :=
  {| chess := c;
     currentPlayer := currentPlayer gameState;
     phase := phase gameState;
     halfMoves := halfMoves gameState;
     selectedSquare := selectedSquare gameState;
     validMoves := validMoves gameState;
     gameOver := gameOver gameState;
     winner := winner gameState;
     lastMove := lastMove gameState |}.

(** ** Randomness *)

Record Random := { floor6 : nat → Z; calls : nat }.

(** [Math.floor (Math.random () * 6) + 1] *)
Definition rollD6 (rnd : Random) : Z * Random :=
  (floor6 rnd (calls rnd) + 1, {| floor6 := floor6 rnd; calls := S (calls rnd) |}).

(** ** lib/chess-actions: helpers *)

(** [sq.charCodeAt (0)] *)
Definition charCodeAt0 (sq : string) : option Z :=
  match sq with
  | String a _ => Some (Z.of_nat (nat_of_ascii a))
  | EmptyString => None
  end.

(** [sq[1]] *)
Definition charAt1 (sq : string) : option ascii :=
  match sq with
  | String _ (String a _) => Some a
  | _ => None
  end.

(** [parseInt] of a string of at most one character. *)
Definition parseInt (ch : option ascii) : option Z :=
  a ← ch;
  let code := Z.of_nat (nat_of_ascii a) in
  if bool_decide (48 ≤ code ≤ 57) then Some (code - 48) else None.

Definition getSquareDistance (sq1 sq2 : Square) : option Z :=
  file1 ← (λ code, code - 97) <$> charCodeAt0 sq1;
  rank1 ← (λ n, n - 1) <$> parseInt (charAt1 sq1);
  file2 ← (λ code, code - 97) <$> charCodeAt0 sq2;
  rank2 ← (λ n, n - 1) <$> parseInt (charAt1 sq2);
  Some (Z.abs (file1 - file2) + Z.abs (rank1 - rank2)).

(** [n >= k] for a number that may be [NaN]. *)
Definition numberGe (n : option Z) (k : Z) : bool :=
  match n with
  | Some v => bool_decide (k ≤ v)
  | None => false
  end.

Definition getOpponentColor (col : PieceColor) : PieceColor :=
  match col with White => Black | Black => White end.

Record Placed := { piece : Piece; square : Square }.

(** The body of the scan loop of [getPiecesOfColor]: what the visit of one
    square pushes. *)
Definition scanPiece (c : Chess) (col : PieceColor) (sq : Square) : list Placed :=
  match get c sq with
  | Some p => if bool_decide (color p = col) then [{| piece := p; square := sq |}] else []
  | None => []
  end.

Definition piecesOn (c : Chess) (col : PieceColor) (squares : list Square) : list Placed :=
  sq ← squares; scanPiece c col sq.

Definition getPiecesOfColor (c : Chess) (col : PieceColor) : list Placed :=
  piecesOn c col scanSquares.

Definition getEmptySquares (c : Chess) : list Square :=
  filter (λ sq, get c sq = None) scanSquares.

(** ** lib/chess-actions: the catalogue *)

(** [validateTarget] and [execute] receive the rest arguments of the call
    as a list; a missing argument reads as [undefined].  [validateTarget]
    is optional.  The [icon] field is display text and is left out. *)
Record ActionEffect := {
  id : string;
  name : string;
  description : string;
  used : bool;
  needsTarget : bool;
  targetType : option TargetType;
  validateTarget : option (GameState → list string → option bool);
  execute : GameState → list string → Random → option GameState * Random
}.

(** [piece?.color === gameState.currentPlayer] *)
Definition ownPiece (gameState : GameState) (p : option Piece) : bool :=
  match p with
  | Some p => bool_decide (color p = currentPlayer gameState)
  | None => false
  end.

(** [piece?.color !== gameState.currentPlayer] *)
Definition notOwnColor (gameState : GameState) (p : option Piece) : bool :=
  match p with
  | Some p => bool_decide (color p ≠ currentPlayer gameState)
  | None => true
  end.

(** An [execute] that draws no random number. *)
Definition pureExecute (f : GameState → list string → option GameState)
  : GameState → list string → Random → option GameState * Random :=
  λ gameState args rnd, (f gameState args, rnd).

Definition snip : ActionEffect :=
  {| id := "snip"; name := "Snip";
     description := "Remove any one enemy Pawn instantly.";
     used := false; needsTarget := true; targetType := Some piece_target;
     validateTarget := Some (λ gameState args,
       match getArg (chess gameState) (args !! 0%nat) with
       | Some p => Some (bool_decide (type p = Pawn)
                         && bool_decide (color p ≠ currentPlayer gameState))
       | None => Some false
       end);
     execute := pureExecute (λ gameState args,
       newChess ← copyChess (chess gameState);
       let newChess := removeArg newChess (args !! 0%nat) in
       Some (withChess gameState newChess)) |}.

Definition rubberBand : ActionEffect :=
  {| id := "rubberBand"; name := "Rubber-Band Shot";
     description := "Immobilize one enemy piece for 1 turn.";
     used := false; needsTarget := true; targetType := Some piece_target;
     validateTarget := Some (λ gameState args,
       Some (notOwnColor gameState (getArg (chess gameState) (args !! 0%nat))));
     (* Mark piece as frozen for 1 turn - would need status tracking *)
     execute := pureExecute (λ gameState args, Some gameState) |}.

(** [centerSquare.charCodeAt (0) - 97] and [parseInt (centerSquare[1]) - 1] *)
Definition fileOf (sq : string) : option Z := (λ code, code - 97) <$> charCodeAt0 sq.
Definition rankOf (sq : string) : option Z := (λ n, n - 1) <$> parseInt (charAt1 sq).

(** [lo <= n && n <= hi] for a number that may be [NaN]. *)
Definition numberIn (n : option Z) (lo hi : Z) : bool :=
  match n with
  | Some v => bool_decide (lo ≤ v) && bool_decide (v ≤ hi)
  | None => false
  end.

Definition nukeSquare (gameState : GameState) (newChess : Chess) (f r : Z) : Chess :=
  let square := squareName f (r + 1) in
  match get newChess square with
  | Some p => if bool_decide (color p ≠ currentPlayer gameState)
              then remove newChess square else newChess
  | None => newChess
  end.

Definition nuke : ActionEffect :=
  {| id := "nuke"; name := "Nuke";
     description := "Select a contiguous 2x2 block; remove up to 4 opponent pieces within that block.";
     used := false; needsTarget := true; targetType := Some area_target;
     validateTarget := Some (λ gameState args,
       centerSquare ← args !! 0%nat;
       Some (numberIn (fileOf centerSquare) 0 6 && numberIn (rankOf centerSquare) 0 6));
     execute := pureExecute (λ gameState args,
       newChess ← copyChess (chess gameState);
       centerSquare ← args !! 0%nat;
       let newChess :=
         match fileOf centerSquare, rankOf centerSquare with
         | Some file, Some rank =>
             foldl (λ c f, foldl (λ c r, nukeSquare gameState c f r) c [rank; rank + 1])
                   newChess [file; file + 1]
         | _, _ => newChess
         end in
       Some (withChess gameState newChess)) |}.

Definition jobApplication : ActionEffect :=
  {| id := "jobApplication"; name := "Job Application";
     description := "Remove one of your pieces permanently; then choose any other action to grant it +2 extra uses.";
     used := false; needsTarget := true; targetType := Some piece_target;
     validateTarget := Some (λ gameState args,
       Some (ownPiece gameState (getArg (chess gameState) (args !! 0%nat))));
     execute := pureExecute (λ gameState args,
       newChess ← copyChess (chess gameState);
       let newChess := removeArg newChess (args !! 0%nat) in
       (* Would need to track action uses *)
       Some (withChess gameState newChess)) |}.

Definition hasType (t : PieceType) (p : Placed) : bool :=
  bool_decide (type (piece p) = t).

(** The fallback loop of Robot Proxy: the first type of the order that the
    opponent has is removed, and the loop stops. *)
Fixpoint removeFallback (newChess : Chess) (opponentPieces : list Placed)
    (fallbackOrder : list PieceType) : Chess :=
  match fallbackOrder with
  | [] => newChess
  | t :: rest =>
      match find (hasType t) opponentPieces with
      | Some fallbackTarget => remove newChess (square fallbackTarget)
      | None => removeFallback newChess opponentPieces rest
      end
  end.

Definition robotProxyExecute (gameState : GameState) (args : list string)
  : option GameState :=
  newChess ← copyChess (chess gameState);
  match getArg newChess (args !! 0%nat) with
  | None => Some gameState
  | Some pilotPiece =>
      let opponentPieces :=
        getPiecesOfColor newChess (getOpponentColor (color pilotPiece)) in
      let newChess :=
        match find (hasType (type pilotPiece)) opponentPieces with
        | Some targetPiece => remove newChess (square targetPiece)
        | None => removeFallback newChess opponentPieces [Pawn; Queen; King]
        end in
      Some (withChess gameState newChess)
  end.

Definition robotProxy : ActionEffect :=
  {| id := "robotProxy"; name := "Robot Proxy";
     description := "Choose one of your pieces to pilot a robot. The robot removes an enemy piece of the same type.";
     used := false; needsTarget := true; targetType := Some piece_target;
     validateTarget := Some (λ gameState args,
       Some (ownPiece gameState (getArg (chess gameState) (args !! 0%nat))));
     execute := pureExecute robotProxyExecute |}.

Definition swapPlaces : ActionEffect :=
  {| id := "swapPlaces"; name := "Swap Places";
     description := "Swap positions of any two of your pieces (King excluded).";
     used := false; needsTarget := true; targetType := Some piece_target;
     validateTarget := Some (λ gameState args,
       let piece1 := getArg (chess gameState) (args !! 0%nat) in
       let piece2 := getArg (chess gameState) (args !! 1%nat) in
       Some (match piece1, piece2 with
             | Some p1, Some p2 =>
                 bool_decide (color p1 = currentPlayer gameState)
                 && bool_decide (color p2 = currentPlayer gameState)
                 && bool_decide (type p1 ≠ King) && bool_decide (type p2 ≠ King)
             | _, _ => false
             end));
     execute := pureExecute (λ gameState args,
       newChess ← copyChess (chess gameState);
       let square1 := args !! 0%nat in
       let square2 := args !! 1%nat in
       let newChess :=
         match getArg newChess square1, getArg newChess square2 with
         | Some piece1, Some piece2 =>
             let c := removeArg newChess square1 in
             let c := removeArg c square2 in
             let c := putArg c piece1 square2 in
             putArg c piece2 square1
         | _, _ => newChess
         end in
       Some (withChess gameState newChess)) |}.

Definition shield : ActionEffect :=
  {| id := "shield"; name := "Shield";
     description := "Make one of your pieces invulnerable to any single creative action on opponent's next turn.";
     used := false; needsTarget := true; targetType := Some piece_target;
     validateTarget := Some (λ gameState args,
       Some (ownPiece gameState (getArg (chess gameState) (args !! 0%nat))));
     (* Would need status tracking for shields *)
     execute := pureExecute (λ gameState args, Some gameState) |}.

Definition empBlast : ActionEffect :=
  {| id := "empBlast"; name := "EMP Blast";
     description := "All active Robots and Shields lose effect for 2 turns.";
     used := false; needsTarget := false; targetType := None;
     validateTarget := None;
     execute := pureExecute (λ gameState args, Some gameState) |}.

Definition lootDrop : ActionEffect :=
  {| id := "lootDrop"; name := "Loot Drop";
     description := "Gain two random extra uses of one of the remaining (unused) creative actions.";
     used := false; needsTarget := false; targetType := None;
     validateTarget := None;
     execute := pureExecute (λ gameState args, Some gameState) |}.

Definition timeFreeze : ActionEffect :=
  {| id := "timeFreeze"; name := "Time Freeze";
     description := "Opponent cannot activate any action on their next turn.";
     used := false; needsTarget := false; targetType := None;
     validateTarget := None;
     execute := pureExecute (λ gameState args, Some gameState) |}.

Definition cloneRay : ActionEffect :=
  {| id := "cloneRay"; name := "Clone Ray";
     description := "Duplicate one of your non-King pieces onto any empty square.";
     used := false; needsTarget := true; targetType := Some piece_target;
     validateTarget := Some (λ gameState args,
       let targetPiece := getArg (chess gameState) (args !! 1%nat) in
       Some (match getArg (chess gameState) (args !! 0%nat) with
             | Some p => bool_decide (color p = currentPlayer gameState)
                         && bool_decide (type p ≠ King)
                         && bool_decide (targetPiece = None)
             | None => false
             end));
     execute := pureExecute (λ gameState args,
       newChess ← copyChess (chess gameState);
       let newChess :=
         match getArg newChess (args !! 0%nat) with
         | Some p => putArg newChess p (args !! 1%nat)
         | None => newChess
         end in
       Some (withChess gameState newChess)) |}.

Definition spyDrone : ActionEffect :=
  {| id := "spyDrone"; name := "Spy Drone";
     description := "Reveal and steal one unused action from opponent's inventory at random.";
     used := false; needsTarget := false; targetType := None;
     validateTarget := None;
     execute := pureExecute (λ gameState args, Some gameState) |}.

Definition sniperShotValidate (gameState : GameState) (args : list string) : option bool :=
  match args !! 0%nat with
  | None => Some false
  | Some targetSquare =>
      match get (chess gameState) targetSquare with
      | None => Some false
      | Some p =>
          if bool_decide (color p = currentPlayer gameState) then Some false
          else
            let playerPieces :=
              getPiecesOfColor (chess gameState) (currentPlayer gameState) in
            Some (existsb (λ p, numberGe (getSquareDistance (square p) targetSquare) 3)
                          playerPieces)
      end
  end.

Definition sniperShot : ActionEffect :=
  {| id := "sniperShot"; name := "Sniper Shot";
     description := "Remove any single enemy piece that is at least 3 squares away (Manhattan distance >= 3).";
     used := false; needsTarget := true; targetType := Some piece_target;
     validateTarget := Some sniperShotValidate;
     execute := pureExecute (λ gameState args,
       newChess ← copyChess (chess gameState);
       let newChess := removeArg newChess (args !! 0%nat) in
       Some (withChess gameState newChess)) |}.

Definition puzzleTrap : ActionEffect :=
  {| id := "puzzleTrap"; name := "Puzzle Trap";
     description := "Plant a trap on an empty square; the next opponent piece that moves on it is captured.";
     used := false; needsTarget := true; targetType := Some square_target;
     validateTarget := Some (λ gameState args,
       Some (bool_decide (getArg (chess gameState) (args !! 0%nat) = None)));
     execute := pureExecute (λ gameState args, Some gameState) |}.

(** The loop of Rocket Barrage: one roll per target, in the order of the
    targets; the target is removed when the roll is 4 or more. *)
Fixpoint barrage (newChess : Chess) (targetSquares : list Square) (rnd : Random)
  : Chess * Random :=
  match targetSquares with
  | [] => (newChess, rnd)
  | square :: rest =>
      let '(roll, rnd) := rollD6 rnd in
      let newChess := if bool_decide (4 ≤ roll) then remove newChess square else newChess in
      barrage newChess rest rnd
  end.

Definition rocketBarrage : ActionEffect :=
  {| id := "rocketBarrage"; name := "Rocket Barrage";
     description := "Target up to 3 enemy pieces; for each, roll a virtual d6: 4-6 = removed, 1-3 = survives.";
     used := false; needsTarget := true; targetType := Some piece_target;
     validateTarget := Some (λ gameState targetSquares,
       Some (bool_decide (List.length targetSquares ≤ 3)%nat
             && forallb (λ square,
                  match get (chess gameState) square with
                  | Some p => bool_decide (color p ≠ currentPlayer gameState)
                  | None => false
                  end) targetSquares));
     execute := λ gameState targetSquares rnd,
       match copyChess (chess gameState) with
       | None => (None, rnd)
       | Some newChess =>
           let '(newChess, rnd) := barrage newChess targetSquares rnd in
           (Some (withChess gameState newChess), rnd)
       end |}.

Definition creativeActions : list ActionEffect :=
  [snip; rubberBand; nuke; jobApplication; robotProxy; swapPlaces; shield;
   empBlast; lootDrop; timeFreeze; cloneRay; spyDrone; sniperShot; puzzleTrap;
   rocketBarrage].

Definition getActionById (actionId : string) : option ActionEffect :=
  find (λ action, bool_decide (id action = actionId)) creativeActions.

Definition getAvailableActions : list ActionEffect :=
  filter (λ action, used action = false) creativeActions.

(** ** hooks/useChessGame *)

Definition CREATIVE_PHASE_THRESHOLD : Z := 20.

(** The two state cells of the hook. *)
Record Hook := { gameState : GameState; actionRegistry : gmap string bool }.

(** The initialiser of the [gameState] cell, which is also the value
    [resetGame] stores. *)
Definition initialGameState : GameState :=
  {| chess := newChess;
     currentPlayer := White;
     phase := standard;
     halfMoves := 0;
     selectedSquare := None;
     validMoves := [];
     gameOver := false;
     winner := None;
     lastMove := None |}.

(** [creativeActions.forEach (action => registry[action.id] = false)];
    [false] is unused, [true] is used. *)
Definition initialRegistry : gmap string bool :=
  foldl (λ registry action, <[id action := false]> registry) ∅ creativeActions.

Definition initialHook : Hook :=
  {| gameState := initialGameState; actionRegistry := initialRegistry |}.

(** [actionRegistry[actionId]] read as a condition. *)
Definition isUsed (registry : gmap string bool) (actionId : string) : bool :=
  default false (registry !! actionId).

(** One iteration of the counting loop of [checkWinCondition]. *)
Definition countSquare (c : Chess) (counts : Z * Z) (sq : Square) : Z * Z :=
  let '(whitePieces, blackPieces) := counts in
  match get c sq with
  | Some p => if bool_decide (color p = White)
              then (whitePieces + 1, blackPieces)
              else (whitePieces, blackPieces + 1)
  | None => counts
  end.

Definition checkWinCondition (c : Chess) : bool * option PieceColor :=
  let '(whitePieces, blackPieces) := foldl (countSquare c) (0, 0) scanSquares in
  if bool_decide (whitePieces = 0) then (true, Some Black)
  else if bool_decide (blackPieces = 0) then (true, Some White)
  else (false, None).

Section Operations.
Context {engine : Engine}.

Definition makeMove (h : Hook) (from to : Square) : bool * Hook :=
  let newChess := chess (gameState h) in
  match move newChess from to with
  | Some newChess =>
      let newHalfMoves := halfMoves (gameState h) + 1 in
      let phase := if bool_decide (CREATIVE_PHASE_THRESHOLD ≤ newHalfMoves)
                   then creative else standard in
      let '(gameOver, winner) := checkWinCondition newChess in
      (true,
       {| gameState :=
            {| chess := newChess;
               currentPlayer := turn newChess;
               phase := phase;
               halfMoves := newHalfMoves;
               selectedSquare := None;
               validMoves := [];
               gameOver := gameOver;
               winner := winner;
               lastMove := Some (from, to) |};
          actionRegistry := actionRegistry h |})
  | None => (false, h)
  end.

(** [{ ...prev, selectedSquare, validMoves }] *)
Definition withSelection (h : Hook) (sel : option Square) (valid : list string) : Hook :=
  let prev := gameState h in
  {| gameState :=
       {| chess := chess prev;
          currentPlayer := currentPlayer prev;
          phase := phase prev;
          halfMoves := halfMoves prev;
          selectedSquare := sel;
          validMoves := valid;
          gameOver := gameOver prev;
          winner := winner prev;
          lastMove := lastMove prev |};
     actionRegistry := actionRegistry h |}.

Definition selectSquare (h : Hook) (square : Square) : Hook :=
  let gs := gameState h in
  if ownPiece gs (get (chess gs) square)
  then withSelection h (Some square) (moves (chess gs) square)
  else
    match selectedSquare gs with
    | Some sel =>
        if bool_decide (sel ≠ EmptyString) && bool_decide (square ∈ validMoves gs)
        then (makeMove h sel square).2
        else withSelection h None []
    | None => withSelection h None []
    end.

Definition executeAction (h : Hook) (actionId : string) (args : list string)
    (rnd : Random) : bool * Hook * Random :=
  let gs := gameState h in
  if isUsed (actionRegistry h) actionId || bool_decide (phase gs ≠ creative)
  then (false, h, rnd)
  else
    match getActionById actionId with
    | None => (false, h, rnd)
    | Some action =>
        let validated :=
          match validateTarget action with
          | Some validate => if needsTarget action then validate gs args else Some true
          | None => Some true
          end in
        match validated with
        | None | Some false => (false, h, rnd)
        | Some true =>
            match execute action gs args rnd with
            | (None, rnd) => (false, h, rnd)
            | (Some newGameState, rnd) =>
                let '(gameOver, winner) := checkWinCondition (chess newGameState) in
                let prev := gs in
                (true,
                 {| gameState :=
                      {| chess := chess newGameState;
                         currentPlayer :=
                           match currentPlayer prev with
                           | White => Black
                           | Black => White
                           end;
                         phase := phase newGameState;
                         halfMoves := halfMoves newGameState;
                         selectedSquare := selectedSquare newGameState;
                         validMoves := validMoves newGameState;
                         gameOver := gameOver;
                         winner := winner;
                         lastMove := lastMove newGameState |};
                    actionRegistry := <[actionId := true]> (actionRegistry h) |},
                 rnd)
            end
        end
    end.

Definition resetGame (h : Hook) : Hook := initialHook.

(** The [getAvailableActions] of the hook. *)
Definition availableActions (h : Hook) : list ActionEffect :=
  filter (λ action, isUsed (actionRegistry h) (id action) = false) creativeActions.

Definition isCreativePhase (h : Hook) : bool :=
  bool_decide (phase (gameState h) = creative).

(** *** Sequences of calls *)

Inductive Input :=
| MakeMove (from to : Square)
| SelectSquare (square : Square)
| ExecuteAction (actionId : string) (args : list string)
| ResetGame.

Definition step (st : Hook * Random) (i : Input) : Hook * Random :=
  let '(h, rnd) := st in
  match i with
  | MakeMove from to => ((makeMove h from to).2, rnd)
  | SelectSquare square => (selectSquare h square, rnd)
  | ExecuteAction actionId args =>
      let '(_, h, rnd) := executeAction h actionId args rnd in (h, rnd)
  | ResetGame => (resetGame h, rnd)
  end.

Definition run (st : Hook * Random) (inputs : list Input) : Hook * Random :=
  foldl step st inputs.

(** A call that plays a turn when it succeeds; [ResetGame] is not one. *)
Definition isTurn (i : Input) : bool :=
  match i with ResetGame => false | _ => true end.

End Operations.

(** ** Concrete instances for examples *)

(** An engine that copies the position and relocates any piece of the side
    to move onto any square not held by a piece of its own colour, handing
    the turn to the other side.  On a legal move that is neither a castling,
    an en-passant capture nor a promotion it gives the placement and side to
    move that chess.js gives; it stands in for chess.js in examples. *)
Definition looseMove (c : Chess) (from to : Square) : option Chess :=
  c ← copyChess c;
  match get c from with
  | Some p =>
      if bool_decide (color p = turn c) && isSquare to
         && bool_decide (color <$> get c to ≠ Some (turn c))
      then Some {| board := <[to := p]> (delete from (board c));
                   turn := getOpponentColor (turn c) |}
      else None
  | None => None
  end.

Definition looseEngine : Engine := {| move := looseMove; moves := λ _ _, [] |}.

(** A random source whose every roll is [k + 1]. *)
Definition constantRandom (k : Z) : Random := {| floor6 := λ _, k; calls := 0 |}.

(** Twenty half-moves of knights going out and back: the position is the
    starting one again, and the creative phase has begun. *)
Definition knightShuffle : list Input :=
  mjoin (replicate 5 [MakeMove "g1" "f3"; MakeMove "g8" "f6";
                      MakeMove "f3" "g1"; MakeMove "f6" "g8"]).

Definition creativeHook : Hook :=
  (run (engine := looseEngine) (initialHook, constantRandom 0) knightShuffle).1.

(** ** Notions of the statements, and the runs of the examples *)

(** The number of pieces of a colour on the board. *)
Definition pieceCount (c : Chess) (col : PieceColor) : nat :=
  List.length (getPiecesOfColor c col).

(** An action is framed when its [execute] returns the game state it was
    given with at most the position replaced. *)
Definition framed (action : ActionEffect) : Prop :=
  ∀ gs args rnd gs' rnd',
    execute action gs args rnd = (Some gs', rnd') → ∃ c, gs' = withChess gs c.

(** EMP Blast as the first action of the creative phase. *)
Definition afterEmpBlast : bool * Hook * Random :=
  executeAction creativeHook "empBlast" [] (constantRandom 0).

(** White moves its knight right after its own EMP Blast: the position
    still has white to move. *)
Definition moveAfterEmpBlast : bool * Hook :=
  makeMove (engine := looseEngine) afterEmpBlast.1.2 "g1" "f3".

(** The relation between the phase and the half-move counter. *)
Definition phaseAgrees (h : Hook) : Prop :=
  phase (gameState h) = creative ↔ CREATIVE_PHASE_THRESHOLD ≤ halfMoves (gameState h).

(** Boards for examples: no piece at all, and a lone white king. *)
Definition emptyChess : Chess := {| board := ∅; turn := White |}.

Definition loneKing : Chess :=
  {| board := {[ "e1"%string := {| type := King; color := White |} ]}; turn := Black |}.

(** Snip aimed at the empty square a5 at the start of the creative phase. *)
Definition snipEmpty : bool * Hook * Random :=
  executeAction creativeHook "snip" ["a5"%string] (constantRandom 0).

(** White shields its pawn on a2, then black snips that pawn. *)
Definition shieldA2 : bool * Hook * Random :=
  executeAction creativeHook "shield" ["a2"%string] (constantRandom 0).

Definition snipA2 : bool * Hook * Random :=
  executeAction shieldA2.1.2 "snip" ["a2"%string] shieldA2.2.

(** White plays EMP Blast, black aims Rubber-Band Shot at the white knight
    on g1, and white then moves that knight. *)
Definition rubberBandG1 : bool * Hook * Random :=
  executeAction afterEmpBlast.1.2 "rubberBand" ["g1"%string] afterEmpBlast.2.

Definition moveG1 : bool * Hook :=
  makeMove (engine := looseEngine) rubberBandG1.1.2 "g1" "f3".

(** White to act with pieces on e4 and e5 only; a black piece on e6 is at
    distances 2 and 1 from them. *)
Definition nearBoard : GameState :=
  withChess (gameState creativeHook)
    {| board := {[ "e4"%string := {| type := Rook; color := White |};
                   "e5"%string := {| type := Pawn; color := White |};
                   "e6"%string := {| type := Queen; color := Black |} ]};
       turn := White |}.

(** The roll drawn for the target at position [i] of the list. *)
Definition rollAt (rnd : Random) (i : nat) : Z := floor6 rnd (calls rnd + i) + 1.

(** A square is hit when one of its occurrences among the targets drew a
    roll of 4 or more. *)
Definition hit (rnd : Random) (targetSquares : list Square) (sq : Square) : Prop :=
  ∃ i, targetSquares !! i = Some sq ∧ 4 ≤ rollAt rnd i.

(** A random source whose rolls are 1, 3, 5, 7, ... *)
Definition oddRandom : Random := {| floor6 := λ n, 2 * Z.of_nat n; calls := 0 |}.



(** White's Sniper Shot takes the black king on e8; black then aims a
    barrage at the pawn on a2 under rolls of 6, or pilots Robot Proxy with its
    knight on b8. *)
Definition sniperE8 : bool * Hook * Random :=
  executeAction creativeHook "sniperShot" ["e8"%string] (constantRandom 0).



(** The colour has a piece of the type somewhere on the board. *)
Definition hasPiece (c : Chess) (col : PieceColor) (t : PieceType) : Prop :=
  ∃ sq p, get c sq = Some p ∧ color p = col ∧ type p = t.

(** [sq] is the first square, in the order of the scan, that holds a piece
    of the colour and type. *)
Definition firstInScan (c : Chess) (col : PieceColor) (t : PieceType) (sq : Square)
  : Prop :=
  ∃ i, scanSquares !! i = Some sq
       ∧ (∃ p, get c sq = Some p ∧ color p = col ∧ type p = t)
       ∧ ∀ j sq' p, (j < i)%nat → scanSquares !! j = Some sq' →
                    get c sq' = Some p → ¬ (color p = col ∧ type p = t).

(** Robot Proxy piloted by the knight on b1 in the starting position: of the
    black knights on b8 and g8 the one on b8 goes. *)
Definition proxyKnight : option GameState :=
  (execute robotProxy (gameState creativeHook) ["b1"%string] (constantRandom 0)).1.

(** White to act with a king and a queen on d1 against a lone black rook
    on a8 and a black king and pawns: no black queen, so the first pawn is
    the target. *)
Definition queenPilotBoard : GameState :=
  withChess (gameState creativeHook)
    {| board := {[ "e1"%string := {| type := King; color := White |};
                   "d1"%string := {| type := Queen; color := White |};
                   "a8"%string := {| type := Rook; color := Black |};
                   "e8"%string := {| type := King; color := Black |};
                   "h6"%string := {| type := Pawn; color := Black |};
                   "c7"%string := {| type := Pawn; color := Black |} ]};
       turn := White |}.

Definition proxyQueen : option GameState :=
  (execute robotProxy queenPilotBoard ["d1"%string] (constantRandom 0)).1.

(** White to act with a queen on d1 against black rooks only: a position
    without kings. *)
Definition rooksOnlyBoard : GameState :=
  withChess (gameState creativeHook)
    {| board := {[ "d1"%string := {| type := Queen; color := White |};
                   "a8"%string := {| type := Rook; color := Black |};
                   "h8"%string := {| type := Rook; color := Black |} ]};
       turn := White |}.

(** ** Further notions of the statements *)

(** The square holds a piece of the colour. *)
Definition occupied (c : Chess) (col : PieceColor) (sq : Square) : bool :=
  bool_decide (color <$> get c sq = Some col).

(** No square of [c'] holds anything that [c] does not hold there. *)
Definition shrinks (c c' : Chess) : Prop :=
  ∀ sq, get c' sq = None ∨ get c' sq = get c sq.

(** Runs of single actions at the start of the creative phase, white to
    act on the starting position. *)
Definition snipA7 : bool * Hook * Random :=
  executeAction creativeHook "snip" ["a7"%string] (constantRandom 0).

Definition sniperD8 : bool * Hook * Random :=
  executeAction creativeHook "sniperShot" ["d8"%string] (constantRandom 0).

Definition jobE1 : bool * Hook * Random :=
  executeAction creativeHook "jobApplication" ["e1"; "snip"]%string (constantRandom 0).

(** The four squares Nuke visits for the anchor of file [file] and rank
    [rank] (both counted from 0), in the order of its two loops. *)
Definition nukeBlock (file rank : Z) : list Square :=
  [squareName file (rank + 1); squareName file (rank + 1 + 1);
   squareName (file + 1) (rank + 1); squareName (file + 1) (rank + 1 + 1)].

(** The body of Nuke's loops at a square: a piece that is not of the colour
    [me] is removed. *)
Definition nukeAt (me : PieceColor) (c : Chess) (sq : Square) : Chess :=
  match get c sq with
  | Some p => if bool_decide (color p ≠ me) then remove c sq else c
  | None => c
  end.

Definition nukeD6 : bool * Hook * Random :=
  executeAction creativeHook "nuke" ["d6"%string] (constantRandom 0).

Definition swapA1B1 : bool * Hook * Random :=
  executeAction creativeHook "swapPlaces" ["a1"; "b1"]%string (constantRandom 0).

Definition cloneB1A3 : bool * Hook * Random :=
  executeAction creativeHook "cloneRay" ["b1"; "a3"]%string (constantRandom 0).

Definition proxyB1 : bool * Hook * Random :=
  executeAction creativeHook "robotProxy" ["b1"%string] (constantRandom 0).

Definition barrageABC : bool * Hook * Random :=
  executeAction creativeHook "rocketBarrage" ["a7"; "b7"; "c7"]%string oddRandom.

(** The actions whose [execute] is [return gameState]. *)
Definition stubActions : list string :=
  ["rubberBand"; "shield"; "empBlast"; "lootDrop"; "timeFreeze"; "spyDrone";
   "puzzleTrap"]%string.

(** An action, then a move and another action by way of the hook. *)
Definition laterInputs : list Input :=
  [MakeMove "g1" "f3"; ExecuteAction "empBlast" []; MakeMove "g8" "f6"].

(** An action's [execute] that leaves the side to move of the position. *)
Definition keepsTurn (action : ActionEffect) : Prop :=
  ∀ gs args rnd gs' rnd',
    execute action gs args rnd = (Some gs', rnd') → turn (chess gs') = turn (chess gs).

(** An action's [execute] that puts no piece on the board. *)
Definition shrinking (action : ActionEffect) : Prop :=
  ∀ gs args rnd gs' rnd',
    execute action gs args rnd = (Some gs', rnd') → shrinks (chess gs) (chess gs').

(** What holds of the hook in every state it can reach. *)
Definition hookInvariant (h : Hook) : Prop :=
  0 ≤ halfMoves (gameState h)
  ∧ (phase (gameState h) = creative ↔ CREATIVE_PHASE_THRESHOLD ≤ halfMoves (gameState h))
  ∧ (lastMove (gameState h) = None ↔ halfMoves (gameState h) = 0)
  ∧ (selectedSquare (gameState h) = None → validMoves (gameState h) = [])
  ∧ (phase (gameState h) = standard → ∀ actionId, isUsed (actionRegistry h) actionId = false)
  ∧ dom (actionRegistry h) = dom initialRegistry.

(** ** components/ChessBoard *)

(** The arrays [files] and [ranks] of the board component, both reversed
    when the board is flipped. *)
Definition boardFiles (flipped : bool) : list string :=
  let files := ["a"; "b"; "c"; "d"; "e"; "f"; "g"; "h"]%string in
  if flipped then reverse files else files.

Definition boardRanks (flipped : bool) : list string :=
  let ranks := ["8"; "7"; "6"; "5"; "4"; "3"; "2"; "1"]%string in
  if flipped then reverse ranks else ranks.

(** [array.indexOf (x)]: the first position of [x], or -1. *)
Fixpoint indexOf (l : list string) (x : string) : Z :=
  match l with
  | [] => -1
  | y :: l =>
      if bool_decide (y = x) then 0
      else let i := indexOf l x in if bool_decide (i < 0) then -1 else i + 1
  end.

(** [(fileIndex + rankIndex) % 2 === 0]; the remainder of JavaScript takes
    the sign of the dividend. *)
Definition isLightSquare (flipped : bool) (file rank : string) : bool :=
  let fileIndex := indexOf (boardFiles flipped) file in
  let rankIndex := indexOf (boardRanks flipped) rank in
  bool_decide (Z.rem (fileIndex + rankIndex) 2 = 0).

(** [isLightSquare (square[0], square[1])], as [getSquareClasses] calls it.
    A missing character reads as [undefined], which like the empty string is
    in neither array. *)
Definition squareIsLight (flipped : bool) (sq : Square) : bool :=
  isLightSquare flipped (substring 0 1 sq) (substring 1 1 sq).

(** ** components/GameInterface *)

(** The hook with the two state cells of the interface. *)
Record Interface := {
  hook : Hook;
  selectedAction : option string;
  actionTarget : option Square
}.

(** [Math.max (0, 20 - gameState.halfMoves)] *)
Definition movesToCreative (ui : Interface) : Z :=
  Z.max 0 (20 - halfMoves (gameState (hook ui))).

(** [getAvailableActions ().find (a => a.id === actionId)] *)
Definition findAvailable (h : Hook) (actionId : string) : option ActionEffect :=
  find (λ a, bool_decide (id a = actionId)) (availableActions h).

(** The Cancel button. *)
Definition cancelAction (ui : Interface) : Interface :=
  {| hook := hook ui; selectedAction := None; actionTarget := None |}.

Section InterfaceHandlers.
Context {engine : Engine}.

(** A click on a square.  With an action selected, the square is offered to
    it as its only argument; [validateTarget] throwing ends the handler with
    nothing stored.  The result of [executeAction] is not looked at. *)
Definition handleSquareClick (ui : Interface) (square : Square) (rnd : Random)
  : Interface * Random :=
  let selecting :=
    ({| hook := selectSquare (hook ui) square;
        selectedAction := selectedAction ui;
        actionTarget := actionTarget ui |}, rnd) in
  match selectedAction ui with
  | Some sel =>
      if bool_decide (sel = EmptyString) then selecting
      else
        match findAvailable (hook ui) sel with
        | Some action =>
            if needsTarget action then
              match validateTarget action with
              | Some validate =>
                  match validate (gameState (hook ui)) [square] with
                  | Some true =>
                      let '(_, h', rnd') := executeAction (hook ui) sel [square] rnd in
                      ({| hook := h'; selectedAction := None; actionTarget := None |},
                       rnd')
                  | _ => (ui, rnd)
                  end
              | None => (ui, rnd)
              end
            else (ui, rnd)
        | None => (ui, rnd)
        end
  | None => selecting
  end.

(** A click on the button of an action. *)
Definition handleActionClick (ui : Interface) (actionId : string) (rnd : Random)
  : Interface * Random :=
  let needs :=
    match findAvailable (hook ui) actionId with
    | Some action => needsTarget action
    | None => false
    end in
  if needs
  then ({| hook := hook ui; selectedAction := Some actionId; actionTarget := None |},
        rnd)
  else
    let '(_, h', rnd') := executeAction (hook ui) actionId [] rnd in
    ({| hook := h'; selectedAction := selectedAction ui;
        actionTarget := actionTarget ui |}, rnd').

End InterfaceHandlers.

(** The interface as it starts, and at the start of the creative phase
    with an action selected. *)
Definition initialInterface : Interface :=
  {| hook := initialHook; selectedAction := None; actionTarget := None |}.

Definition creativeInterface (sel : option string) : Interface :=
  {| hook := creativeHook; selectedAction := sel; actionTarget := None |}.

(** A click on white's knight with Clone Ray selected, at the start of the
    creative phase. *)
Definition cloneClick : Interface * Random :=
  handleSquareClick (engine := looseEngine) (creativeInterface (Some "cloneRay"%string))
    "b1" (constantRandom 0).

(** The same click by black on its knight on b8, after white's Sniper Shot
    has taken the black king. *)
Definition cloneClickKingless : Interface * Random :=
  handleSquareClick (engine := looseEngine)
    {| hook := sniperE8.1.2; selectedAction := Some "cloneRay"%string;
       actionTarget := None |}
    "b8" sniperE8.2.

(** ** components/ChessBoard: [parseFEN] *)

(** [s.split (sep)] for a separator of one character. *)
Fixpoint splitOn (sep : ascii) (s : string) : list string :=
  match s with
  | EmptyString => [EmptyString]
  | String ch s' =>
      if bool_decide (ch = sep) then EmptyString :: splitOn sep s'
      else match splitOn sep s' with
           | x :: xs => String ch x :: xs
           | [] => [String ch EmptyString]
           end
  end.

(** [char.toUpperCase ()] on a character of the ASCII range. *)
Definition toUpperCase (ch : ascii) : ascii :=
  let code := nat_of_ascii ch in
  if bool_decide (97 ≤ code ≤ 122)%nat then ascii_of_nat (code - 32) else ch.

(** [char >= '1' && char <= '8'] *)
Definition isFileDigit (ch : ascii) : bool :=
  bool_decide (49 ≤ nat_of_ascii ch ≤ 56)%nat.

(** The body of the loop over the characters of one row: a digit moves the
    file on, any other character writes a square. *)
Definition parseChar (rankIndex : Z) (st : gmap string string * Z) (ch : ascii)
  : gmap string string * Z :=
  let '(board, fileIndex) := st in
  if isFileDigit ch then (board, fileIndex + (Z.of_nat (nat_of_ascii ch) - 48))
  else
    let square := squareName fileIndex (8 - rankIndex) in
    let color := if bool_decide (ch = toUpperCase ch) then "w"%string else "b"%string in
    (<[square := color +:+ String (toUpperCase ch) EmptyString]> board, fileIndex + 1).

Fixpoint parseRank (rankIndex : Z) (st : gmap string string * Z) (rank : string)
  : gmap string string * Z :=
  match rank with
  | EmptyString => st
  | String ch rest => parseRank rankIndex (parseChar rankIndex st ch) rest
  end.

(** [parseFEN (fen)]; a row that is missing makes the loop over its
    characters throw. *)
Definition parseFEN (fen : string) : option (gmap string string) :=
  let position := hd EmptyString (splitOn " " fen) in
  let ranks := splitOn "/" position in
  foldl (λ acc rankIndex,
           board ← acc;
           rank ← ranks !! Z.to_nat rankIndex;
           Some (parseRank rankIndex (board, 0) rank).1)
        (Some ∅) (seqZ 0 8).

(** *** The position string of chess.js

    The first field of [chess.fen ()], as the FEN notation defines it: the
    rows from rank 8 down to rank 1 separated by [/], in each row the files
    from a to h, a run of empty squares as its length, a piece as the letter
    of its type, in upper case for white. *)
Definition pieceLetter (p : Piece) : ascii :=
  match color p, type p with
  | White, Pawn => "P" | White, Knight => "N" | White, Bishop => "B"
  | White, Rook => "R" | White, Queen => "Q" | White, King => "K"
  | Black, Pawn => "p" | Black, Knight => "n" | Black, Bishop => "b"
  | Black, Rook => "r" | Black, Queen => "q" | Black, King => "k"
  end%char.

Definition emptyRun (empties : Z) : string :=
  if bool_decide (empties = 0) then EmptyString
  else String (ascii_of_nat (Z.to_nat (48 + empties))) EmptyString.

Fixpoint fenCells (empties : Z) (cells : list (option Piece)) : string :=
  match cells with
  | [] => emptyRun empties
  | None :: cells => fenCells (empties + 1) cells
  | Some p :: cells => emptyRun empties +:+ String (pieceLetter p) (fenCells 0 cells)
  end.

Definition fenRank (c : Chess) (rank : Z) : string :=
  fenCells 0 (get c <$> rankSquares rank).

Definition fenPlacement (c : Chess) : string :=
  fenRank c 8 +:+ "/" +:+ fenRank c 7 +:+ "/" +:+ fenRank c 6 +:+ "/" +:+ fenRank c 5
  +:+ "/" +:+ fenRank c 4 +:+ "/" +:+ fenRank c 3 +:+ "/" +:+ fenRank c 2
  +:+ "/" +:+ fenRank c 1.

(** The key under which the board component looks a piece up: [w] or [b],
    then the letter of the type in upper case. *)
Definition pieceKey (p : Piece) : string :=
  (match color p with White => "w" | Black => "b" end)%string
  +:+ String (match type p with
              | Pawn => "P" | Knight => "N" | Bishop => "B"
              | Rook => "R" | Queen => "Q" | King => "K"
              end)%char EmptyString.

(** Writing a list of squares with what they hold. *)
Definition placeCell (board : gmap string string) (cell : Square * option Piece)
  : gmap string string :=
  match cell.2 with
  | Some p => <[cell.1 := pieceKey p]> board
  | None => board
  end.

(** The squares of a row, from a file on, with what the cells hold. *)
Fixpoint cellsFrom (rank file : Z) (cells : list (option Piece))
  : list (Square * option Piece) :=
  match cells with
  | [] => []
  | cell :: cells => (squareName file rank, cell) :: cellsFrom rank (file + 1) cells
  end.

(** The squares in the order of the position string. *)
Definition fenSquares : list Square :=
  rankSquares 8 ++ rankSquares 7 ++ rankSquares 6 ++ rankSquares 5
  ++ rankSquares 4 ++ rankSquares 3 ++ rankSquares 2 ++ rankSquares 1.

(** The character occurs in the string. *)
Fixpoint contains (sep : ascii) (s : string) : bool :=
  match s with
  | EmptyString => false
  | String ch s' => bool_decide (ch = sep) || contains sep s'
  end.


(** * Properties *)

(** The scans run over the sixty-four squares; simplification leaves them
    folded. *)
Arguments scanSquares : simpl never.
Arguments isSquare : simpl never.
Arguments get : simpl never.
Arguments remove : simpl never.
Arguments put : simpl never.
Arguments getPiecesOfColor : simpl never.
Arguments checkWinCondition : simpl never.
Arguments getActionById : simpl never.

(** ** The board scan *)

Lemma scanSquares_length : List.length scanSquares = 64%nat.
Proof. reflexivity. Qed.

Lemma scanSquares_NoDup : NoDup scanSquares.
Proof. apply (bool_decide_unpack _). vm_compute. exact I. Qed.

Lemma isSquare_spec sq : isSquare sq = true ↔ sq ∈ scanSquares.
Proof. unfold isSquare. rewrite bool_decide_eq_true. reflexivity. Qed.

Lemma get_Some_isSquare c sq p : get c sq = Some p → sq ∈ scanSquares.
Proof.
  unfold get. destruct (isSquare sq) eqn:E; [|discriminate].
  intros _. by apply isSquare_spec.
Qed.

Lemma get_remove c sq sq' :
  get (remove c sq) sq' = if bool_decide (sq' = sq) then None else get c sq'.
Proof.
  unfold remove, get. case_bool_decide as E.
  - subst sq'. destruct (isSquare sq); simpl; [apply lookup_delete_eq | done].
  - destruct (isSquare sq) eqn:Hs; simpl; [|done].
    destruct (isSquare sq'); [|done]. by apply lookup_delete_ne.
Qed.

Lemma turn_remove c sq : turn (remove c sq) = turn c.
Proof. unfold remove. by destruct (isSquare sq). Qed.

(** Every file and rank of the board, each in its range. *)
Lemma file_cases (f : Z) :
  0 ≤ f < 8 → f ∈ [0; 1; 2; 3; 4; 5; 6; 7].
Proof.
  intros Hf.
  assert (f = 0 ∨ f = 1 ∨ f = 2 ∨ f = 3 ∨ f = 4 ∨ f = 5 ∨ f = 6 ∨ f = 7) as Hc by lia.
  rewrite !elem_of_cons. tauto.
Qed.

Lemma rank_cases (r : Z) :
  1 ≤ r ≤ 8 → r ∈ [1; 2; 3; 4; 5; 6; 7; 8].
Proof.
  intros Hr.
  assert (r = 1 ∨ r = 2 ∨ r = 3 ∨ r = 4 ∨ r = 5 ∨ r = 6 ∨ r = 7 ∨ r = 8) as Hc by lia.
  rewrite !elem_of_cons. tauto.
Qed.

Ltac board_cases f r Hf Hr :=
  apply file_cases in Hf; apply rank_cases in Hr;
  repeat (apply elem_of_cons in Hf as [->|Hf]);
  try (by apply elem_of_nil in Hf);
  repeat (apply elem_of_cons in Hr as [->|Hr]);
  try (by apply elem_of_nil in Hr).

(** The scan visits the squares by ascending rank, and within a rank by
    ascending file. *)
Lemma scanSquares_order (f r : Z) :
  0 ≤ f < 8 → 1 ≤ r ≤ 8 →
  scanSquares !! Z.to_nat (8 * (r - 1) + f) = Some (squareName f r).
Proof. intros Hf Hr. board_cases f r Hf Hr; reflexivity. Qed.

Lemma fileOf_squareName (f r : Z) :
  0 ≤ f < 8 → 1 ≤ r ≤ 8 → fileOf (squareName f r) = Some f.
Proof. intros Hf Hr. board_cases f r Hf Hr; reflexivity. Qed.

Lemma rankOf_squareName (f r : Z) :
  0 ≤ f < 8 → 1 ≤ r ≤ 8 → rankOf (squareName f r) = Some (r - 1).
Proof. intros Hf Hr. board_cases f r Hf Hr; reflexivity. Qed.

Lemma scanSquares_named sq :
  sq ∈ scanSquares ↔ ∃ f r, 0 ≤ f < 8 ∧ 1 ≤ r ≤ 8 ∧ sq = squareName f r.
Proof.
  split.
  - intros Hin. apply list_elem_of_lookup in Hin as [i Hi].
    assert (i < 64)%nat as Hlt by (apply lookup_lt_Some in Hi; exact Hi).
    exists (Z.of_nat i `mod` 8), (Z.of_nat i `div` 8 + 1).
    assert (0 ≤ Z.of_nat i `mod` 8 < 8) as Hf by (apply Z.mod_pos_bound; lia).
    assert (0 ≤ Z.of_nat i `div` 8 < 8) as Hr
      by (split; [apply Z.div_pos; lia | apply Z.div_lt_upper_bound; lia]).
    split; [done|]. split; [lia|].
    pose proof (scanSquares_order (Z.of_nat i `mod` 8) (Z.of_nat i `div` 8 + 1) Hf ltac:(lia)) as Ho.
    replace (Z.to_nat _) with i in Ho.
    + congruence.
    + pose proof (Z.div_mod (Z.of_nat i) 8 ltac:(lia)). lia.
  - intros (f & r & Hf & Hr & ->).
    apply list_elem_of_lookup. eexists. by apply scanSquares_order.
Qed.

Lemma elem_of_piecesOn c col squares x :
  x ∈ piecesOn c col squares ↔
  square x ∈ squares ∧ get c (square x) = Some (piece x) ∧ color (piece x) = col.
Proof.
  unfold piecesOn. rewrite list_elem_of_bind. split.
  - intros (sq & Hx & Hsq). unfold scanPiece in Hx.
    destruct (get c sq) as [p|] eqn:Hg; [|by apply elem_of_nil in Hx].
    case_bool_decide; [|by apply elem_of_nil in Hx].
    apply list_elem_of_singleton in Hx as ->. done.
  - intros (Hsq & Hg & Hc). exists (square x). split; [|done].
    unfold scanPiece. rewrite Hg, bool_decide_eq_true_2 by done.
    destruct x. apply list_elem_of_singleton. done.
Qed.

(** [getPiecesOfColor] lists exactly the pieces of the colour that [get]
    finds on the board. *)
Lemma elem_of_getPiecesOfColor c col x :
  x ∈ getPiecesOfColor c col ↔
  get c (square x) = Some (piece x) ∧ color (piece x) = col.
Proof.
  unfold getPiecesOfColor. rewrite elem_of_piecesOn. split; [tauto|].
  intros [Hg Hc]. eauto using get_Some_isSquare.
Qed.

Lemma pieceCount_zero c col :
  pieceCount c col = 0%nat ↔ ∀ sq p, get c sq = Some p → color p ≠ col.
Proof.
  unfold pieceCount. rewrite length_zero_iff_nil. split.
  - intros Hnil sq p Hg Hc.
    assert ({| piece := p; square := sq |} ∈ getPiecesOfColor c col) as Hin
      by (by apply elem_of_getPiecesOfColor).
    rewrite Hnil in Hin. by apply elem_of_nil in Hin.
  - intros Hno. destruct (getPiecesOfColor c col) as [|x l] eqn:E; [done|].
    assert (x ∈ getPiecesOfColor c col) as Hin by (rewrite E; left).
    apply elem_of_getPiecesOfColor in Hin as [Hg Hc]. by apply Hno in Hg.
Qed.

(** ** Win evaluation *)

Lemma piecesOn_cons c col sq squares :
  piecesOn c col (sq :: squares) = scanPiece c col sq ++ piecesOn c col squares.
Proof. reflexivity. Qed.

(** The two counters of [checkWinCondition] after the scan of some squares. *)
Lemma countSquare_fold c squares w b :
  foldl (countSquare c) (w, b) squares =
  (w + Z.of_nat (List.length (piecesOn c White squares)),
   b + Z.of_nat (List.length (piecesOn c Black squares))).
Proof.
  revert w b. induction squares as [|sq squares IH]; intros w b.
  - simpl. f_equal; lia.
  - change (foldl (countSquare c) (w, b) (sq :: squares))
      with (foldl (countSquare c) (countSquare c (w, b) sq) squares).
    rewrite !piecesOn_cons, !length_app.
    assert (countSquare c (w, b) sq =
            (w + Z.of_nat (List.length (scanPiece c White sq)),
             b + Z.of_nat (List.length (scanPiece c Black sq)))) as ->.
    { unfold countSquare, scanPiece.
      destruct (get c sq) as [[t []]|]; simpl; f_equal; lia. }
    rewrite IH. f_equal; lia.
Qed.

Lemma checkWinCondition_counts c :
  checkWinCondition c =
  if bool_decide (pieceCount c White = 0%nat) then (true, Some Black)
  else if bool_decide (pieceCount c Black = 0%nat) then (true, Some White)
  else (false, None).
Proof.
  unfold checkWinCondition, pieceCount, getPiecesOfColor.
  rewrite countSquare_fold.
  repeat case_bool_decide; try done; lia.
Qed.

Section Evaluated.
Context {engine : Engine}.

Lemma makeMove_evaluates h from to h' :
  makeMove h from to = (true, h') →
  (gameOver (gameState h'), winner (gameState h'))
  = checkWinCondition (chess (gameState h')).
Proof.
  unfold makeMove. destruct (move _ from to) as [c|]; [|discriminate].
  destruct (checkWinCondition c) as [g w] eqn:E.
  intros [= <-]. simpl. by rewrite E.
Qed.

Lemma makeMove_fails_unchanged h from to h' :
  makeMove h from to = (false, h') → h' = h.
Proof.
  unfold makeMove. destruct (move _ from to) as [c|].
  - by destruct (checkWinCondition c).
  - by intros [= <-].
Qed.
End Evaluated.

(** ** The action catalogue *)

Lemma withChess_id gs : withChess gs (chess gs) = gs.
Proof. by destruct gs. Qed.

Lemma getActionById_Some actionId action :
  getActionById actionId = Some action →
  action ∈ creativeActions ∧ id action = actionId.
Proof.
  unfold getActionById. intros Hf. apply find_some in Hf as [Hin Hid].
  split; [by apply list_elem_of_In | by apply bool_decide_eq_true in Hid].
Qed.

Lemma copyChess_Some c c' : copyChess c = Some c' → validFen c = true ∧ c' = c.
Proof.
  unfold copyChess. destruct (validFen c); [|discriminate].
  intros [= <-]. by split.
Qed.

Lemma copyChess_valid c : validFen c = true → copyChess c = Some c.
Proof. unfold copyChess. by intros ->. Qed.

Lemma copyChess_invalid c : validFen c = false → copyChess c = None.
Proof. unfold copyChess. by intros ->. Qed.

Lemma pureExecute_framed f :
  (∀ gs args gs', f gs args = Some gs' → ∃ c, gs' = withChess gs c) →
  ∀ gs args rnd gs' rnd',
    pureExecute f gs args rnd = (Some gs', rnd') → ∃ c, gs' = withChess gs c.
Proof. unfold pureExecute. intros Hf gs args rnd gs' rnd' [= Hgs _]. eauto. Qed.

Ltac unfold_execute H :=
  cbn [execute snip rubberBand nuke jobApplication robotProxy swapPlaces shield
       empBlast lootDrop timeFreeze cloneRay spyDrone sniperShot puzzleTrap
       rocketBarrage] in H;
  unfold pureExecute, robotProxyExecute in H.

Ltac frame_step :=
  match goal with
  | H : Some _ = Some _ |- _ => injection H as <-
  | H : None = Some _ |- _ => discriminate H
  | H : context [mbind _ ?o] |- _ => destruct o; cbn [mbind option_bind] in H
  | H : context [match ?o with Some _ => _ | None => _ end] |- _ =>
      destruct o; cbn beta iota in H
  | |- ∃ c, ?gs = withChess ?gs c => exists (chess gs); symmetry; apply withChess_id
  | |- ∃ c, withChess ?gs ?c' = withChess ?gs c => by exists c'
  end.

Lemma creativeActions_framed : Forall framed creativeActions.
Proof.
  unfold creativeActions.
  repeat apply Forall_cons_2; try apply Forall_nil_2;
    intros gs args rnd gs' rnd' He; unfold_execute He.
  1-14: apply pair_equal_spec in He as [He _]; repeat frame_step.
  destruct (copyChess (chess gs)) as [c0|]; [|discriminate He].
  destruct (barrage c0 args rnd) as [c r]. injection He as <- _.
  exists c. reflexivity.
Qed.

Lemma getActionById_framed actionId action :
  getActionById actionId = Some action → framed action.
Proof.
  intros Ha. apply getActionById_Some in Ha as [Hin _].
  pose proof creativeActions_framed as Hall.
  rewrite Forall_forall in Hall. by apply Hall.
Qed.

(** The shape of the state after a successful [executeAction]. *)
Lemma executeAction_true h actionId args rnd h' rnd' :
  executeAction h actionId args rnd = (true, h', rnd') →
  ∃ action c,
    getActionById actionId = Some action
    ∧ isUsed (actionRegistry h) actionId = false
    ∧ phase (gameState h) = creative
    ∧ execute action (gameState h) args rnd = (Some (withChess (gameState h) c), rnd')
    ∧ actionRegistry h' = <[actionId := true]> (actionRegistry h)
    ∧ gameState h' =
        {| chess := c;
           currentPlayer := getOpponentColor (currentPlayer (gameState h));
           phase := phase (gameState h);
           halfMoves := halfMoves (gameState h);
           selectedSquare := selectedSquare (gameState h);
           validMoves := validMoves (gameState h);
           gameOver := (checkWinCondition c).1;
           winner := (checkWinCondition c).2;
           lastMove := lastMove (gameState h) |}.
Proof.
  unfold executeAction.
  destruct (isUsed _ actionId) eqn:Hu; [discriminate|]. cbn [orb].
  case_bool_decide as Hp; [discriminate|].
  destruct (getActionById actionId) as [action|] eqn:Ha; [|discriminate].
  set (validated := match validateTarget action with Some _ => _ | None => _ end).
  destruct validated as [[]|]; try discriminate.
  destruct (execute action (gameState h) args rnd) as [[gs'|] r] eqn:He; [|discriminate].
  destruct (getActionById_framed _ _ Ha _ _ _ _ _ He) as [c ->].
  cbn [chess withChess]. destruct (checkWinCondition c) as [g w] eqn:Ew.
  intros [= <- <-]. exists action, c.
  cbn [gameState actionRegistry phase halfMoves selectedSquare validMoves
       lastMove withChess].
  rewrite Ew. repeat split; assumption.
Qed.

(** A failed [executeAction] stores nothing. *)
Lemma executeAction_false h actionId args rnd h' rnd' :
  executeAction h actionId args rnd = (false, h', rnd') → h' = h.
Proof.
  unfold executeAction.
  destruct (isUsed _ actionId || _); [congruence|].
  destruct (getActionById actionId) as [action|]; [|congruence].
  set (validated := match validateTarget action with Some _ => _ | None => _ end).
  destruct validated as [[]|]; try congruence.
  destruct (execute action (gameState h) args rnd) as [[gs'|] r]; [|congruence].
  destruct (checkWinCondition (chess gs')). discriminate.
Qed.

(** An [execute] that throws before drawing makes [executeAction] fail. *)
Lemma executeAction_throws h actionId action args rnd :
  getActionById actionId = Some action →
  execute action (gameState h) args rnd = (None, rnd) →
  executeAction h actionId args rnd = (false, h, rnd).
Proof.
  intros Ha He. unfold executeAction.
  destruct (isUsed _ actionId || _); [reflexivity|].
  rewrite Ha.
  set (validated := match validateTarget action with Some _ => _ | None => _ end).
  destruct validated as [[]|]; try reflexivity.
  by rewrite He.
Qed.

(** A position the constructor accepts has a king of either colour. *)
Lemma validFen_king c col : validFen c = true → hasPiece c col King.
Proof.
  unfold validFen. intros Hv.
  apply andb_true_iff in Hv as [Hv _]. apply andb_true_iff in Hv as [Hw Hb].
  apply bool_decide_eq_true in Hw. apply bool_decide_eq_true in Hb.
  assert (List.length (kingSquares c col) = 1%nat) as Hk by (by destruct col).
  destruct (kingSquares c col) as [|sq l] eqn:Hl; [discriminate|].
  assert (sq ∈ kingSquares c col) as Hin by (rewrite Hl; left).
  unfold kingSquares in Hin. apply list_elem_of_filter in Hin as [Hg _].
  exists sq, {| type := King; color := col |}. done.
Qed.

(** ** Turns *)


Section Turns.
Context {engine : Engine}.

Lemma makeMove_true h from to h' :
  makeMove h from to = (true, h') →
  ∃ c, move (chess (gameState h)) from to = Some c
       ∧ chess (gameState h') = c
       ∧ currentPlayer (gameState h') = turn c
       ∧ halfMoves (gameState h') = halfMoves (gameState h) + 1
       ∧ phase (gameState h') =
           (if bool_decide (CREATIVE_PHASE_THRESHOLD ≤ halfMoves (gameState h) + 1)
            then creative else standard)
       ∧ actionRegistry h' = actionRegistry h.
Proof.
  unfold makeMove. destruct (move _ from to) as [c|]; [|discriminate].
  destruct (checkWinCondition c) as [g w].
  intros [= <-]. exists c. repeat split.
Qed.

(** C1 (as amended).  A successful [executeAction] hands the turn to the
    other colour and leaves [halfMoves] and the phase as they were; a
    successful [makeMove] adds exactly one to [halfMoves] and makes the side
    to move of the new position the current player. *)
Theorem turn_advance (h : Hook) :
  (∀ actionId args rnd h' rnd',
      executeAction h actionId args rnd = (true, h', rnd') →
      currentPlayer (gameState h') = getOpponentColor (currentPlayer (gameState h))
      ∧ halfMoves (gameState h') = halfMoves (gameState h)
      ∧ phase (gameState h') = phase (gameState h))
  ∧ (∀ from to h',
      makeMove h from to = (true, h') →
      halfMoves (gameState h') = halfMoves (gameState h) + 1
      ∧ currentPlayer (gameState h') = turn (chess (gameState h'))).
Proof.
  split.
  - intros actionId args rnd h' rnd' He.
    apply executeAction_true in He as (action & c & _ & _ & _ & _ & _ & ->).
    repeat split; reflexivity.
  - intros from to h' Hm.
    apply makeMove_true in Hm as (c & _ & -> & -> & -> & _).
    split; reflexivity.
Qed.
End Turns.

Lemma result_true (r : bool * Hook * Random) : r.1.1 = true → r = (true, r.1.2, r.2).
Proof. destruct r as [[[] h] rnd]; [reflexivity | discriminate]. Qed.

Lemma turn_advance_witness :
  afterEmpBlast = (true, afterEmpBlast.1.2, afterEmpBlast.2)
  ∧ currentPlayer (gameState afterEmpBlast.1.2)
    = getOpponentColor (currentPlayer (gameState creativeHook))
  ∧ halfMoves (gameState afterEmpBlast.1.2) = halfMoves (gameState creativeHook)
  ∧ phase (gameState afterEmpBlast.1.2) = phase (gameState creativeHook).
Proof.
  assert (afterEmpBlast = (true, afterEmpBlast.1.2, afterEmpBlast.2)) as He
    by (apply result_true; vm_compute; reflexivity).
  split; [exact He|].
  exact (proj1 (turn_advance (engine := looseEngine) creativeHook)
           "empBlast" [] (constantRandom 0) _ _ He).
Defined.

(** C1, as the specification states it, fails: in the creative phase after
    twenty half-moves, EMP Blast succeeds and [halfMoves] is still 20. *)
Lemma action_increments_halfMoves_counterexample :
  afterEmpBlast.1.1 = true
  ∧ halfMoves (gameState creativeHook) = 20
  ∧ halfMoves (gameState afterEmpBlast.1.2) = 20
  ∧ halfMoves (gameState afterEmpBlast.1.2) ≠ halfMoves (gameState creativeHook) + 1.
Proof. vm_compute. repeat split. discriminate. Qed.

(** After an action the current player and the side to move of the position
    differ (the action flips the one and not the other), and the next
    successful move leaves the current player as it was. *)
Example makeMove_after_action :
  currentPlayer (gameState afterEmpBlast.1.2) = Black
  ∧ turn (chess (gameState afterEmpBlast.1.2)) = White
  ∧ moveAfterEmpBlast.1 = true
  ∧ currentPlayer (gameState moveAfterEmpBlast.2) = Black
  ∧ halfMoves (gameState moveAfterEmpBlast.2) = 21.
Proof. vm_compute. repeat split. Qed.

(** ** The phase *)

Lemma initialHook_phaseAgrees : phaseAgrees initialHook.
Proof. unfold phaseAgrees. simpl. unfold CREATIVE_PHASE_THRESHOLD. split; [discriminate | lia]. Qed.

Section Phase.
Context {engine : Engine}.

Lemma makeMove_phaseAgrees h from to :
  phaseAgrees h → phaseAgrees (makeMove h from to).2.
Proof.
  intros Hh. destruct (makeMove h from to) as [[] h'] eqn:Hm.
  - apply makeMove_true in Hm as (c & _ & _ & _ & Hn & Hp & _).
    unfold phaseAgrees. simpl. rewrite Hp, Hn.
    case_bool_decide; split; (done || lia).
  - apply makeMove_fails_unchanged in Hm as ->. exact Hh.
Qed.

Lemma makeMove_halfMoves h from to :
  halfMoves (gameState h) ≤ halfMoves (gameState (makeMove h from to).2).
Proof.
  destruct (makeMove h from to) as [[] h'] eqn:Hm.
  - apply makeMove_true in Hm as (c & _ & _ & _ & Hn & _). simpl. lia.
  - apply makeMove_fails_unchanged in Hm as ->. simpl. lia.
Qed.

Lemma executeAction_counters h actionId args rnd :
  let h' := (executeAction h actionId args rnd).1.2 in
  phase (gameState h') = phase (gameState h)
  ∧ halfMoves (gameState h') = halfMoves (gameState h).
Proof.
  destruct (executeAction h actionId args rnd) as [[[] h'] rnd'] eqn:He; simpl.
  - apply executeAction_true in He as (action & c & _ & _ & _ & _ & _ & ->).
    split; reflexivity.
  - apply executeAction_false in He as ->. split; reflexivity.
Qed.

Lemma selectSquare_cases h square :
  (∃ sel valid, selectSquare h square = withSelection h sel valid)
  ∨ (∃ sel, selectSquare h square = (makeMove h sel square).2).
Proof.
  unfold selectSquare. destruct (ownPiece _ _); [left; eauto|].
  destruct (selectedSquare (gameState h)) as [sel|]; [|left; eauto].
  destruct (_ && _); [right; eauto | left; eauto].
Qed.

Lemma step_phaseAgrees st i : phaseAgrees st.1 → phaseAgrees (step st i).1.
Proof.
  destruct st as [h rnd]. intros Hh. simpl in Hh.
  destruct i as [from to|sq|actionId args|]; simpl.
  - by apply makeMove_phaseAgrees.
  - destruct (selectSquare_cases h sq) as [(sel & valid & ->)|(sel & ->)].
    + exact Hh.
    + by apply makeMove_phaseAgrees.
  - pose proof (executeAction_counters h actionId args rnd) as [Hp Hn].
    destruct (executeAction h actionId args rnd) as [[b h'] rnd'].
    simpl in *. unfold phaseAgrees. rewrite Hp, Hn. exact Hh.
  - exact initialHook_phaseAgrees.
Qed.

Lemma step_halfMoves st i :
  isTurn i = true →
  halfMoves (gameState st.1) ≤ halfMoves (gameState (step st i).1).
Proof.
  destruct st as [h rnd].
  destruct i as [from to|sq|actionId args|]; simpl; intros Ht.
  - apply makeMove_halfMoves.
  - destruct (selectSquare_cases h sq) as [(sel & valid & ->)|(sel & ->)].
    + simpl. lia.
    + apply makeMove_halfMoves.
  - pose proof (executeAction_counters h actionId args rnd) as [_ Hn].
    destruct (executeAction h actionId args rnd) as [[b h'] rnd'].
    simpl in *. lia.
  - discriminate.
Qed.

Lemma run_phaseAgrees st inputs : phaseAgrees st.1 → phaseAgrees (run st inputs).1.
Proof.
  revert st. induction inputs as [|i inputs IH]; intros st Hst; [exact Hst|].
  simpl. apply IH. by apply step_phaseAgrees.
Qed.

Lemma run_halfMoves st inputs :
  forallb isTurn inputs = true →
  halfMoves (gameState st.1) ≤ halfMoves (gameState (run st inputs).1).
Proof.
  revert st. induction inputs as [|i inputs IH]; intros st Ht; simpl in *; [lia|].
  apply andb_prop in Ht as [Hi Ht].
  etrans; [by apply step_halfMoves | by apply IH].
Qed.

(** C2.  In every state reached from a fresh game by calls of the hook,
    the phase is creative exactly when [halfMoves] is at least 20; and
    over any further moves and actions [halfMoves] does not decrease and
    a creative phase stays creative. *)
Theorem phase_threshold (inputs : list Input) (rnd : Random) :
  let h := (run (initialHook, rnd) inputs).1 in
  (phase (gameState h) = creative ↔ 20 ≤ halfMoves (gameState h))
  ∧ ∀ more, forallb isTurn more = true →
      let h2 := (run (initialHook, rnd) (inputs ++ more)).1 in
      halfMoves (gameState h) ≤ halfMoves (gameState h2)
      ∧ (phase (gameState h) = creative → phase (gameState h2) = creative).
Proof.
  intros h.
  assert (phaseAgrees h) as Hh by (apply run_phaseAgrees, initialHook_phaseAgrees).
  split; [exact Hh|]. intros more Hm h2.
  assert (phaseAgrees h2) as Hh2 by (apply run_phaseAgrees, initialHook_phaseAgrees).
  assert (halfMoves (gameState h) ≤ halfMoves (gameState h2)) as Hle.
  { subst h h2. unfold run. rewrite foldl_app. by apply run_halfMoves. }
  split; [exact Hle|]. intros Hc. apply Hh2. apply Hh in Hc. lia.
Qed.
End Phase.

(** After the twenty half-moves of the knights' shuffle the phase is
    creative, and it stays so over an action and a further move. *)
Lemma phase_threshold_witness :
  forallb isTurn [ExecuteAction "empBlast" []; MakeMove "g1" "f3"] = true
  ∧ phase (gameState (run (engine := looseEngine) (initialHook, constantRandom 0)
                          knightShuffle).1) = creative
  ∧ phase (gameState (run (engine := looseEngine) (initialHook, constantRandom 0)
                          (knightShuffle
                           ++ [ExecuteAction "empBlast" []; MakeMove "g1" "f3"])).1)
    = creative.
Proof.
  assert (phase (gameState (run (engine := looseEngine)
                              (initialHook, constantRandom 0) knightShuffle).1)
          = creative) as Hc by (vm_compute; reflexivity).
  split; [reflexivity|]. split; [exact Hc|].
  exact (proj2 (proj2 (phase_threshold (engine := looseEngine) knightShuffle
                         (constantRandom 0))
                  [ExecuteAction "empBlast" []; MakeMove "g1" "f3"] eq_refl) Hc).
Defined.

(** ** Win evaluation after a turn *)

Lemma executeAction_evaluates h actionId args rnd h' rnd' :
  executeAction h actionId args rnd = (true, h', rnd') →
  (gameOver (gameState h'), winner (gameState h'))
  = checkWinCondition (chess (gameState h')).
Proof.
  intros He. apply executeAction_true in He as (action & c & _ & _ & _ & _ & _ & ->).
  cbn [gameOver winner chess]. destruct (checkWinCondition c). reflexivity.
Qed.

(** C3 (as amended).  [checkWinCondition] counts the pieces of each colour
    on the board.  When white has none, the game is over and black is the
    winner, whether or not black has any; otherwise, when black has none,
    the game is over and white is the winner; otherwise the game is not over
    and there is no winner.  A count is zero exactly when [get] finds no
    piece of the colour, and every successful move and action stores the
    evaluation of the position it leaves. *)
Theorem win_evaluation {engine : Engine} (c : Chess) (h : Hook) :
  (pieceCount c White = 0%nat → checkWinCondition c = (true, Some Black))
  ∧ (pieceCount c White ≠ 0%nat → pieceCount c Black = 0%nat →
     checkWinCondition c = (true, Some White))
  ∧ (pieceCount c White ≠ 0%nat → pieceCount c Black ≠ 0%nat →
     checkWinCondition c = (false, None))
  ∧ (∀ col, pieceCount c col = 0%nat ↔ ∀ sq p, get c sq = Some p → color p ≠ col)
  ∧ (∀ from to h', makeMove h from to = (true, h') →
       (gameOver (gameState h'), winner (gameState h'))
       = checkWinCondition (chess (gameState h')))
  ∧ (∀ actionId args rnd h' rnd',
       executeAction h actionId args rnd = (true, h', rnd') →
       (gameOver (gameState h'), winner (gameState h'))
       = checkWinCondition (chess (gameState h'))).
Proof.
  rewrite checkWinCondition_counts.
  split; [|split; [|split; [|split; [|split]]]].
  - intros Hw. by rewrite bool_decide_eq_true_2.
  - intros Hw Hb. by rewrite bool_decide_eq_false_2, bool_decide_eq_true_2.
  - intros Hw Hb. by rewrite !bool_decide_eq_false_2.
  - intros col. apply pieceCount_zero.
  - intros from to h'. apply makeMove_evaluates.
  - intros actionId args rnd h' rnd'. apply executeAction_evaluates.
Qed.

Lemma win_evaluation_witness :
  (pieceCount emptyChess White = 0%nat ∧ checkWinCondition emptyChess = (true, Some Black))
  ∧ (pieceCount loneKing White ≠ 0%nat ∧ pieceCount loneKing Black = 0%nat
     ∧ checkWinCondition loneKing = (true, Some White))
  ∧ (pieceCount newChess White ≠ 0%nat ∧ pieceCount newChess Black ≠ 0%nat
     ∧ checkWinCondition newChess = (false, None)).
Proof.
  assert (pieceCount emptyChess White = 0%nat) as E1 by (vm_compute; reflexivity).
  assert (pieceCount loneKing White ≠ 0%nat) as E2 by (vm_compute; discriminate).
  assert (pieceCount loneKing Black = 0%nat) as E3 by (vm_compute; reflexivity).
  assert (pieceCount newChess White ≠ 0%nat) as E4 by (vm_compute; discriminate).
  assert (pieceCount newChess Black ≠ 0%nat) as E5 by (vm_compute; discriminate).
  split; [split; [exact E1|]|split; [split; [exact E2|split; [exact E3|]]
                                    |split; [exact E4|split; [exact E5|]]]].
  - exact (proj1 (win_evaluation (engine := looseEngine) emptyChess initialHook) E1).
  - exact (proj1 (proj2 (win_evaluation (engine := looseEngine) loneKing initialHook))
             E2 E3).
  - exact (proj1 (proj2 (proj2 (win_evaluation (engine := looseEngine) newChess
                                  initialHook))) E4 E5).
Defined.

(** C3, as the specification states it, fails on the board with no piece:
    both counts are zero, and the result names black the winner instead of
    reporting no winner. *)
Lemma empty_board_draw_counterexample :
  pieceCount emptyChess White = 0%nat
  ∧ pieceCount emptyChess Black = 0%nat
  ∧ checkWinCondition emptyChess = (true, Some Black)
  ∧ (checkWinCondition emptyChess).2 ≠ None.
Proof. vm_compute. repeat split. discriminate. Qed.

(** ** Rejected actions *)

(** C4.  A failed [executeAction] leaves both state cells as they were.  It
    fails outside the creative phase, for an action already used, and when
    the [validateTarget] of an action that needs a target does not return
    [true]; Snip on an empty square is such a case. *)
Theorem rejected_action_unchanged (h : Hook) (actionId : string)
    (args : list string) (rnd : Random) :
  (∀ h' rnd', executeAction h actionId args rnd = (false, h', rnd') → h' = h)
  ∧ (phase (gameState h) ≠ creative →
     (executeAction h actionId args rnd).1 = (false, h))
  ∧ (isUsed (actionRegistry h) actionId = true →
     (executeAction h actionId args rnd).1 = (false, h))
  ∧ (∀ action validate,
       getActionById actionId = Some action →
       validateTarget action = Some validate →
       needsTarget action = true →
       validate (gameState h) args ≠ Some true →
       (executeAction h actionId args rnd).1 = (false, h))
  ∧ (∀ sq, get (chess (gameState h)) sq = None →
       (executeAction h "snip" [sq] rnd).1 = (false, h)).
Proof.
  assert (∀ actionId args action validate,
       getActionById actionId = Some action →
       validateTarget action = Some validate →
       needsTarget action = true →
       validate (gameState h) args ≠ Some true →
       (executeAction h actionId args rnd).1 = (false, h)) as Hval.
  { intros aid ar action validate Ha Hv Hn Hr. unfold executeAction.
    destruct (_ || _); [reflexivity|]. rewrite Ha, Hv, Hn.
    destruct (validate (gameState h) ar) as [[]|]; [congruence|reflexivity..]. }
  split; [|split; [|split; [|split]]].
  - intros h' rnd'. apply executeAction_false.
  - intros Hp. unfold executeAction.
    rewrite (bool_decide_eq_true_2 _ Hp), orb_true_r. reflexivity.
  - intros Hu. unfold executeAction. rewrite Hu. reflexivity.
  - apply Hval.
  - intros sq Hg. apply (Hval "snip"%string [sq] snip _ eq_refl eq_refl eq_refl).
    simpl. unfold getArg. simpl. rewrite Hg. discriminate.
Qed.

Lemma rejected_action_unchanged_witness :
  get (chess (gameState creativeHook)) "a5" = None
  ∧ snipEmpty.1 = (false, creativeHook)
  ∧ actionRegistry snipEmpty.1.2 !! "snip"%string = Some false.
Proof.
  assert (get (chess (gameState creativeHook)) "a5" = None) as Hg
    by (vm_compute; reflexivity).
  assert (snipEmpty.1 = (false, creativeHook)) as Hs
    by exact (proj2 (proj2 (proj2 (proj2
         (rejected_action_unchanged creativeHook "snip" [] (constantRandom 0)))))
         "a5"%string Hg).
  split; [exact Hg|]. split; [exact Hs|].
  rewrite Hs. vm_compute. reflexivity.
Defined.

(** ** A fresh game *)

Lemma filter_all {A} (P : A → Prop) `{∀ x, Decision (P x)} (l : list A) :
  Forall P l → filter P l = l.
Proof.
  induction 1 as [|x l Hx Hl IH]; [reflexivity|].
  rewrite filter_cons_True by exact Hx. by rewrite IH.
Qed.

Lemma initialRegistry_flags :
  Forall (λ action, initialRegistry !! id action = Some false) creativeActions.
Proof.
  unfold creativeActions.
  repeat (apply Forall_cons_2; [vm_compute; reflexivity|]). apply Forall_nil_2.
Qed.

(** C5.  The hook starts, and [resetGame] leaves it, with [halfMoves] at 0
    in the standard phase; the catalogue has fifteen actions with distinct
    ids, the registry holds the flag [false] (unused) for each of them and
    nothing else, and all fifteen are available.  The state has no
    component for status effects. *)
Theorem fresh_game :
  (∀ h : Hook, resetGame h = initialHook)
  ∧ halfMoves (gameState initialHook) = 0
  ∧ phase (gameState initialHook) = standard
  ∧ chess (gameState initialHook) = newChess
  ∧ List.length creativeActions = 15%nat
  ∧ NoDup (id <$> creativeActions)
  ∧ Forall (λ action, actionRegistry initialHook !! id action = Some false)
           creativeActions
  ∧ dom (actionRegistry initialHook) = list_to_set (id <$> creativeActions)
  ∧ availableActions initialHook = creativeActions.
Proof.
  split; [reflexivity|].
  split; [reflexivity|].
  split; [reflexivity|].
  split; [reflexivity|].
  split; [reflexivity|].
  split; [apply (bool_decide_unpack _); vm_compute; exact I|].
  split; [exact initialRegistry_flags|].
  split; [apply (bool_decide_unpack _); vm_compute; exact I|].
  unfold availableActions. apply filter_all.
  eapply Forall_impl; [exact initialRegistry_flags|].
  intros action Ha. unfold isUsed. cbn [actionRegistry initialHook]. by rewrite Ha.
Qed.

(** ** Shield and Rubber-Band Shot *)

Lemma getActionById_shield : getActionById "shield" = Some shield.
Proof. reflexivity. Qed.

Lemma getActionById_rubberBand : getActionById "rubberBand" = Some rubberBand.
Proof. reflexivity. Qed.

Lemma withChess_inj gs c : withChess gs c = gs → c = chess gs.
Proof. destruct gs. unfold withChess. simpl. congruence. Qed.

(** An action whose [execute] returns its argument leaves the position, the
    phase and the counter alone: only the turn, the evaluation and the
    registry change. *)
Lemma executeAction_identity h actionId action args rnd h' rnd' :
  getActionById actionId = Some action →
  (∀ gs args rnd, execute action gs args rnd = (Some gs, rnd)) →
  executeAction h actionId args rnd = (true, h', rnd') →
  chess (gameState h') = chess (gameState h) ∧ rnd' = rnd.
Proof.
  intros Ha Hid He.
  apply executeAction_true in He as (action' & c & Ha' & _ & _ & He & _ & ->).
  assert (action' = action) as -> by congruence.
  rewrite Hid in He. injection He as Hc <-.
  symmetry in Hc. apply withChess_inj in Hc as ->. split; reflexivity.
Qed.

Section NoStatus.
Context {engine : Engine}.

Lemma makeMove_result h from to :
  (makeMove h from to).1
  = match move (chess (gameState h)) from to with Some _ => true | None => false end.
Proof.
  unfold makeMove. destruct (move _ from to) as [c|]; [|reflexivity].
  destruct (checkWinCondition c). reflexivity.
Qed.

(** Rubber-Band Shot changes nothing that [makeMove] reads: whatever move
    the engine accepted before the shot, it accepts after it. *)
Lemma rubberBand_moves_unchanged h args rnd h' rnd' from to :
  executeAction h "rubberBand" args rnd = (true, h', rnd') →
  (makeMove h' from to).1 = (makeMove h from to).1.
Proof.
  intros He.
  apply (executeAction_identity _ _ _ _ _ _ _ getActionById_rubberBand) in He
    as [Hc _]; [|reflexivity].
  by rewrite !makeMove_result, Hc.
Qed.

(** Shield changes nothing that a later action reads from the position. *)
Lemma shield_position_unchanged h args rnd h' rnd' :
  executeAction h "shield" args rnd = (true, h', rnd') →
  chess (gameState h') = chess (gameState h).
Proof.
  intros He.
  by apply (executeAction_identity _ _ _ _ _ _ _ getActionById_shield) in He
    as [Hc _].
Qed.
End NoStatus.

(** C6 (the code at a failing input).  Shield's [execute] returns the state
    it was given.  At the start of the creative phase white shields its pawn
    on a2 and the call succeeds; black then snips a2, the call succeeds, and
    the pawn is gone: the shielded piece did not survive the first removal
    aimed at it. *)
Theorem shield_does_not_protect :
  (∀ gs args rnd, execute shield gs args rnd = (Some gs, rnd))
  ∧ shieldA2.1.1 = true
  ∧ currentPlayer (gameState shieldA2.1.2) = Black
  ∧ get (chess (gameState shieldA2.1.2)) "a2" = Some {| type := Pawn; color := White |}
  ∧ snipA2.1.1 = true
  ∧ get (chess (gameState snipA2.1.2)) "a2" = None.
Proof.
  split; [reflexivity|]. vm_compute. repeat split.
Qed.

(** C7 (the code at a failing input).  Rubber-Band Shot's [execute] returns
    the state it was given.  After white's EMP Blast, black's Rubber-Band
    Shot at the white knight on g1 succeeds; it is then white's turn, and
    the move of that knight from g1 to f3 succeeds at once: the piece was not
    immobilised for its owner's next turn. *)
Theorem rubberBand_does_not_freeze :
  (∀ gs args rnd, execute rubberBand gs args rnd = (Some gs, rnd))
  ∧ afterEmpBlast.1.1 = true
  ∧ currentPlayer (gameState afterEmpBlast.1.2) = Black
  ∧ rubberBandG1.1.1 = true
  ∧ currentPlayer (gameState rubberBandG1.1.2) = White
  ∧ turn (chess (gameState rubberBandG1.1.2)) = White
  ∧ get (chess (gameState rubberBandG1.1.2)) "g1" = Some {| type := Knight; color := White |}
  ∧ moveG1.1 = true
  ∧ get (chess (gameState moveG1.2)) "f3" = Some {| type := Knight; color := White |}.
Proof.
  split; [reflexivity|]. vm_compute. repeat split.
Qed.

(** ** Sniper Shot *)

Lemma getSquareDistance_parts sq1 sq2 :
  getSquareDistance sq1 sq2 =
  (file1 ← fileOf sq1; rank1 ← rankOf sq1; file2 ← fileOf sq2; rank2 ← rankOf sq2;
   Some (Z.abs (file1 - file2) + Z.abs (rank1 - rank2))).
Proof. reflexivity. Qed.

(** On the squares of the board [getSquareDistance] is the Manhattan
    distance of the files and ranks. *)
Lemma getSquareDistance_named (f1 r1 f2 r2 : Z) :
  0 ≤ f1 < 8 → 1 ≤ r1 ≤ 8 → 0 ≤ f2 < 8 → 1 ≤ r2 ≤ 8 →
  getSquareDistance (squareName f1 r1) (squareName f2 r2)
  = Some (Z.abs (f1 - f2) + Z.abs (r1 - r2)).
Proof.
  intros Hf1 Hr1 Hf2 Hr2. rewrite getSquareDistance_parts.
  rewrite !fileOf_squareName, !rankOf_squareName by assumption.
  cbn [mbind option_bind]. do 2 f_equal. lia.
Qed.

Lemma numberGe_true n k : numberGe n k = true ↔ ∃ d, n = Some d ∧ k ≤ d.
Proof.
  unfold numberGe. destruct n as [v|].
  - rewrite bool_decide_eq_true. split; [eauto|]. by intros (d & [= <-] & Hd).
  - split; [discriminate|]. by intros (d & Hd & _).
Qed.

(** C8.  Sniper Shot's [validateTarget] returns [true] exactly when the
    target square holds a piece of the opponent and some piece of the acting
    player is at distance 3 or more from the target, and returns [false]
    otherwise; the distance is the Manhattan distance between the squares. *)
Theorem sniperShot_validate (gs : GameState) (targetSquare : Square) :
  validateTarget sniperShot = Some sniperShotValidate
  ∧ (sniperShotValidate gs [targetSquare] = Some true ↔
     (∃ p, get (chess gs) targetSquare = Some p ∧ color p ≠ currentPlayer gs)
     ∧ (∃ sq p d, get (chess gs) sq = Some p ∧ color p = currentPlayer gs
                  ∧ getSquareDistance sq targetSquare = Some d ∧ 3 ≤ d))
  ∧ (sniperShotValidate gs [targetSquare] ≠ Some true →
     sniperShotValidate gs [targetSquare] = Some false)
  ∧ (∀ f1 r1 f2 r2 : Z,
       0 ≤ f1 < 8 → 1 ≤ r1 ≤ 8 → 0 ≤ f2 < 8 → 1 ≤ r2 ≤ 8 →
       getSquareDistance (squareName f1 r1) (squareName f2 r2)
       = Some (Z.abs (f1 - f2) + Z.abs (r1 - r2))).
Proof.
  split; [reflexivity|].
  split; [|split; [|apply getSquareDistance_named]].
  - unfold sniperShotValidate. cbn [lookup list_lookup].
    destruct (get (chess gs) targetSquare) as [p|] eqn:Hg.
    + case_bool_decide as Hc.
      * split; [discriminate|]. intros [(p' & [= <-] & Hne) _]. done.
      * split.
        -- intros [= He]. split; [eauto|].
           apply existsb_exists in He as (x & Hin & Hd).
           apply list_elem_of_In, elem_of_getPiecesOfColor in Hin as [Hx Hcx].
           apply numberGe_true in Hd as (d & Hd & Hle).
           exists (square x), (piece x), d. done.
        -- intros [_ (sq & p' & d & Hg' & Hc' & Hd & Hle)]. f_equal.
           apply existsb_exists. exists {| piece := p'; square := sq |}. split.
           ++ apply list_elem_of_In, elem_of_getPiecesOfColor. done.
           ++ apply numberGe_true. eauto.
    + split; [discriminate|]. by intros [(p & Hp & _) _].
  - unfold sniperShotValidate. cbn [lookup list_lookup].
    destruct (get (chess gs) targetSquare) as [p|]; [|reflexivity].
    case_bool_decide; [reflexivity|].
    destruct (existsb _ _); [by intros []|reflexivity].
Qed.

Lemma sniperShot_validate_witness :
  getSquareDistance (squareName 0 1) (squareName 7 8) = Some (Z.abs (0 - 7) + Z.abs (1 - 8))
  ∧ sniperShotValidate (gameState creativeHook) ["a7"%string] = Some true.
Proof.
  split.
  - apply (sniperShot_validate initialGameState "a1"); lia.
  - apply (sniperShot_validate (gameState creativeHook) "a7"). split.
    + exists {| type := Pawn; color := Black |}. split; [vm_compute; reflexivity|].
      vm_compute. discriminate.
    + exists "a1"%string, {| type := Rook; color := White |}, 6.
      split; [vm_compute; reflexivity|]. split; [vm_compute; reflexivity|].
      split; [vm_compute; reflexivity|]. lia.
Defined.

Example sniperShot_near_rejected :
  getSquareDistance "e4" "e6" = Some 2
  ∧ getSquareDistance "e5" "e6" = Some 1
  ∧ sniperShotValidate nearBoard ["e6"%string] = Some false.
Proof. vm_compute. repeat split. Qed.

(** ** Rocket Barrage *)

Lemma rollAt_next rnd i : rollAt (rollD6 rnd).2 i = rollAt rnd (S i).
Proof. unfold rollAt, rollD6. simpl. f_equal. f_equal. lia. Qed.

Lemma hit_cons rnd sq0 targetSquares sq :
  hit rnd (sq0 :: targetSquares) sq ↔
  (sq0 = sq ∧ 4 ≤ rollAt rnd 0) ∨ hit (rollD6 rnd).2 targetSquares sq.
Proof.
  unfold hit. split.
  - intros ([|i] & Hi & Hr).
    + left. simpl in Hi. split; [congruence | exact Hr].
    + right. exists i. rewrite rollAt_next. done.
  - intros [[-> Hr]|(i & Hi & Hr)].
    + exists 0%nat. done.
    + exists (S i). rewrite rollAt_next in Hr. done.
Qed.

Lemma barrage_cons c sq targetSquares rnd :
  barrage c (sq :: targetSquares) rnd =
  barrage (if bool_decide (4 ≤ rollAt rnd 0) then remove c sq else c)
          targetSquares (rollD6 rnd).2.
Proof.
  unfold rollAt. rewrite Nat.add_0_r. reflexivity.
Qed.


Lemma barrage_stays_empty c targetSquares rnd sq :
  get c sq = None → get (barrage c targetSquares rnd).1 sq = None.
Proof.
  revert c rnd. induction targetSquares as [|sq0 l IH]; intros c rnd Hg; [exact Hg|].
  rewrite barrage_cons. apply IH. case_bool_decide; [|exact Hg].
  rewrite get_remove. by case_bool_decide.
Qed.

Lemma barrage_get c targetSquares rnd sq :
  (hit rnd targetSquares sq → get (barrage c targetSquares rnd).1 sq = None)
  ∧ (¬ hit rnd targetSquares sq →
     get (barrage c targetSquares rnd).1 sq = get c sq).
Proof.
  revert c rnd. induction targetSquares as [|sq0 l IH]; intros c rnd.
  - split; [by intros (i & Hi & _)|reflexivity].
  - rewrite barrage_cons, hit_cons.
    destruct (IH (if bool_decide (4 ≤ rollAt rnd 0) then remove c sq0 else c)
                 (rollD6 rnd).2) as [IHhit IHmiss].
    split.
    + intros [[-> Hr]|Hh]; [|by apply IHhit].
      apply barrage_stays_empty.
      rewrite bool_decide_eq_true_2 by exact Hr.
      rewrite get_remove. by rewrite bool_decide_eq_true_2.
    + intros Hh. rewrite IHmiss by tauto.
      case_bool_decide as Hr; [|reflexivity].
      rewrite get_remove, bool_decide_eq_false_2; [reflexivity|].
      intros ->. tauto.
Qed.

Lemma barrage_turn c targetSquares rnd :
  turn (barrage c targetSquares rnd).1 = turn c.
Proof.
  revert c rnd. induction targetSquares as [|sq0 l IH]; intros c rnd; [reflexivity|].
  rewrite barrage_cons, IH. case_bool_decide; [apply turn_remove|reflexivity].
Qed.





(** ** Robot Proxy *)

Lemma find_piecesOn_Some c col t squares x :
  find (hasType t) (piecesOn c col squares) = Some x →
  ∃ i, squares !! i = Some (square x)
       ∧ (∃ p, get c (square x) = Some p ∧ color p = col ∧ type p = t)
       ∧ ∀ j sq' p, (j < i)%nat → squares !! j = Some sq' →
                    get c sq' = Some p → ¬ (color p = col ∧ type p = t).
Proof.
  induction squares as [|sq l IH]; [discriminate|].
  rewrite piecesOn_cons. unfold scanPiece.
  destruct (get c sq) as [p|] eqn:Hg.
  - case_bool_decide as Hc.
    + cbn [app find]. unfold hasType at 1. cbn [piece].
      case_bool_decide as Ht.
      * intros [= <-]. exists 0%nat. cbn [square].
        split; [reflexivity|]. split; [eauto|]. intros j sq' p' Hj. lia.
      * intros Hf. destruct (IH Hf) as (i & Hi & Hx & Hbefore).
        exists (S i). split; [exact Hi|]. split; [exact Hx|].
        intros [|j] sq' p' Hj Hl Hg'.
        -- injection Hl as <-. rewrite Hg in Hg'. injection Hg' as <-. tauto.
        -- apply (Hbefore j sq' p'); [lia|exact Hl|exact Hg'].
    + cbn [app]. intros Hf. destruct (IH Hf) as (i & Hi & Hx & Hbefore).
      exists (S i). split; [exact Hi|]. split; [exact Hx|].
      intros [|j] sq' p' Hj Hl Hg'.
      * injection Hl as <-. rewrite Hg in Hg'. injection Hg' as <-. tauto.
      * apply (Hbefore j sq' p'); [lia|exact Hl|exact Hg'].
  - cbn [app]. intros Hf. destruct (IH Hf) as (i & Hi & Hx & Hbefore).
    exists (S i). split; [exact Hi|]. split; [exact Hx|].
    intros [|j] sq' p' Hj Hl Hg'.
    + injection Hl as <-. congruence.
    + apply (Hbefore j sq' p'); [lia|exact Hl|exact Hg'].
Qed.

Lemma find_getPiecesOfColor_Some c col t x :
  find (hasType t) (getPiecesOfColor c col) = Some x →
  firstInScan c col t (square x).
Proof. apply find_piecesOn_Some. Qed.

Lemma find_getPiecesOfColor_None c col t :
  find (hasType t) (getPiecesOfColor c col) = None → ¬ hasPiece c col t.
Proof.
  intros Hf (sq & p & Hg & Hc & Ht).
  assert ({| piece := p; square := sq |} ∈ getPiecesOfColor c col) as Hin
    by (by apply elem_of_getPiecesOfColor).
  apply list_elem_of_In in Hin.
  apply (find_none _ _ Hf) in Hin. unfold hasType in Hin. cbn [piece] in Hin.
  by apply bool_decide_eq_false in Hin.
Qed.

Lemma firstInScan_hasPiece c col t sq : firstInScan c col t sq → hasPiece c col t.
Proof. intros (i & _ & (p & Hp) & _). by exists sq, p. Qed.

(** The target of Robot Proxy for a type, when the opponent has it. *)
Lemma find_getPiecesOfColor_cases c col t :
  (∃ x, find (hasType t) (getPiecesOfColor c col) = Some x
        ∧ firstInScan c col t (square x))
  ∨ (find (hasType t) (getPiecesOfColor c col) = None ∧ ¬ hasPiece c col t).
Proof.
  destruct (find (hasType t) (getPiecesOfColor c col)) as [x|] eqn:Hf.
  - left. exists x. split; [reflexivity|]. by apply find_getPiecesOfColor_Some.
  - right. split; [reflexivity|]. by apply find_getPiecesOfColor_None.
Qed.




Example robotProxy_examples :
  (chess <$> proxyKnight) = Some (remove newChess "b8")
  ∧ (chess <$> proxyQueen) = Some (remove (chess queenPilotBoard) "h6")
  ∧ (execute robotProxy rooksOnlyBoard ["d1"%string] (constantRandom 0)).1 = None.
Proof. vm_compute. repeat split. Qed.


(** * Further properties *)

(** ** Counting pieces *)

Lemma get_put c p sq sq' :
  get (put c p sq) sq' =
  if isSquare sq && bool_decide (sq' = sq) then Some p else get c sq'.
Proof.
  unfold put, get. destruct (isSquare sq) eqn:Hs; cbn [andb]; [|reflexivity].
  case_bool_decide as E.
  - subst sq'. rewrite Hs. cbn [board]. apply lookup_insert_eq.
  - destruct (isSquare sq'); [|reflexivity]. cbn [board]. by apply lookup_insert_ne.
Qed.

Lemma turn_put c p sq : turn (put c p sq) = turn c.
Proof. unfold put. by destruct (isSquare sq). Qed.

Lemma get_not_square c sq : isSquare sq = false → get c sq = None.
Proof. unfold get. by intros ->. Qed.

Lemma scanPiece_length c col sq :
  List.length (scanPiece c col sq) = if occupied c col sq then 1%nat else 0%nat.
Proof.
  unfold scanPiece, occupied. destruct (get c sq) as [p|]; cbn [fmap option_fmap option_map].
  - case_bool_decide as E.
    + rewrite bool_decide_eq_true_2 by congruence. reflexivity.
    + rewrite bool_decide_eq_false_2 by congruence. reflexivity.
  - rewrite bool_decide_eq_false_2 by discriminate. reflexivity.
Qed.

Lemma piecesOn_length_cons c col sq squares :
  List.length (piecesOn c col (sq :: squares)) =
  ((if occupied c col sq then 1 else 0) + List.length (piecesOn c col squares))%nat.
Proof. by rewrite piecesOn_cons, length_app, scanPiece_length. Qed.

Lemma piecesOn_length_le c c' col squares :
  (∀ sq, sq ∈ squares → occupied c' col sq = true → occupied c col sq = true) →
  (List.length (piecesOn c' col squares) ≤ List.length (piecesOn c col squares))%nat.
Proof.
  induction squares as [|sq l IH]; intros Hocc; [reflexivity|].
  rewrite !piecesOn_length_cons.
  assert (List.length (piecesOn c' col l) ≤ List.length (piecesOn c col l))%nat as Hl
    by (apply IH; intros sq' Hin; apply Hocc; by right).
  specialize (Hocc sq ltac:(left)).
  destruct (occupied c' col sq); [rewrite Hocc by reflexivity|destruct (occupied c col sq)]; lia.
Qed.

Lemma piecesOn_length_agree c c' col squares :
  (∀ sq, sq ∈ squares → occupied c' col sq = occupied c col sq) →
  List.length (piecesOn c' col squares) = List.length (piecesOn c col squares).
Proof.
  intros Hocc. apply Nat.le_antisymm; apply piecesOn_length_le; intros sq Hin.
  - by rewrite Hocc.
  - by rewrite <- Hocc.
Qed.

(** Two positions that differ in the occupation of one square only. *)
Lemma piecesOn_length_differ c c' col squares sq0 :
  NoDup squares → sq0 ∈ squares →
  (∀ sq, sq ∈ squares → sq ≠ sq0 → occupied c' col sq = occupied c col sq) →
  (List.length (piecesOn c' col squares) + (if occupied c col sq0 then 1 else 0)
   = List.length (piecesOn c col squares) + (if occupied c' col sq0 then 1 else 0))%nat.
Proof.
  induction squares as [|sq l IH]; intros Hnd Hin Hocc; [by apply elem_of_nil in Hin|].
  apply NoDup_cons in Hnd as [Hsq Hnd]. rewrite !piecesOn_length_cons.
  apply elem_of_cons in Hin as [->|Hin].
  - rewrite (piecesOn_length_agree c c' col l).
    + destruct (occupied c col sq), (occupied c' col sq); lia.
    + intros sq' Hin'. apply Hocc; [by right|]. intros ->. contradiction.
  - rewrite (Hocc sq) by (try left; intros ->; contradiction).
    specialize (IH Hnd Hin ltac:(intros sq' Hin' Hne; apply Hocc; [by right|exact Hne])).
    destruct (occupied c col sq); lia.
Qed.

Lemma occupied_Some c col sq p : get c sq = Some p → occupied c col sq = bool_decide (color p = col).
Proof.
  intros Hg. unfold occupied. rewrite Hg. cbn [fmap option_fmap option_map].
  case_bool_decide as E.
  - injection E as E. by rewrite bool_decide_eq_true_2.
  - rewrite bool_decide_eq_false_2; [reflexivity|]. congruence.
Qed.

Lemma occupied_None c col sq : get c sq = None → occupied c col sq = false.
Proof. intros Hg. unfold occupied. rewrite Hg. by apply bool_decide_eq_false_2. Qed.

(** Removing the piece of a square takes one from the count of its colour
    and leaves the count of the other colour. *)
Lemma pieceCount_remove c sq p col :
  get c sq = Some p →
  (pieceCount (remove c sq) col + (if bool_decide (color p = col) then 1 else 0)
   = pieceCount c col)%nat.
Proof.
  intros Hg. unfold pieceCount, getPiecesOfColor.
  pose proof (piecesOn_length_differ c (remove c sq) col scanSquares sq
                scanSquares_NoDup (get_Some_isSquare _ _ _ Hg)) as Hd.
  rewrite (occupied_Some _ _ _ _ Hg) in Hd.
  rewrite (occupied_None (remove c sq) col sq) in Hd
    by (rewrite get_remove; rewrite (bool_decide_eq_true_2 (sq = sq)); reflexivity).
  rewrite Hd; [lia|].
  intros sq' _ Hne. unfold occupied. rewrite get_remove.
  rewrite (bool_decide_eq_false_2 (sq' = sq)) by exact Hne. reflexivity.
Qed.

Lemma remove_empty c sq : get c sq = None → ∀ sq', get (remove c sq) sq' = get c sq'.
Proof.
  intros Hg sq'. rewrite get_remove. case_bool_decide as E; [|reflexivity].
  subst. by rewrite Hg.
Qed.

Lemma pieceCount_shrinks c c' col :
  shrinks c c' → (pieceCount c' col ≤ pieceCount c col)%nat.
Proof.
  intros Hs. apply piecesOn_length_le. intros sq _. unfold occupied.
  destruct (Hs sq) as [-> | ->]; [|done].
  rewrite bool_decide_eq_false_2 by discriminate. discriminate.
Qed.

Lemma shrinks_refl c : shrinks c c.
Proof. intros sq. by right. Qed.

Lemma shrinks_trans c1 c2 c3 : shrinks c1 c2 → shrinks c2 c3 → shrinks c1 c3.
Proof.
  intros H12 H23 sq. destruct (H23 sq) as [H|H]; [by left|].
  rewrite H. apply H12.
Qed.

Lemma shrinks_remove c sq : shrinks c (remove c sq).
Proof. intros sq'. rewrite get_remove. case_bool_decide; [by left|by right]. Qed.

(** ** The squares of the board *)

Lemma elem_of_getEmptySquares c sq :
  sq ∈ getEmptySquares c ↔ sq ∈ scanSquares ∧ get c sq = None.
Proof. unfold getEmptySquares. rewrite list_elem_of_filter. tauto. Qed.

Lemma board_partition_on c squares :
  (List.length (filter (λ sq, get c sq = None) squares)
   + List.length (piecesOn c White squares)
   + List.length (piecesOn c Black squares) = List.length squares)%nat.
Proof.
  induction squares as [|sq l IH]; [reflexivity|].
  rewrite !piecesOn_length_cons, filter_cons. cbn [List.length].
  destruct (get c sq) as [p|] eqn:Hg.
  - rewrite decide_False by discriminate.
    rewrite !(occupied_Some _ _ _ _ Hg).
    destruct p as [t []]; cbn [color];
      repeat (case_bool_decide; try congruence); lia.
  - rewrite decide_True by reflexivity. rewrite !(occupied_None _ _ _ Hg).
    cbn [List.length]. lia.
Qed.

(** X1.  Every one of the sixty-four squares is counted once: it is listed
    by [getEmptySquares], or it holds a piece listed by [getPiecesOfColor]
    for white, or one listed for black.  [getEmptySquares] lists exactly the
    board squares on which [get] finds nothing. *)
Theorem board_partition (c : Chess) :
  (∀ sq, sq ∈ getEmptySquares c ↔ sq ∈ scanSquares ∧ get c sq = None)
  ∧ (List.length (getEmptySquares c)
     + List.length (getPiecesOfColor c White)
     + List.length (getPiecesOfColor c Black) = 64)%nat.
Proof.
  split; [intros sq; apply elem_of_getEmptySquares|].
  unfold getEmptySquares, getPiecesOfColor.
  rewrite board_partition_on. apply scanSquares_length.
Qed.

(** ** The distance of two squares *)

Lemma squareName_inj (f1 r1 f2 r2 : Z) :
  0 ≤ f1 < 8 → 1 ≤ r1 ≤ 8 → 0 ≤ f2 < 8 → 1 ≤ r2 ≤ 8 →
  squareName f1 r1 = squareName f2 r2 → f1 = f2 ∧ r1 = r2.
Proof.
  intros Hf1 Hr1 Hf2 Hr2 He.
  pose proof (fileOf_squareName f1 r1 Hf1 Hr1) as F1.
  pose proof (rankOf_squareName f1 r1 Hf1 Hr1) as R1.
  rewrite He in F1, R1.
  rewrite fileOf_squareName in F1 by assumption.
  rewrite rankOf_squareName in R1 by assumption.
  injection F1 as F1. injection R1 as R1. lia.
Qed.

(** X2.  [getSquareDistance] is symmetric for all strings.  Between two
    squares of the board it is a number from 0 to 14 that is 0 exactly when
    the squares are the same, and it obeys the triangle inequality. *)
Theorem getSquareDistance_metric :
  (∀ sq1 sq2, getSquareDistance sq1 sq2 = getSquareDistance sq2 sq1)
  ∧ (∀ sq1 sq2, sq1 ∈ scanSquares → sq2 ∈ scanSquares →
       ∃ d, getSquareDistance sq1 sq2 = Some d ∧ 0 ≤ d ≤ 14 ∧ (d = 0 ↔ sq1 = sq2))
  ∧ (∀ sq1 sq2 sq3 d12 d23 d13,
       sq1 ∈ scanSquares → sq2 ∈ scanSquares → sq3 ∈ scanSquares →
       getSquareDistance sq1 sq2 = Some d12 →
       getSquareDistance sq2 sq3 = Some d23 →
       getSquareDistance sq1 sq3 = Some d13 →
       d13 ≤ d12 + d23).
Proof.
  split; [|split].
  - intros sq1 sq2. rewrite !getSquareDistance_parts.
    destruct (fileOf sq1), (rankOf sq1), (fileOf sq2), (rankOf sq2);
      cbn [mbind option_bind]; try reflexivity.
    f_equal. lia.
  - intros sq1 sq2 H1 H2.
    apply scanSquares_named in H1 as (f1 & r1 & Hf1 & Hr1 & ->).
    apply scanSquares_named in H2 as (f2 & r2 & Hf2 & Hr2 & ->).
    rewrite getSquareDistance_named by assumption.
    eexists. split; [reflexivity|]. split; [lia|]. split.
    + intros Hd. assert (f1 = f2 ∧ r1 = r2) as [-> ->] by lia. reflexivity.
    + intros He. apply squareName_inj in He as [-> ->]; [lia|assumption..].
  - intros sq1 sq2 sq3 d12 d23 d13 H1 H2 H3.
    apply scanSquares_named in H1 as (f1 & r1 & Hf1 & Hr1 & ->).
    apply scanSquares_named in H2 as (f2 & r2 & Hf2 & Hr2 & ->).
    apply scanSquares_named in H3 as (f3 & r3 & Hf3 & Hr3 & ->).
    rewrite !getSquareDistance_named by assumption.
    intros [= <-] [= <-] [= <-]. lia.
Qed.

Lemma getSquareDistance_metric_witness :
  ("a1" ∈ scanSquares ∧ "h8" ∈ scanSquares ∧ "e4" ∈ scanSquares)
  ∧ (∃ d, getSquareDistance "a1" "h8" = Some d ∧ 0 ≤ d ≤ 14 ∧ (d = 0 ↔ "a1" = "h8"))
  ∧ 14 ≤ 7 + 7.
Proof.
  assert ("a1" ∈ scanSquares) as H1 by (apply isSquare_spec; vm_compute; reflexivity).
  assert ("h8" ∈ scanSquares) as H2 by (apply isSquare_spec; vm_compute; reflexivity).
  assert ("e4" ∈ scanSquares) as H3 by (apply isSquare_spec; vm_compute; reflexivity).
  split; [tauto|]. split.
  - exact (proj1 (proj2 getSquareDistance_metric) "a1" "h8" H1 H2).
  - apply (proj2 (proj2 getSquareDistance_metric) "a1" "e4" "h8" 7 7 14 H1 H3 H2);
      vm_compute; reflexivity.
Defined.

(** ** What a successful action did *)

Lemma executeAction_validated h actionId args rnd h' rnd' action validate :
  executeAction h actionId args rnd = (true, h', rnd') →
  getActionById actionId = Some action →
  validateTarget action = Some validate →
  needsTarget action = true →
  validate (gameState h) args = Some true.
Proof.
  unfold executeAction. intros He Ha Hv Hn. rewrite Ha, Hv, Hn in He.
  destruct (isUsed _ actionId || _); [discriminate|].
  destruct (validate (gameState h) args) as [[]|]; [reflexivity|discriminate..].
Qed.

Lemma executeAction_chess h actionId args rnd h' rnd' action gs' rnd'' :
  executeAction h actionId args rnd = (true, h', rnd') →
  getActionById actionId = Some action →
  execute action (gameState h) args rnd = (Some gs', rnd'') →
  chess (gameState h') = chess gs'.
Proof.
  intros He Ha Hx.
  apply executeAction_true in He as (action' & c & Ha' & _ & _ & Hx' & _ & ->).
  assert (action' = action) as -> by congruence.
  rewrite Hx in Hx'. injection Hx' as -> _. reflexivity.
Qed.

(** An action that begins with a copy of the position succeeds only on a
    position the constructor accepts. *)
Lemma executeAction_validFen h actionId args rnd h' rnd' action :
  executeAction h actionId args rnd = (true, h', rnd') →
  getActionById actionId = Some action →
  (validFen (chess (gameState h)) = false →
   execute action (gameState h) args rnd = (None, rnd)) →
  validFen (chess (gameState h)) = true.
Proof.
  intros He Ha Hthrow. destruct (validFen _) eqn:Hv; [reflexivity|].
  rewrite (executeAction_throws _ _ _ _ _ Ha (Hthrow eq_refl)) in He. discriminate.
Qed.

Ltac throws :=
  let Hv := fresh "Hv" in
  intros Hv;
  cbn [execute snip nuke jobApplication robotProxy swapPlaces cloneRay sniperShot
       rocketBarrage];
  unfold pureExecute, robotProxyExecute;
  by rewrite (copyChess_invalid _ Hv).

Ltac valid_copy He action Hvalid :=
  pose proof (executeAction_validFen _ _ _ _ _ _ action He eq_refl) as Hvalid;
  lapply Hvalid; [clear Hvalid; intros Hvalid | throws].

Ltac run_execute Hvalid :=
  cbn [execute snip nuke jobApplication robotProxy swapPlaces cloneRay sniperShot
       rocketBarrage];
  unfold pureExecute, robotProxyExecute;
  rewrite (copyChess_valid _ Hvalid); cbn [mbind option_bind].

Lemma executeAction_registry h actionId args rnd h' rnd' :
  executeAction h actionId args rnd = (true, h', rnd') →
  actionRegistry h' = <[actionId := true]> (actionRegistry h).
Proof.
  intros He. by apply executeAction_true in He as (action & c & _ & _ & _ & _ & -> & _).
Qed.

Lemma not_mine_opponent (p : Piece) (me : PieceColor) :
  color p ≠ me ↔ color p = getOpponentColor me.
Proof. destruct p as [t []], me; cbn; split; congruence. Qed.

Lemma getOpponentColor_ne me : getOpponentColor me ≠ me.
Proof. by destruct me. Qed.

(** The removal of one piece, as the counts see it. *)
Lemma removal_counts c sq p :
  get c sq = Some p →
  get (remove c sq) sq = None
  ∧ (∀ sq', sq' ≠ sq → get (remove c sq) sq' = get c sq')
  ∧ (pieceCount (remove c sq) (color p) + 1 = pieceCount c (color p))%nat
  ∧ (∀ col, col ≠ color p → pieceCount (remove c sq) col = pieceCount c col).
Proof.
  intros Hg. split; [|split; [|split]].
  - rewrite get_remove. by rewrite bool_decide_eq_true_2.
  - intros sq' Hne. rewrite get_remove. by rewrite bool_decide_eq_false_2.
  - pose proof (pieceCount_remove c sq p (color p) Hg) as Hc.
    rewrite bool_decide_eq_true_2 in Hc by reflexivity. exact Hc.
  - intros col Hne. pose proof (pieceCount_remove c sq p col Hg) as Hc.
    rewrite bool_decide_eq_false_2 in Hc by congruence. lia.
Qed.

(** X3.  When Snip succeeds, its target held a pawn of the opponent; the
    pawn is gone, every other square is as it was, the opponent has one
    piece fewer and the acting player as many as before. *)
Theorem snip_effect (h : Hook) (sq : Square) (rest : list string) (rnd : Random)
    (h' : Hook) (rnd' : Random) :
  executeAction h "snip" (sq :: rest) rnd = (true, h', rnd') →
  (∃ p, get (chess (gameState h)) sq = Some p ∧ type p = Pawn
        ∧ color p = getOpponentColor (currentPlayer (gameState h)))
  ∧ get (chess (gameState h')) sq = None
  ∧ (∀ sq', sq' ≠ sq → get (chess (gameState h')) sq' = get (chess (gameState h)) sq')
  ∧ (pieceCount (chess (gameState h')) (getOpponentColor (currentPlayer (gameState h))) + 1
     = pieceCount (chess (gameState h)) (getOpponentColor (currentPlayer (gameState h))))%nat
  ∧ pieceCount (chess (gameState h')) (currentPlayer (gameState h))
    = pieceCount (chess (gameState h)) (currentPlayer (gameState h)).
Proof.
  intros He.
  pose proof (executeAction_validated _ _ _ _ _ _ snip _ He eq_refl eq_refl eq_refl) as Hv.
  valid_copy He snip Hvalid.
  pose proof He as Hc.
  eapply (executeAction_chess _ _ _ _ _ _ snip) in Hc;
    [|reflexivity|run_execute Hvalid; reflexivity].
  cbn [chess withChess lookup list_lookup removeArg] in Hc.
  cbn [lookup list_lookup getArg mbind option_bind] in Hv.
  destruct (get (chess (gameState h)) sq) as [p|] eqn:Hg; [|discriminate].
  injection Hv as Hv. apply andb_prop in Hv as [Ht Hcol].
  apply bool_decide_eq_true in Ht, Hcol. apply not_mine_opponent in Hcol.
  rewrite Hc. destruct (removal_counts _ _ _ Hg) as (H1 & H2 & H3 & H4).
  rewrite Hcol in H3. split; [eauto|]. split; [exact H1|]. split; [exact H2|].
  split; [exact H3|]. apply H4. rewrite Hcol. symmetry. apply getOpponentColor_ne.
Qed.

Lemma snip_effect_witness :
  snipA7 = (true, snipA7.1.2, snipA7.2)
  ∧ get (chess (gameState snipA7.1.2)) "a7" = None
  ∧ (pieceCount (chess (gameState snipA7.1.2))
       (getOpponentColor (currentPlayer (gameState creativeHook))) + 1
     = pieceCount (chess (gameState creativeHook))
         (getOpponentColor (currentPlayer (gameState creativeHook))))%nat.
Proof.
  assert (snipA7 = (true, snipA7.1.2, snipA7.2)) as He
    by (apply result_true; vm_compute; reflexivity).
  split; [exact He|].
  destruct (snip_effect creativeHook "a7" [] (constantRandom 0) _ _ He)
    as (_ & Hgone & _ & Hcount & _).
  split; [exact Hgone|exact Hcount].
Defined.

(** X4.  When Sniper Shot succeeds, its target held a piece of the opponent
    (of any type, the king included); that piece is gone, every other square
    is as it was, the opponent has one piece fewer and the acting player as
    many as before. *)
Theorem sniperShot_effect (h : Hook) (sq : Square) (rest : list string) (rnd : Random)
    (h' : Hook) (rnd' : Random) :
  executeAction h "sniperShot" (sq :: rest) rnd = (true, h', rnd') →
  (∃ p, get (chess (gameState h)) sq = Some p
        ∧ color p = getOpponentColor (currentPlayer (gameState h)))
  ∧ get (chess (gameState h')) sq = None
  ∧ (∀ sq', sq' ≠ sq → get (chess (gameState h')) sq' = get (chess (gameState h)) sq')
  ∧ (pieceCount (chess (gameState h')) (getOpponentColor (currentPlayer (gameState h))) + 1
     = pieceCount (chess (gameState h)) (getOpponentColor (currentPlayer (gameState h))))%nat
  ∧ pieceCount (chess (gameState h')) (currentPlayer (gameState h))
    = pieceCount (chess (gameState h)) (currentPlayer (gameState h)).
Proof.
  intros He.
  pose proof (executeAction_validated _ _ _ _ _ _ sniperShot _ He eq_refl eq_refl eq_refl)
    as Hv.
  valid_copy He sniperShot Hvalid.
  pose proof He as Hc.
  eapply (executeAction_chess _ _ _ _ _ _ sniperShot) in Hc;
    [|reflexivity|run_execute Hvalid; reflexivity].
  cbn [chess withChess lookup list_lookup removeArg] in Hc.
  unfold sniperShotValidate in Hv. cbn [lookup list_lookup] in Hv.
  destruct (get (chess (gameState h)) sq) as [p|] eqn:Hg; [|discriminate].
  case_bool_decide as Hcol; [discriminate|]. apply not_mine_opponent in Hcol.
  rewrite Hc. destruct (removal_counts _ _ _ Hg) as (H1 & H2 & H3 & H4).
  rewrite Hcol in H3. split; [eauto|]. split; [exact H1|]. split; [exact H2|].
  split; [exact H3|]. apply H4. rewrite Hcol. symmetry. apply getOpponentColor_ne.
Qed.

Lemma sniperShot_effect_witness :
  sniperD8 = (true, sniperD8.1.2, sniperD8.2)
  ∧ get (chess (gameState sniperD8.1.2)) "d8" = None.
Proof.
  assert (sniperD8 = (true, sniperD8.1.2, sniperD8.2)) as He
    by (apply result_true; vm_compute; reflexivity).
  split; [exact He|].
  destruct (sniperShot_effect creativeHook "d8" [] (constantRandom 0) _ _ He)
    as (_ & Hgone & _).
  exact Hgone.
Defined.

(** X5.  When Job Application succeeds, its target held a piece of the
    acting player, of any type (a king is accepted); that piece is gone and
    nothing else on the board changed, so the acting player has one piece
    fewer.  The registry changes at the flag of Job Application only: the
    action named as second argument gains nothing. *)
Theorem jobApplication_effect (h : Hook) (sq : Square) (rest : list string)
    (rnd : Random) (h' : Hook) (rnd' : Random) :
  executeAction h "jobApplication" (sq :: rest) rnd = (true, h', rnd') →
  (∃ p, get (chess (gameState h)) sq = Some p
        ∧ color p = currentPlayer (gameState h))
  ∧ get (chess (gameState h')) sq = None
  ∧ (∀ sq', sq' ≠ sq → get (chess (gameState h')) sq' = get (chess (gameState h)) sq')
  ∧ (pieceCount (chess (gameState h')) (currentPlayer (gameState h)) + 1
     = pieceCount (chess (gameState h)) (currentPlayer (gameState h)))%nat
  ∧ (∀ actionId, actionId ≠ "jobApplication"%string →
       actionRegistry h' !! actionId = actionRegistry h !! actionId).
Proof.
  intros He.
  pose proof (executeAction_validated _ _ _ _ _ _ jobApplication _ He
                eq_refl eq_refl eq_refl) as Hv.
  valid_copy He jobApplication Hvalid.
  pose proof He as Hc.
  eapply (executeAction_chess _ _ _ _ _ _ jobApplication) in Hc;
    [|reflexivity|run_execute Hvalid; reflexivity].
  pose proof (executeAction_registry _ _ _ _ _ _ He) as Hr.
  cbn [chess withChess lookup list_lookup removeArg] in Hc.
  cbn [lookup list_lookup getArg mbind option_bind] in Hv.
  destruct (get (chess (gameState h)) sq) as [p|] eqn:Hg; [|discriminate].
  injection Hv as Hv. cbn [ownPiece] in Hv. apply bool_decide_eq_true in Hv.
  rewrite Hc. destruct (removal_counts _ _ _ Hg) as (H1 & H2 & H3 & _).
  rewrite Hv in H3. split; [eauto|]. split; [exact H1|]. split; [exact H2|].
  split; [exact H3|]. intros actionId Hne. rewrite Hr. by apply lookup_insert_ne.
Qed.

Lemma jobApplication_effect_witness :
  jobE1 = (true, jobE1.1.2, jobE1.2)
  ∧ get (chess (gameState creativeHook)) "e1" = Some {| type := King; color := White |}
  ∧ get (chess (gameState jobE1.1.2)) "e1" = None
  ∧ actionRegistry jobE1.1.2 !! "snip"%string = actionRegistry creativeHook !! "snip"%string.
Proof.
  assert (jobE1 = (true, jobE1.1.2, jobE1.2)) as He
    by (apply result_true; vm_compute; reflexivity).
  split; [exact He|]. split; [vm_compute; reflexivity|].
  destruct (jobApplication_effect creativeHook "e1" ["snip"%string] (constantRandom 0)
              _ _ He) as (_ & Hgone & _ & _ & Hreg).
  split; [exact Hgone|]. apply Hreg. discriminate.
Defined.

(** ** Nuke *)

Lemma occupied_opponent c me sq p :
  get c sq = Some p → occupied c (getOpponentColor me) sq = bool_decide (color p ≠ me).
Proof.
  intros Hg. rewrite (occupied_Some _ _ _ _ Hg).
  apply bool_decide_ext. symmetry. apply not_mine_opponent.
Qed.

Lemma nukeAt_get me c sq sq' :
  get (nukeAt me c sq) sq' =
  if bool_decide (sq' = sq) && occupied c (getOpponentColor me) sq'
  then None else get c sq'.
Proof.
  unfold nukeAt. destruct (decide (sq' = sq)) as [->|Hne].
  - rewrite (bool_decide_eq_true_2 (sq = sq)) by reflexivity. cbn [andb].
    destruct (get c sq) as [p|] eqn:Hg.
    + rewrite (occupied_opponent _ _ _ _ Hg).
      destruct (bool_decide (color p ≠ me)); [|exact Hg].
      rewrite get_remove. by rewrite (bool_decide_eq_true_2 (sq = sq)).
    + by rewrite (occupied_None _ _ _ Hg).
  - rewrite (bool_decide_eq_false_2 (sq' = sq)) by exact Hne. cbn [andb].
    destruct (get c sq) as [p|]; [|reflexivity].
    destruct (bool_decide (color p ≠ me)); [|reflexivity].
    rewrite get_remove. by rewrite (bool_decide_eq_false_2 (sq' = sq)).
Qed.

Lemma nukeAt_occupied me c sq col sq' :
  sq' ≠ sq → occupied (nukeAt me c sq) col sq' = occupied c col sq'.
Proof.
  intros Hne. unfold occupied. rewrite nukeAt_get.
  by rewrite (bool_decide_eq_false_2 (sq' = sq)) by exact Hne.
Qed.

Lemma nukeAt_occupied_here me c sq :
  occupied (nukeAt me c sq) (getOpponentColor me) sq = false.
Proof.
  destruct (occupied c (getOpponentColor me) sq) eqn:Ho.
  - apply occupied_None. rewrite nukeAt_get, Ho.
    by rewrite (bool_decide_eq_true_2 (sq = sq)).
  - unfold occupied in *. rewrite nukeAt_get. fold (occupied c (getOpponentColor me) sq).
    unfold occupied. rewrite Ho, andb_false_r. exact Ho.
Qed.

Lemma nukeAt_fold_get me (squares : list Square) c sq' :
  get (foldl (nukeAt me) c squares) sq' =
  if bool_decide (sq' ∈ squares) && occupied c (getOpponentColor me) sq'
  then None else get c sq'.
Proof.
  revert c. induction squares as [|sq l IH]; intros c.
  - cbn [foldl]. rewrite bool_decide_eq_false_2 by apply not_elem_of_nil. reflexivity.
  - cbn [foldl]. rewrite IH.
    destruct (decide (sq' = sq)) as [->|Hne].
    + rewrite nukeAt_occupied_here, andb_false_r, nukeAt_get.
      rewrite (bool_decide_eq_true_2 (sq ∈ sq :: l)) by left.
      by rewrite (bool_decide_eq_true_2 (sq = sq)).
    + rewrite nukeAt_occupied by exact Hne. rewrite nukeAt_get.
      rewrite (bool_decide_eq_false_2 (sq' = sq)) by exact Hne. cbn [andb].
      rewrite (bool_decide_ext (sq' ∈ sq :: l) (sq' ∈ l)); [reflexivity|].
      rewrite elem_of_cons. tauto.
Qed.

Lemma filter_occupied_ext c c' col (squares : list Square) :
  (∀ sq, sq ∈ squares → occupied c' col sq = occupied c col sq) →
  filter (λ sq, occupied c' col sq = true) squares
  = filter (λ sq, occupied c col sq = true) squares.
Proof.
  induction squares as [|sq l IH]; intros Hocc; [reflexivity|].
  rewrite !filter_cons, (Hocc sq) by left.
  rewrite IH by (intros sq' Hin; apply Hocc; by right). reflexivity.
Qed.

Lemma occupied_two_colours c me sq :
  occupied c (getOpponentColor me) sq = true → occupied c me sq = false.
Proof.
  unfold occupied. rewrite bool_decide_eq_true. intros Ho.
  apply bool_decide_eq_false_2. rewrite Ho. intros [= E].
  by apply (getOpponentColor_ne me).
Qed.

Lemma nukeAt_fold_own me (squares : list Square) c :
  pieceCount (foldl (nukeAt me) c squares) me = pieceCount c me.
Proof.
  apply piecesOn_length_agree. intros sq _. unfold occupied at 1.
  rewrite nukeAt_fold_get.
  destruct (bool_decide (sq ∈ squares)); cbn [andb]; [|reflexivity].
  destruct (occupied c (getOpponentColor me) sq) eqn:Ho; [|reflexivity].
  rewrite (occupied_two_colours _ _ _ Ho). by apply bool_decide_eq_false_2.
Qed.

Lemma nukeAt_fold_opponent me (squares : list Square) c :
  NoDup squares → (∀ sq, sq ∈ squares → sq ∈ scanSquares) →
  (pieceCount (foldl (nukeAt me) c squares) (getOpponentColor me)
   + List.length (filter (λ sq, occupied c (getOpponentColor me) sq = true) squares)
   = pieceCount c (getOpponentColor me))%nat.
Proof.
  revert c. induction squares as [|sq l IH]; intros c Hnd Hin.
  - cbn [foldl]. rewrite filter_nil. cbn [List.length]. lia.
  - apply NoDup_cons in Hnd as [Hsq Hnd]. cbn [foldl].
    pose proof (IH (nukeAt me c sq) Hnd
                  ltac:(intros sq' Hin'; apply Hin; by right)) as Hl.
    rewrite (filter_occupied_ext c (nukeAt me c sq) _ l) in Hl
      by (intros sq' Hin'; apply nukeAt_occupied; intros ->; contradiction).
    pose proof (piecesOn_length_differ c (nukeAt me c sq) (getOpponentColor me)
                  scanSquares sq scanSquares_NoDup (Hin sq ltac:(left))
                  ltac:(intros sq' _ Hne; by apply nukeAt_occupied)) as Hd.
    rewrite nukeAt_occupied_here in Hd.
    unfold pieceCount, getPiecesOfColor in *.
    rewrite filter_cons. destruct (occupied c (getOpponentColor me) sq) eqn:Ho.
    + rewrite decide_True by reflexivity. cbn [List.length]. lia.
    + rewrite decide_False by discriminate. lia.
Qed.

Lemma nukeBlock_squares file rank :
  0 ≤ file ≤ 6 → 0 ≤ rank ≤ 6 →
  NoDup (nukeBlock file rank) ∧ ∀ sq, sq ∈ nukeBlock file rank → sq ∈ scanSquares.
Proof.
  intros Hf Hr. split.
  - unfold nukeBlock. repeat (apply NoDup_cons; split); try apply NoDup_nil_2;
      rewrite ?elem_of_cons, ?elem_of_nil; intros Hx;
      repeat (destruct Hx as [Hx|Hx]; [apply squareName_inj in Hx; lia|]); exact Hx.
  - intros sq Hin. unfold nukeBlock in Hin. apply scanSquares_named.
    rewrite !elem_of_cons, elem_of_nil in Hin.
    destruct Hin as [->|[->|[->|[->|[]]]]]; eexists _, _; (split; [|split; [|reflexivity]]); lia.
Qed.

Lemma nukeSquare_nukeAt gs c f r :
  nukeSquare gs c f r = nukeAt (currentPlayer gs) c (squareName f (r + 1)).
Proof. reflexivity. Qed.

(** X6.  When Nuke succeeds, its anchor names a file from a to g and a rank
    from 1 to 7, so the four squares of the block are on the board.  Every
    piece of the opponent in the block is gone; the pieces of the acting
    player in the block and everything outside it are as they were.  The
    acting player has as many pieces as before, and the opponent has lost
    exactly the pieces it had in the block, at most four. *)
Theorem nuke_effect (h : Hook) (centerSquare : Square) (rest : list string)
    (rnd : Random) (h' : Hook) (rnd' : Random) :
  executeAction h "nuke" (centerSquare :: rest) rnd = (true, h', rnd') →
  ∃ file rank,
    fileOf centerSquare = Some file ∧ rankOf centerSquare = Some rank
    ∧ 0 ≤ file ≤ 6 ∧ 0 ≤ rank ≤ 6
    ∧ (∀ sq, sq ∈ nukeBlock file rank → sq ∈ scanSquares)
    ∧ (∀ sq p, sq ∈ nukeBlock file rank →
         get (chess (gameState h)) sq = Some p →
         color p ≠ currentPlayer (gameState h) →
         get (chess (gameState h')) sq = None)
    ∧ (∀ sq p, get (chess (gameState h)) sq = Some p →
         color p = currentPlayer (gameState h) →
         get (chess (gameState h')) sq = Some p)
    ∧ (∀ sq, sq ∉ nukeBlock file rank →
         get (chess (gameState h')) sq = get (chess (gameState h)) sq)
    ∧ pieceCount (chess (gameState h')) (currentPlayer (gameState h))
      = pieceCount (chess (gameState h)) (currentPlayer (gameState h))
    ∧ (pieceCount (chess (gameState h')) (getOpponentColor (currentPlayer (gameState h)))
       + List.length
           (filter (λ sq, occupied (chess (gameState h))
                            (getOpponentColor (currentPlayer (gameState h))) sq = true)
                   (nukeBlock file rank))
       = pieceCount (chess (gameState h)) (getOpponentColor (currentPlayer (gameState h))))%nat
    ∧ (pieceCount (chess (gameState h)) (getOpponentColor (currentPlayer (gameState h)))
       ≤ pieceCount (chess (gameState h')) (getOpponentColor (currentPlayer (gameState h))) + 4)%nat.
Proof.
  intros He.
  pose proof (executeAction_validated _ _ _ _ _ _ nuke _ He eq_refl eq_refl eq_refl) as Hv.
  cbn [lookup list_lookup mbind option_bind] in Hv. injection Hv as Hv.
  apply andb_prop in Hv as [Hf Hr].
  destruct (fileOf centerSquare) as [file|] eqn:Ef; [|discriminate].
  destruct (rankOf centerSquare) as [rank|] eqn:Er; [|discriminate].
  cbn [numberIn] in Hf, Hr.
  apply andb_prop in Hf as [Hf1 Hf2]. apply andb_prop in Hr as [Hr1 Hr2].
  apply bool_decide_eq_true in Hf1, Hf2, Hr1, Hr2.
  assert (chess (gameState h') =
          foldl (nukeAt (currentPlayer (gameState h))) (chess (gameState h))
                (nukeBlock file rank)) as Hc.
  { valid_copy He nuke Hvalid.
    eapply (executeAction_chess _ _ _ _ _ _ nuke) in He; [|reflexivity|].
    2:{ run_execute Hvalid.
        cbn [lookup list_lookup mbind option_bind]. rewrite Ef, Er. reflexivity. }
    rewrite He. reflexivity. }
  destruct (nukeBlock_squares file rank ltac:(lia) ltac:(lia)) as [Hnd Hon].
  exists file, rank. rewrite Hc.
  split; [reflexivity|]. split; [reflexivity|]. split; [lia|]. split; [lia|].
  split; [exact Hon|]. split; [|split; [|split; [|split; [|split]]]].
  - intros sq p Hin Hg Hcol. rewrite nukeAt_fold_get.
    rewrite (bool_decide_eq_true_2 (sq ∈ _)) by exact Hin.
    rewrite (occupied_opponent _ _ _ _ Hg).
    rewrite (bool_decide_eq_true_2 (color p ≠ _)) by exact Hcol.
    reflexivity.
  - intros sq p Hg Hcol. rewrite nukeAt_fold_get.
    rewrite (occupied_opponent _ _ _ _ Hg).
    rewrite (bool_decide_eq_false_2 (color p ≠ _)) by (intros Hn; exact (Hn Hcol)).
    rewrite andb_false_r. exact Hg.
  - intros sq Hout. rewrite nukeAt_fold_get.
    rewrite (bool_decide_eq_false_2 (sq ∈ _)) by exact Hout. reflexivity.
  - apply nukeAt_fold_own.
  - by apply nukeAt_fold_opponent.
  - pose proof (nukeAt_fold_opponent (currentPlayer (gameState h)) _
                  (chess (gameState h)) Hnd Hon) as Hcount.
    pose proof (length_filter
                  (λ sq, occupied (chess (gameState h))
                           (getOpponentColor (currentPlayer (gameState h))) sq = true)
                  (nukeBlock file rank)) as Hle.
    change (List.length (nukeBlock file rank)) with 4%nat in Hle. lia.
Qed.

Lemma nuke_effect_witness :
  nukeD6 = (true, nukeD6.1.2, nukeD6.2)
  ∧ ∃ file rank,
      fileOf "d6" = Some file ∧ rankOf "d6" = Some rank
      ∧ pieceCount (chess (gameState nukeD6.1.2)) (currentPlayer (gameState creativeHook))
        = pieceCount (chess (gameState creativeHook)) (currentPlayer (gameState creativeHook)).
Proof.
  assert (nukeD6 = (true, nukeD6.1.2, nukeD6.2)) as He
    by (apply result_true; vm_compute; reflexivity).
  split; [exact He|].
  destruct (nuke_effect creativeHook "d6" [] (constantRandom 0) _ _ He)
    as (file & rank & Hf & Hr & _ & _ & _ & _ & _ & _ & Hown & _).
  exists file, rank. split; [exact Hf|]. split; [exact Hr|exact Hown].
Defined.

(** ** Swap Places and Clone Ray *)

Lemma isSquare_get c sq p : get c sq = Some p → isSquare sq = true.
Proof. intros Hg. apply isSquare_spec. by eapply get_Some_isSquare. Qed.

(** What a successful Swap Places found and left on each square. *)
Lemma swapPlaces_get h square1 square2 rest rnd h' rnd' :
  executeAction h "swapPlaces" (square1 :: square2 :: rest) rnd = (true, h', rnd') →
  ∃ piece1 piece2,
    get (chess (gameState h)) square1 = Some piece1
    ∧ get (chess (gameState h)) square2 = Some piece2
    ∧ color piece1 = currentPlayer (gameState h)
    ∧ color piece2 = currentPlayer (gameState h)
    ∧ type piece1 ≠ King ∧ type piece2 ≠ King
    ∧ ∀ sq, get (chess (gameState h')) sq =
            if bool_decide (sq = square1) then Some piece2
            else if bool_decide (sq = square2) then Some piece1
            else get (chess (gameState h)) sq.
Proof.
  intros He.
  pose proof (executeAction_validated _ _ _ _ _ _ swapPlaces _ He eq_refl eq_refl eq_refl)
    as Hv.
  cbn [lookup list_lookup getArg mbind option_bind] in Hv.
  destruct (get (chess (gameState h)) square1) as [p1|] eqn:Hg1; [|discriminate].
  destruct (get (chess (gameState h)) square2) as [p2|] eqn:Hg2; [|discriminate].
  injection Hv as Hv.
  apply andb_prop in Hv as [Hv Hk2]. apply andb_prop in Hv as [Hv Hk1].
  apply andb_prop in Hv as [Hc1 Hc2].
  apply bool_decide_eq_true in Hc1, Hc2, Hk1, Hk2.
  pose proof (isSquare_get _ _ _ Hg1) as Hs1. pose proof (isSquare_get _ _ _ Hg2) as Hs2.
  exists p1, p2. repeat (split; [done|]).
  valid_copy He swapPlaces Hvalid.
  eapply (executeAction_chess _ _ _ _ _ _ swapPlaces) in He; [|reflexivity|].
  2:{ run_execute Hvalid.
      cbn [lookup list_lookup getArg mbind option_bind]. rewrite Hg1, Hg2.
      reflexivity. }
  intros sq. rewrite He. cbn [chess withChess putArg removeArg].
  rewrite !get_put, Hs1, Hs2. cbn [andb]. rewrite !get_remove.
  repeat case_bool_decide; try reflexivity; congruence.
Qed.

Lemma swapPlaces_same_counts h square1 square2 rest rnd h' rnd' col :
  executeAction h "swapPlaces" (square1 :: square2 :: rest) rnd = (true, h', rnd') →
  pieceCount (chess (gameState h')) col = pieceCount (chess (gameState h)) col.
Proof.
  intros He.
  destruct (swapPlaces_get _ _ _ _ _ _ _ He)
    as (p1 & p2 & Hg1 & Hg2 & Hc1 & Hc2 & _ & _ & Hget).
  apply piecesOn_length_agree. intros sq _. unfold occupied.
  rewrite Hget.
  destruct (decide (sq = square1)) as [->|H1].
  - rewrite (bool_decide_eq_true_2 (square1 = square1)) by reflexivity.
    rewrite Hg1. cbn [fmap option_fmap option_map]. by rewrite Hc1, Hc2.
  - rewrite (bool_decide_eq_false_2 (sq = square1)) by exact H1.
    destruct (decide (sq = square2)) as [->|H2].
    + rewrite (bool_decide_eq_true_2 (square2 = square2)) by reflexivity.
      rewrite Hg2. cbn [fmap option_fmap option_map]. by rewrite Hc1, Hc2.
    + rewrite (bool_decide_eq_false_2 (sq = square2)) by exact H2. reflexivity.
Qed.

(** X7.  When Swap Places succeeds, both squares held pieces of the acting
    player and neither was a king; afterwards each of the two squares holds
    what the other held, every other square is as it was, and both colours
    have as many pieces as before. *)
Theorem swapPlaces_effect (h : Hook) (square1 square2 : Square) (rest : list string)
    (rnd : Random) (h' : Hook) (rnd' : Random) :
  executeAction h "swapPlaces" (square1 :: square2 :: rest) rnd = (true, h', rnd') →
  (∃ piece1 piece2,
      get (chess (gameState h)) square1 = Some piece1
      ∧ get (chess (gameState h)) square2 = Some piece2
      ∧ color piece1 = currentPlayer (gameState h)
      ∧ color piece2 = currentPlayer (gameState h)
      ∧ type piece1 ≠ King ∧ type piece2 ≠ King)
  ∧ get (chess (gameState h')) square1 = get (chess (gameState h)) square2
  ∧ get (chess (gameState h')) square2 = get (chess (gameState h)) square1
  ∧ (∀ sq, sq ≠ square1 → sq ≠ square2 →
       get (chess (gameState h')) sq = get (chess (gameState h)) sq)
  ∧ (∀ col, pieceCount (chess (gameState h')) col = pieceCount (chess (gameState h)) col).
Proof.
  intros He.
  destruct (swapPlaces_get _ _ _ _ _ _ _ He)
    as (p1 & p2 & Hg1 & Hg2 & Hc1 & Hc2 & Hk1 & Hk2 & Hget).
  split; [exists p1, p2; tauto|].
  split; [rewrite Hget, Hg2, bool_decide_eq_true_2 by reflexivity; reflexivity|].
  split.
  { rewrite Hget, Hg1. case_bool_decide as E; [congruence|].
    rewrite bool_decide_eq_true_2 by reflexivity. reflexivity. }
  split.
  { intros sq H1 H2. rewrite Hget.
    rewrite (bool_decide_eq_false_2 (sq = square1)) by exact H1.
    rewrite (bool_decide_eq_false_2 (sq = square2)) by exact H2. reflexivity. }
  intros col. by eapply swapPlaces_same_counts.
Qed.

Lemma swapPlaces_effect_witness :
  swapA1B1 = (true, swapA1B1.1.2, swapA1B1.2)
  ∧ get (chess (gameState swapA1B1.1.2)) "a1" = get (chess (gameState creativeHook)) "b1"
  ∧ get (chess (gameState swapA1B1.1.2)) "b1" = get (chess (gameState creativeHook)) "a1".
Proof.
  assert (swapA1B1 = (true, swapA1B1.1.2, swapA1B1.2)) as He
    by (apply result_true; vm_compute; reflexivity).
  split; [exact He|].
  destruct (swapPlaces_effect creativeHook "a1" "b1" [] (constantRandom 0) _ _ He)
    as (_ & H1 & H2 & _).
  split; [exact H1|exact H2].
Defined.

(** X8.  When Clone Ray succeeds, the source held a piece of the acting
    player that is not a king and [get] found nothing at the destination.
    If the destination is a square of the board it now holds a copy of the
    source piece, every other square is as it was, and the acting player has
    one piece more; if it is not a square of the board the position is
    unchanged, although the action is spent. *)
Theorem cloneRay_effect (h : Hook) (sourceSquare targetSquare : Square)
    (rest : list string) (rnd : Random) (h' : Hook) (rnd' : Random) :
  executeAction h "cloneRay" (sourceSquare :: targetSquare :: rest) rnd
  = (true, h', rnd') →
  ∃ p,
    get (chess (gameState h)) sourceSquare = Some p
    ∧ color p = currentPlayer (gameState h) ∧ type p ≠ King
    ∧ get (chess (gameState h)) targetSquare = None
    ∧ (targetSquare ∈ scanSquares →
       get (chess (gameState h')) targetSquare = Some p
       ∧ (∀ sq, sq ≠ targetSquare →
            get (chess (gameState h')) sq = get (chess (gameState h)) sq)
       ∧ (pieceCount (chess (gameState h')) (currentPlayer (gameState h))
          = pieceCount (chess (gameState h)) (currentPlayer (gameState h)) + 1)%nat
       ∧ pieceCount (chess (gameState h')) (getOpponentColor (currentPlayer (gameState h)))
         = pieceCount (chess (gameState h)) (getOpponentColor (currentPlayer (gameState h))))
    ∧ (targetSquare ∉ scanSquares → chess (gameState h') = chess (gameState h))
    ∧ actionRegistry h' !! "cloneRay"%string = Some true.
Proof.
  intros He.
  pose proof (executeAction_validated _ _ _ _ _ _ cloneRay _ He eq_refl eq_refl eq_refl)
    as Hv.
  pose proof (executeAction_registry _ _ _ _ _ _ He) as Hr.
  cbn [lookup list_lookup getArg mbind option_bind] in Hv.
  destruct (get (chess (gameState h)) sourceSquare) as [p|] eqn:Hg; [|discriminate].
  injection Hv as Hv.
  apply andb_prop in Hv as [Hv Hempty]. apply andb_prop in Hv as [Hcol Hk].
  apply bool_decide_eq_true in Hcol, Hk, Hempty.
  assert (chess (gameState h') = put (chess (gameState h)) p targetSquare) as Hc.
  { valid_copy He cloneRay Hvalid.
    eapply (executeAction_chess _ _ _ _ _ _ cloneRay) in He; [|reflexivity|].
    2:{ run_execute Hvalid.
        cbn [lookup list_lookup getArg mbind option_bind]. rewrite Hg. reflexivity. }
    rewrite He. reflexivity. }
  exists p. split; [reflexivity|]. split; [exact Hcol|]. split; [exact Hk|].
  split; [exact Hempty|]. split; [|split].
  - intros Hon. pose proof (proj2 (isSquare_spec _) Hon) as Hs.
    assert (∀ sq, get (chess (gameState h')) sq =
                  if bool_decide (sq = targetSquare) then Some p
                  else get (chess (gameState h)) sq) as Hget
      by (intros sq; by rewrite Hc, get_put, Hs).
    split; [rewrite Hget, bool_decide_eq_true_2 by reflexivity; reflexivity|].
    split; [intros sq Hne; rewrite Hget;
            rewrite (bool_decide_eq_false_2 (sq = targetSquare)) by exact Hne;
            reflexivity|].
    assert (∀ col,
              (pieceCount (chess (gameState h')) col
               = pieceCount (chess (gameState h)) col
                 + (if bool_decide (color p = col) then 1 else 0))%nat) as Hcount.
    { intros col.
      pose proof (piecesOn_length_differ (chess (gameState h)) (chess (gameState h')) col
                    scanSquares targetSquare scanSquares_NoDup Hon) as Hd.
      rewrite (occupied_None _ _ _ Hempty) in Hd.
      rewrite (occupied_Some (chess (gameState h')) col targetSquare p) in Hd
        by (rewrite Hget, bool_decide_eq_true_2 by reflexivity; reflexivity).
      unfold pieceCount, getPiecesOfColor. rewrite Nat.add_0_r in Hd. apply Hd.
      intros sq _ Hne. unfold occupied. rewrite Hget.
      rewrite (bool_decide_eq_false_2 (sq = targetSquare)) by exact Hne.
      reflexivity. }
    split.
    + rewrite Hcount, bool_decide_eq_true_2 by exact Hcol. reflexivity.
    + rewrite Hcount, bool_decide_eq_false_2; [lia|].
      rewrite Hcol. intros E. symmetry in E. by apply getOpponentColor_ne in E.
  - intros Hoff. rewrite Hc. unfold put.
    destruct (isSquare targetSquare) eqn:Hs; [|reflexivity].
    apply isSquare_spec in Hs. contradiction.
  - rewrite Hr. apply lookup_insert_eq.
Qed.

Lemma cloneRay_effect_witness :
  cloneB1A3 = (true, cloneB1A3.1.2, cloneB1A3.2)
  ∧ "a3" ∈ scanSquares
  ∧ ∃ p, get (chess (gameState creativeHook)) "b1" = Some p
         ∧ get (chess (gameState cloneB1A3.1.2)) "a3" = Some p.
Proof.
  assert (cloneB1A3 = (true, cloneB1A3.1.2, cloneB1A3.2)) as He
    by (apply result_true; vm_compute; reflexivity).
  assert ("a3" ∈ scanSquares) as Hon by (apply isSquare_spec; vm_compute; reflexivity).
  split; [exact He|]. split; [exact Hon|].
  destruct (cloneRay_effect creativeHook "b1" "a3" [] (constantRandom 0) _ _ He)
    as (p & Hsrc & _ & _ & _ & Hboard & _).
  exists p. split; [exact Hsrc|]. exact (proj1 (Hboard Hon)).
Defined.

(** ** Robot Proxy and Rocket Barrage, counted *)

Lemma find_getPiecesOfColor_removal c col t x :
  find (hasType t) (getPiecesOfColor c col) = Some x →
  get c (square x) = Some (piece x) ∧ color (piece x) = col.
Proof.
  intros Hf. apply find_some in Hf as [Hin _].
  by apply list_elem_of_In, elem_of_getPiecesOfColor in Hin.
Qed.

(** The position Robot Proxy leaves: the old one, or the old one less one
    piece of the colour opposite to the pilot's. *)
Lemma robotProxy_target c col (t : PieceType) :
  let found := find (hasType t) (getPiecesOfColor c col) in
  let c' := match found with
            | Some targetPiece => remove c (square targetPiece)
            | None => removeFallback c (getPiecesOfColor c col) [Pawn; Queen; King]
            end in
  (∃ sq p, get c sq = Some p ∧ color p = col ∧ c' = remove c sq
           ∧ (hasPiece c col t ∨ hasPiece c col Pawn ∨ hasPiece c col Queen
              ∨ hasPiece c col King))
  ∨ (c' = c ∧ ¬ hasPiece c col t ∧ ¬ hasPiece c col Pawn ∧ ¬ hasPiece c col Queen
     ∧ ¬ hasPiece c col King).
Proof.
  cbn zeta. cbn [removeFallback].
  destruct (find_getPiecesOfColor_cases c col t) as [(x & Hx & Hfirst)|[Hx Hno]];
    rewrite Hx.
  { left. destruct (find_getPiecesOfColor_removal _ _ _ _ Hx) as [Hg Hc].
    exists (square x), (piece x). pose proof (firstInScan_hasPiece _ _ _ _ Hfirst). tauto. }
  destruct (find_getPiecesOfColor_cases c col Pawn) as [(x & HxP & Hfirst)|[HxP HnoP]];
    rewrite HxP.
  { left. destruct (find_getPiecesOfColor_removal _ _ _ _ HxP) as [Hg Hc].
    exists (square x), (piece x). pose proof (firstInScan_hasPiece _ _ _ _ Hfirst). tauto. }
  destruct (find_getPiecesOfColor_cases c col Queen) as [(x & HxQ & Hfirst)|[HxQ HnoQ]];
    rewrite HxQ.
  { left. destruct (find_getPiecesOfColor_removal _ _ _ _ HxQ) as [Hg Hc].
    exists (square x), (piece x). pose proof (firstInScan_hasPiece _ _ _ _ Hfirst). tauto. }
  destruct (find_getPiecesOfColor_cases c col King) as [(x & HxK & Hfirst)|[HxK HnoK]];
    rewrite HxK.
  { left. destruct (find_getPiecesOfColor_removal _ _ _ _ HxK) as [Hg Hc].
    exists (square x), (piece x). pose proof (firstInScan_hasPiece _ _ _ _ Hfirst). tauto. }
  right. tauto.
Qed.

(** X9.  Robot Proxy succeeds only on a position with one king of either
    colour and no pawn on an edge rank.  When it succeeds the pilot is a
    piece of the acting player, every piece of the acting player stays, and
    the opponent loses exactly one piece: the robot always finds a target,
    the opponent's king if nothing else. *)
Theorem robotProxy_counts (h : Hook) (sq : Square) (rest : list string) (rnd : Random)
    (h' : Hook) (rnd' : Random) :
  executeAction h "robotProxy" (sq :: rest) rnd = (true, h', rnd') →
  ∃ pilotPiece,
    get (chess (gameState h)) sq = Some pilotPiece
    ∧ color pilotPiece = currentPlayer (gameState h)
    ∧ validFen (chess (gameState h)) = true
    ∧ (∀ sq' p, get (chess (gameState h)) sq' = Some p →
         color p = currentPlayer (gameState h) →
         get (chess (gameState h')) sq' = Some p)
    ∧ pieceCount (chess (gameState h')) (currentPlayer (gameState h))
      = pieceCount (chess (gameState h)) (currentPlayer (gameState h))
    ∧ (∃ sq0 p0,
         get (chess (gameState h)) sq0 = Some p0
         ∧ color p0 = getOpponentColor (currentPlayer (gameState h))
         ∧ chess (gameState h') = remove (chess (gameState h)) sq0)
    ∧ (pieceCount (chess (gameState h')) (getOpponentColor (currentPlayer (gameState h))) + 1
       = pieceCount (chess (gameState h)) (getOpponentColor (currentPlayer (gameState h))))%nat.
Proof.
  intros He.
  pose proof (executeAction_validated _ _ _ _ _ _ robotProxy _ He eq_refl eq_refl eq_refl)
    as Hv.
  cbn [lookup list_lookup getArg mbind option_bind] in Hv.
  destruct (get (chess (gameState h)) sq) as [pilot|] eqn:Hp; [|discriminate].
  injection Hv as Hv. cbn [ownPiece] in Hv. apply bool_decide_eq_true in Hv.
  valid_copy He robotProxy Hvalid.
  eapply (executeAction_chess _ _ _ _ _ _ robotProxy) in He; [|reflexivity|].
  2:{ run_execute Hvalid.
      cbn [lookup list_lookup getArg mbind option_bind]. rewrite Hp, Hv. reflexivity. }
  cbn [chess withChess] in He.
  exists pilot. split; [reflexivity|]. split; [exact Hv|]. split; [exact Hvalid|].
  rewrite He.
  destruct (robotProxy_target (chess (gameState h))
              (getOpponentColor (currentPlayer (gameState h))) (type pilot))
    as [(sq0 & p0 & Hg0 & Hc0 & -> & Hhas)|(_ & _ & _ & _ & HnoK)].
  - destruct (removal_counts _ _ _ Hg0) as (_ & Hother & Hless & Hsame).
    rewrite Hc0 in Hless.
    split; [|split; [|split; [by exists sq0, p0|exact Hless]]].
    + intros sq' p Hg Hc. rewrite Hother; [exact Hg|].
      intros ->. rewrite Hg0 in Hg. injection Hg as ->.
      rewrite Hc in Hc0. symmetry in Hc0. by apply getOpponentColor_ne in Hc0.
    + apply Hsame. rewrite Hc0. symmetry. apply getOpponentColor_ne.
  - destruct HnoK. by apply validFen_king.
Qed.

Lemma robotProxy_counts_witness :
  proxyB1 = (true, proxyB1.1.2, proxyB1.2)
  ∧ pieceCount (chess (gameState proxyB1.1.2)) (currentPlayer (gameState creativeHook))
    = pieceCount (chess (gameState creativeHook)) (currentPlayer (gameState creativeHook))
  ∧ (pieceCount (chess (gameState proxyB1.1.2))
       (getOpponentColor (currentPlayer (gameState creativeHook))) + 1
     = pieceCount (chess (gameState creativeHook))
         (getOpponentColor (currentPlayer (gameState creativeHook))))%nat.
Proof.
  assert (proxyB1 = (true, proxyB1.1.2, proxyB1.2)) as He
    by (apply result_true; vm_compute; reflexivity).
  split; [exact He|].
  destruct (robotProxy_counts creativeHook "b1" [] (constantRandom 0) _ _ He)
    as (pilot & _ & _ & _ & _ & Hown & _ & Hopp).
  split; [exact Hown|exact Hopp].
Defined.

Lemma pieceCount_remove_le c sq col :
  (pieceCount c col ≤ pieceCount (remove c sq) col + 1)%nat.
Proof.
  destruct (get c sq) as [p|] eqn:Hg.
  - pose proof (pieceCount_remove c sq p col Hg). destruct (bool_decide _); lia.
  - assert (pieceCount (remove c sq) col = pieceCount c col) as ->; [|lia].
    apply piecesOn_length_agree. intros sq' _. unfold occupied.
    by rewrite remove_empty.
Qed.

Lemma barrage_shrinks c targetSquares rnd : shrinks c (barrage c targetSquares rnd).1.
Proof.
  revert c rnd. induction targetSquares as [|sq l IH]; intros c rnd;
    [apply shrinks_refl|].
  rewrite barrage_cons. eapply shrinks_trans; [|apply IH].
  case_bool_decide; [apply shrinks_remove|apply shrinks_refl].
Qed.

Lemma barrage_count_bound c targetSquares rnd col :
  (pieceCount c col
   ≤ pieceCount (barrage c targetSquares rnd).1 col + List.length targetSquares)%nat.
Proof.
  revert c rnd. induction targetSquares as [|sq l IH]; intros c rnd.
  - cbn [barrage fst List.length]. lia.
  - rewrite barrage_cons. cbn [List.length].
    specialize (IH (if bool_decide (4 ≤ rollAt rnd 0) then remove c sq else c)
                  (rollD6 rnd).2).
    pose proof (pieceCount_remove_le c sq col).
    destruct (bool_decide (4 ≤ rollAt rnd 0)); lia.
Qed.

(** X10.  Rocket Barrage succeeds only with at most three targets, each
    holding a piece of the opponent; with four or more targets the call
    fails and nothing changes, whatever the board.  After a success every
    piece of the acting player is where it was, nothing has appeared, and
    the opponent has lost at most as many pieces as there were targets. *)
Theorem rocketBarrage_counts (h : Hook) (targetSquares : list Square) (rnd : Random) :
  ((3 < List.length targetSquares)%nat →
   (executeAction h "rocketBarrage" targetSquares rnd).1 = (false, h))
  ∧ ∀ h' rnd',
      executeAction h "rocketBarrage" targetSquares rnd = (true, h', rnd') →
      (List.length targetSquares ≤ 3)%nat
      ∧ Forall (λ sq, ∃ p, get (chess (gameState h)) sq = Some p
                           ∧ color p = getOpponentColor (currentPlayer (gameState h)))
               targetSquares
      ∧ shrinks (chess (gameState h)) (chess (gameState h'))
      ∧ pieceCount (chess (gameState h')) (currentPlayer (gameState h))
        = pieceCount (chess (gameState h)) (currentPlayer (gameState h))
      ∧ (pieceCount (chess (gameState h)) (getOpponentColor (currentPlayer (gameState h)))
         ≤ pieceCount (chess (gameState h')) (getOpponentColor (currentPlayer (gameState h)))
           + List.length targetSquares)%nat.
Proof.
  split.
  - intros Hlen. unfold executeAction.
    destruct (_ || _); [reflexivity|].
    change (getActionById "rocketBarrage") with (Some rocketBarrage).
    cbn [validateTarget needsTarget rocketBarrage].
    rewrite bool_decide_eq_false_2 by lia. reflexivity.
  - intros h' rnd' He.
    pose proof (executeAction_validated _ _ _ _ _ _ rocketBarrage _ He
                  eq_refl eq_refl eq_refl) as Hv.
    injection Hv as Hv. apply andb_prop in Hv as [Hlen Hall].
    apply bool_decide_eq_true in Hlen.
    assert (Forall (λ sq, ∃ p, get (chess (gameState h)) sq = Some p
                      ∧ color p = getOpponentColor (currentPlayer (gameState h)))
              targetSquares) as Htargets.
    { apply Forall_forall. intros sq Hin.
      rewrite forallb_forall in Hall. apply list_elem_of_In in Hin.
      specialize (Hall sq Hin).
      destruct (get (chess (gameState h)) sq) as [p|]; [|discriminate].
      apply bool_decide_eq_true, not_mine_opponent in Hall. eauto. }
    assert (chess (gameState h') = (barrage (chess (gameState h)) targetSquares rnd).1)
      as Hc.
    { destruct (barrage (chess (gameState h)) targetSquares rnd) as [c r] eqn:Hb.
      valid_copy He rocketBarrage Hvalid.
      eapply (executeAction_chess _ _ _ _ _ _ rocketBarrage) in He; [|reflexivity|].
      2:{ run_execute Hvalid. rewrite Hb. reflexivity. }
      exact He. }
    rewrite Hc.
    split; [exact Hlen|]. split; [exact Htargets|].
    split; [apply barrage_shrinks|]. split; [|apply barrage_count_bound].
    apply piecesOn_length_agree. intros sq _.
    destruct (barrage_shrinks (chess (gameState h)) targetSquares rnd sq) as [Hn|Hs];
      [|unfold occupied; by rewrite Hs].
    rewrite (occupied_None _ _ _ Hn). symmetry.
    destruct (get (chess (gameState h)) sq) as [p|] eqn:Hg;
      [|by apply occupied_None].
    (* a square that was emptied was a target, and targets hold opponent pieces *)
    destruct (barrage_get (chess (gameState h)) targetSquares rnd sq) as [_ Hmiss].
    apply occupied_two_colours. rewrite (occupied_Some _ _ _ _ Hg).
    apply bool_decide_eq_true.
    assert (sq ∈ targetSquares) as Hin.
    { destruct (decide (sq ∈ targetSquares)) as [Hin|Hout]; [exact Hin|].
      rewrite Hmiss in Hn; [congruence|].
      intros (i & Hi & _). apply Hout. by eapply list_elem_of_lookup_2. }
    rewrite Forall_forall in Htargets.
    destruct (Htargets sq Hin) as (p' & Hg' & Hc'). congruence.
Qed.

Lemma rocketBarrage_counts_witness :
  barrageABC = (true, barrageABC.1.2, barrageABC.2)
  ∧ (3 < List.length ["a7"; "b7"; "c7"; "d7"]%string)%nat
  ∧ (executeAction creativeHook "rocketBarrage" ["a7"; "b7"; "c7"; "d7"]%string
       oddRandom).1 = (false, creativeHook)
  ∧ pieceCount (chess (gameState barrageABC.1.2)) (currentPlayer (gameState creativeHook))
    = pieceCount (chess (gameState creativeHook)) (currentPlayer (gameState creativeHook)).
Proof.
  assert (barrageABC = (true, barrageABC.1.2, barrageABC.2)) as He
    by (apply result_true; vm_compute; reflexivity).
  assert (3 < List.length ["a7"; "b7"; "c7"; "d7"]%string)%nat as Hlen by (cbn; lia).
  split; [exact He|]. split; [exact Hlen|]. split.
  - exact (proj1 (rocketBarrage_counts creativeHook ["a7"; "b7"; "c7"; "d7"]%string
                    oddRandom) Hlen).
  - destruct (proj2 (rocketBarrage_counts creativeHook ["a7"; "b7"; "c7"]%string
                       oddRandom) _ _ He) as (_ & _ & _ & Hown & _).
    exact Hown.
Defined.

(** ** Actions without effect *)

Lemma stubActions_execute actionId :
  actionId ∈ stubActions →
  ∃ action, getActionById actionId = Some action
            ∧ ∀ gs args rnd, execute action gs args rnd = (Some gs, rnd).
Proof.
  unfold stubActions. rewrite !elem_of_cons, elem_of_nil.
  intros [->|[->|[->|[->|[->|[->|[->|[]]]]]]]]; eexists; split; reflexivity.
Qed.

(** X11.  Rubber-Band Shot, Shield, EMP Blast, Loot Drop, Time Freeze, Spy
    Drone and Puzzle Trap record nothing: when one of them succeeds the
    position, the phase, the counter, the selection and the last move are as
    before, the random source is untouched, the turn passes, the win
    evaluation is that of the unchanged position, and the only registry
    entry that changes is the action's own flag. *)
Theorem stub_action_effect (h : Hook) (actionId : string) (args : list string)
    (rnd : Random) (h' : Hook) (rnd' : Random) :
  actionId ∈ stubActions →
  executeAction h actionId args rnd = (true, h', rnd') →
  rnd' = rnd
  ∧ actionRegistry h' = <[actionId := true]> (actionRegistry h)
  ∧ gameState h' =
      {| chess := chess (gameState h);
         currentPlayer := getOpponentColor (currentPlayer (gameState h));
         phase := phase (gameState h);
         halfMoves := halfMoves (gameState h);
         selectedSquare := selectedSquare (gameState h);
         validMoves := validMoves (gameState h);
         gameOver := (checkWinCondition (chess (gameState h))).1;
         winner := (checkWinCondition (chess (gameState h))).2;
         lastMove := lastMove (gameState h) |}.
Proof.
  intros Hstub He.
  destruct (stubActions_execute actionId Hstub) as (action & Ha & Hid).
  pose proof (executeAction_identity _ _ _ _ _ _ _ Ha Hid He) as [Hc ->].
  apply executeAction_true in He as (action' & c & _ & _ & _ & _ & Hr & Hs).
  rewrite Hs in Hc. cbn [chess] in Hc. subst c.
  split; [reflexivity|]. split; [exact Hr|exact Hs].
Qed.

Lemma stub_action_effect_witness :
  "empBlast" ∈ stubActions
  ∧ afterEmpBlast = (true, afterEmpBlast.1.2, afterEmpBlast.2)
  ∧ afterEmpBlast.2 = constantRandom 0.
Proof.
  assert ("empBlast" ∈ stubActions) as Hin
    by (apply (bool_decide_unpack _); vm_compute; exact I).
  assert (afterEmpBlast = (true, afterEmpBlast.1.2, afterEmpBlast.2)) as He
    by (apply result_true; vm_compute; reflexivity).
  split; [exact Hin|]. split; [exact He|].
  exact (proj1 (stub_action_effect creativeHook "empBlast" [] (constantRandom 0)
                  _ _ Hin He)).
Defined.

(** ** The registry *)

Lemma isUsed_insert registry actionId actionId' :
  isUsed (<[actionId := true]> registry) actionId'
  = bool_decide (actionId' = actionId) || isUsed registry actionId'.
Proof.
  unfold isUsed. case_bool_decide as E.
  - subst. by rewrite lookup_insert_eq.
  - by rewrite lookup_insert_ne.
Qed.

Lemma executeAction_used h actionId args rnd :
  isUsed (actionRegistry h) actionId = true →
  executeAction h actionId args rnd = (false, h, rnd).
Proof. intros Hu. unfold executeAction. by rewrite Hu. Qed.

Section Registry.
Context {engine : Engine}.

Lemma makeMove_registry h from to :
  actionRegistry (makeMove h from to).2 = actionRegistry h.
Proof.
  unfold makeMove. destruct (move _ from to) as [c|]; [|reflexivity].
  by destruct (checkWinCondition c).
Qed.

Lemma selectSquare_registry h sq :
  actionRegistry (selectSquare h sq) = actionRegistry h.
Proof.
  destruct (selectSquare_cases h sq) as [(sel & valid & ->)|(sel & ->)];
    [reflexivity|apply makeMove_registry].
Qed.

Lemma step_keeps_used st i actionId :
  isTurn i = true →
  isUsed (actionRegistry st.1) actionId = true →
  isUsed (actionRegistry (step st i).1) actionId = true.
Proof.
  destruct st as [h rnd]. destruct i as [from to|sq|actionId' args|];
    cbn [step fst]; intros Ht Hu.
  - by rewrite makeMove_registry.
  - by rewrite selectSquare_registry.
  - destruct (executeAction h actionId' args rnd) as [[[] h'] rnd'] eqn:He; cbn [fst].
    + rewrite (executeAction_registry _ _ _ _ _ _ He), isUsed_insert.
      cbn [actionRegistry fst] in Hu. rewrite Hu. apply orb_true_r.
    + apply executeAction_false in He as ->. exact Hu.
  - discriminate.
Qed.

Lemma run_keeps_used st inputs actionId :
  forallb isTurn inputs = true →
  isUsed (actionRegistry st.1) actionId = true →
  isUsed (actionRegistry (run st inputs).1) actionId = true.
Proof.
  revert st. induction inputs as [|i inputs IH]; intros st Ht Hu; [exact Hu|].
  cbn [forallb] in Ht. apply andb_prop in Ht as [Hi Ht].
  cbn [run foldl]. apply IH; [exact Ht|]. by apply step_keeps_used.
Qed.

(** X12.  An action that has succeeded is spent for both players: over any
    later moves, selections and actions its flag stays set, and every later
    call of it fails and changes nothing, whoever is to act and whatever the
    arguments, until the game is reset. *)
Theorem action_spent (h : Hook) (actionId : string) (args : list string) (rnd : Random)
    (h' : Hook) (rnd' : Random) :
  executeAction h actionId args rnd = (true, h', rnd') →
  ∀ inputs rnd1, forallb isTurn inputs = true →
    isUsed (actionRegistry (run (h', rnd1) inputs).1) actionId = true
    ∧ ∀ args2 rnd2,
        executeAction (run (h', rnd1) inputs).1 actionId args2 rnd2
        = (false, (run (h', rnd1) inputs).1, rnd2).
Proof.
  intros He inputs rnd1 Ht.
  assert (isUsed (actionRegistry (run (h', rnd1) inputs).1) actionId = true) as Hu.
  { apply run_keeps_used; [exact Ht|]. cbn [fst].
    rewrite (executeAction_registry _ _ _ _ _ _ He), isUsed_insert.
    by rewrite bool_decide_eq_true_2. }
  split; [exact Hu|]. intros args2 rnd2. by apply executeAction_used.
Qed.
End Registry.

Lemma action_spent_witness :
  snipA7 = (true, snipA7.1.2, snipA7.2)
  ∧ forallb isTurn laterInputs = true
  ∧ isUsed (actionRegistry
              (run (engine := looseEngine) (snipA7.1.2, snipA7.2) laterInputs).1)
           "snip" = true.
Proof.
  assert (snipA7 = (true, snipA7.1.2, snipA7.2)) as He
    by (apply result_true; vm_compute; reflexivity).
  split; [exact He|]. split; [reflexivity|].
  exact (proj1 (action_spent (engine := looseEngine) creativeHook "snip"
                  ["a7"%string] (constantRandom 0) _ _ He laterInputs snipA7.2
                  eq_refl)).
Defined.

Lemma creativeActions_ids_NoDup : NoDup (id <$> creativeActions).
Proof. apply (bool_decide_unpack _). vm_compute. exact I. Qed.

Lemma filter_other_ids (l : list ActionEffect) (action : ActionEffect) :
  NoDup (id <$> l) → action ∈ l →
  (List.length (filter (λ a, id a ≠ id action) l) + 1 = List.length l)%nat.
Proof.
  induction l as [|a l IH]; intros Hnd Hin; [by apply elem_of_nil in Hin|].
  rewrite fmap_cons in Hnd. apply NoDup_cons in Hnd as [Ha Hnd].
  rewrite filter_cons. apply elem_of_cons in Hin as [->|Hin].
  - rewrite decide_False by (intros Hn; by apply Hn).
    rewrite filter_all; [cbn [List.length]; lia|].
    apply Forall_forall. intros b Hb Heq. apply Ha. rewrite <- Heq.
    by apply list_elem_of_fmap_2.
  - rewrite decide_True.
    + cbn [List.length]. specialize (IH Hnd Hin). lia.
    + intros Heq. apply Ha. rewrite Heq. by apply list_elem_of_fmap_2.
Qed.

Lemma availableActions_ids_NoDup h : NoDup (id <$> availableActions h).
Proof.
  unfold availableActions.
  eapply sublist_NoDup; [exact creativeActions_ids_NoDup|].
  apply fmap_sublist. apply sublist_filter.
Qed.

(** X13.  A successful action leaves the list of available actions without
    that action and otherwise as it was, in the same order: exactly one
    action fewer is available. *)
Theorem availableActions_after (h : Hook) (actionId : string) (args : list string)
    (rnd : Random) (h' : Hook) (rnd' : Random) :
  executeAction h actionId args rnd = (true, h', rnd') →
  availableActions h' = filter (λ action, id action ≠ actionId) (availableActions h)
  ∧ (∃ action, action ∈ availableActions h ∧ id action = actionId)
  ∧ (List.length (availableActions h') + 1 = List.length (availableActions h))%nat.
Proof.
  intros He.
  pose proof (executeAction_registry _ _ _ _ _ _ He) as Hr.
  apply executeAction_true in He as (action & c & Ha & Hu & _).
  apply getActionById_Some in Ha as [Hin Hid].
  assert (action ∈ availableActions h) as Hav.
  { unfold availableActions. apply list_elem_of_filter. by rewrite Hid. }
  assert (availableActions h'
          = filter (λ a, id a ≠ actionId) (availableActions h)) as Heq.
  { unfold availableActions. rewrite list_filter_filter, Hr.
    apply list_filter_iff. intros a. rewrite isUsed_insert.
    case_bool_decide as E; cbn [orb]; [split; [discriminate|tauto]|tauto]. }
  split; [exact Heq|]. split; [by exists action|].
  rewrite Heq, <- Hid.
  apply filter_other_ids; [apply availableActions_ids_NoDup|exact Hav].
Qed.

Lemma availableActions_after_witness :
  snipA7 = (true, snipA7.1.2, snipA7.2)
  ∧ (List.length (availableActions snipA7.1.2) + 1
     = List.length (availableActions creativeHook))%nat.
Proof.
  assert (snipA7 = (true, snipA7.1.2, snipA7.2)) as He
    by (apply result_true; vm_compute; reflexivity).
  split; [exact He|].
  exact (proj2 (proj2 (availableActions_after creativeHook "snip" ["a7"%string]
                         (constantRandom 0) _ _ He))).
Defined.

(** ** The current player and the side to move *)

Lemma turn_removeArg c a : turn (removeArg c a) = turn c.
Proof. destruct a; [apply turn_remove|reflexivity]. Qed.

Lemma turn_putArg c p a : turn (putArg c p a) = turn c.
Proof. destruct a; [apply turn_put|reflexivity]. Qed.

Lemma turn_nukeSquare gs c f r : turn (nukeSquare gs c f r) = turn c.
Proof.
  unfold nukeSquare. destruct (get c _) as [p|]; [|reflexivity].
  destruct (bool_decide _); [apply turn_remove|reflexivity].
Qed.

Lemma turn_removeFallback c pieces order : turn (removeFallback c pieces order) = turn c.
Proof.
  induction order as [|t order IH]; [reflexivity|]. cbn [removeFallback].
  destruct (find _ pieces); [apply turn_remove|exact IH].
Qed.

Ltac copy_step H :=
  match type of H with
  | context [copyChess ?c] =>
      let E := fresh "Hcopy" in
      destruct (copyChess c) as [?|] eqn:E;
      [apply copyChess_Some in E as [_ ->]; cbn [mbind option_bind] in H
      |cbn [mbind option_bind] in H; discriminate H]
  end.

Ltac turn_step :=
  match goal with
  | H : Some _ = Some _ |- _ => injection H as <-
  | H : None = Some _ |- _ => discriminate H
  | H : context [copyChess _] |- _ => copy_step H
  | H : context [mbind _ ?o] |- _ => destruct o; cbn [mbind option_bind] in H
  | H : context [match ?o with Some _ => _ | None => _ end] |- _ =>
      destruct o; cbn beta iota in H
  end.

Lemma creativeActions_keepsTurn : Forall keepsTurn creativeActions.
Proof.
  unfold creativeActions.
  repeat apply Forall_cons_2; try apply Forall_nil_2;
    intros gs args rnd gs' rnd' He; unfold_execute He.
  1-14: apply pair_equal_spec in He as [He _]; repeat turn_step;
    cbn [chess withChess foldl];
    repeat (match goal with
            | |- context [match ?o with Some _ => _ | None => _ end] => destruct o
            end);
    rewrite ?turn_putArg, ?turn_removeArg, ?turn_remove, ?turn_nukeSquare,
      ?turn_removeFallback; reflexivity.
  copy_step He.
  destruct (barrage (chess gs) args rnd) as [c r] eqn:Hb. injection He as <- _.
  cbn [chess withChess]. change c with (c, r).1. rewrite <- Hb. apply barrage_turn.
Qed.

(** X14.  No action changes the side to move of the position, while every
    successful action changes the current player: if the two agreed before
    a successful action, they differ after it. *)
Theorem action_keeps_side_to_move (h : Hook) (actionId : string) (args : list string)
    (rnd : Random) (h' : Hook) (rnd' : Random) :
  executeAction h actionId args rnd = (true, h', rnd') →
  turn (chess (gameState h')) = turn (chess (gameState h))
  ∧ currentPlayer (gameState h') ≠ currentPlayer (gameState h)
  ∧ (currentPlayer (gameState h) = turn (chess (gameState h)) →
     currentPlayer (gameState h') ≠ turn (chess (gameState h'))).
Proof.
  intros He.
  apply executeAction_true in He as (action & c & Ha & _ & _ & Hx & _ & Hs).
  apply getActionById_Some in Ha as [Hin _].
  pose proof creativeActions_keepsTurn as Hall. rewrite Forall_forall in Hall.
  pose proof (Hall action Hin _ _ _ _ _ Hx) as Ht. cbn [chess withChess] in Ht.
  rewrite Hs. cbn [chess currentPlayer].
  split; [exact Ht|]. split; [apply getOpponentColor_ne|].
  intros Hsync. rewrite Ht, <- Hsync. apply getOpponentColor_ne.
Qed.

Lemma action_keeps_side_to_move_witness :
  afterEmpBlast = (true, afterEmpBlast.1.2, afterEmpBlast.2)
  ∧ currentPlayer (gameState creativeHook) = turn (chess (gameState creativeHook))
  ∧ currentPlayer (gameState afterEmpBlast.1.2) ≠ turn (chess (gameState afterEmpBlast.1.2)).
Proof.
  assert (afterEmpBlast = (true, afterEmpBlast.1.2, afterEmpBlast.2)) as He
    by (apply result_true; vm_compute; reflexivity).
  assert (currentPlayer (gameState creativeHook) = turn (chess (gameState creativeHook)))
    as Hsync by (vm_compute; reflexivity).
  split; [exact He|]. split; [exact Hsync|].
  exact (proj2 (proj2 (action_keeps_side_to_move creativeHook "empBlast" []
                         (constantRandom 0) _ _ He)) Hsync).
Defined.

(** ** Pieces never appear, except by Clone Ray *)

Lemma shrinks_removeArg c a : shrinks c (removeArg c a).
Proof. destruct a; [apply shrinks_remove|apply shrinks_refl]. Qed.

Lemma shrinks_nukeSquare gs c f r : shrinks c (nukeSquare gs c f r).
Proof.
  unfold nukeSquare. destruct (get c _) as [p|]; [|apply shrinks_refl].
  destruct (bool_decide _); [apply shrinks_remove|apply shrinks_refl].
Qed.

Lemma shrinks_removeFallback c pieces order : shrinks c (removeFallback c pieces order).
Proof.
  induction order as [|t order IH]; [apply shrinks_refl|]. cbn [removeFallback].
  destruct (find _ pieces); [apply shrinks_remove|exact IH].
Qed.

Lemma shrinks_nuke gs c file rank :
  shrinks c (nukeSquare gs
               (nukeSquare gs (nukeSquare gs (nukeSquare gs c file rank) file (rank + 1))
                  (file + 1) rank)
               (file + 1) (rank + 1)).
Proof.
  repeat (eapply shrinks_trans; [|apply shrinks_nukeSquare]). apply shrinks_refl.
Qed.

Lemma creativeActions_shrinking :
  Forall (λ action, action = swapPlaces ∨ action = cloneRay ∨ shrinking action)
         creativeActions.
Proof.
  unfold creativeActions.
  repeat apply Forall_cons_2; try apply Forall_nil_2;
    first [left; reflexivity | right; left; reflexivity | right; right];
    intros gs args rnd gs' rnd' He; unfold_execute He.
  1-12: apply pair_equal_spec in He as [He _]; repeat turn_step;
    cbn [chess withChess foldl];
    repeat (match goal with
            | |- context [match ?o with Some _ => _ | None => _ end] => destruct o
            end);
    auto using shrinks_refl, shrinks_removeArg, shrinks_remove, shrinks_nuke,
      shrinks_removeFallback.
  copy_step He.
  destruct (barrage (chess gs) args rnd) as [c r] eqn:Hb. injection He as <- _.
  cbn [chess withChess]. change c with (c, r).1. rewrite <- Hb. apply barrage_shrinks.
Qed.

(** X15.  Across a successful action other than Clone Ray neither colour
    gains a piece: each colour has at most as many pieces after it as
    before. *)
Theorem action_adds_no_piece (h : Hook) (actionId : string) (args : list string)
    (rnd : Random) (h' : Hook) (rnd' : Random) (col : PieceColor) :
  executeAction h actionId args rnd = (true, h', rnd') →
  actionId ≠ "cloneRay"%string →
  (pieceCount (chess (gameState h')) col ≤ pieceCount (chess (gameState h)) col)%nat.
Proof.
  intros He Hid.
  pose proof He as He'.
  apply executeAction_true in He' as (action & c & Ha & _ & _ & Hx & _ & Hs).
  pose proof (getActionById_Some _ _ Ha) as [Hin Hida].
  pose proof creativeActions_shrinking as Hall. rewrite Forall_forall in Hall.
  destruct (Hall action Hin) as [->|[->|Hshr]].
  - cbn [id swapPlaces] in Hida. subst actionId.
    pose proof (executeAction_validated _ _ _ _ _ _ swapPlaces _ He Ha eq_refl eq_refl)
      as Hv.
    destruct args as [|square1 [|square2 rest]];
      cbn [lookup list_lookup getArg mbind option_bind] in Hv.
    + discriminate.
    + destruct (get (chess (gameState h)) square1); discriminate.
    + by rewrite (swapPlaces_same_counts _ _ _ _ _ _ _ col He).
  - cbn [id cloneRay] in Hida. congruence.
  - apply pieceCount_shrinks. rewrite Hs. cbn [chess].
    apply (Hshr _ _ _ _ _ Hx).
Qed.

Lemma action_adds_no_piece_witness :
  nukeD6 = (true, nukeD6.1.2, nukeD6.2)
  ∧ "nuke"%string ≠ "cloneRay"%string
  ∧ (pieceCount (chess (gameState nukeD6.1.2)) Black
     ≤ pieceCount (chess (gameState creativeHook)) Black)%nat.
Proof.
  assert (nukeD6 = (true, nukeD6.1.2, nukeD6.2)) as He
    by (apply result_true; vm_compute; reflexivity).
  assert ("nuke"%string ≠ "cloneRay"%string) as Hne by discriminate.
  split; [exact He|]. split; [exact Hne|].
  exact (action_adds_no_piece creativeHook "nuke" ["d6"%string] (constantRandom 0)
           _ _ Black He Hne).
Defined.

(** ** Selecting a square *)

Section Selecting.
Context {engine : Engine}.

(** X16.  [selectSquare] never touches the registry.  On a square that
    holds a piece of the current player it selects that square, lists the
    engine's moves from it and changes nothing else, whatever was selected
    before.  It changes the position or the counter only by a successful
    [makeMove] from the selected square to the clicked square, and only when
    the clicked square is listed in [validMoves] and holds no piece of the
    current player. *)
Theorem selectSquare_effect (h : Hook) (sq : Square) :
  actionRegistry (selectSquare h sq) = actionRegistry h
  ∧ (ownPiece (gameState h) (get (chess (gameState h)) sq) = true →
     selectSquare h sq = withSelection h (Some sq) (moves (chess (gameState h)) sq))
  ∧ (chess (gameState (selectSquare h sq)) ≠ chess (gameState h)
     ∨ halfMoves (gameState (selectSquare h sq)) ≠ halfMoves (gameState h) →
     ∃ sel, selectedSquare (gameState h) = Some sel
            ∧ sq ∈ validMoves (gameState h)
            ∧ ownPiece (gameState h) (get (chess (gameState h)) sq) = false
            ∧ makeMove h sel sq = (true, selectSquare h sq)).
Proof.
  split; [apply selectSquare_registry|]. unfold selectSquare.
  destruct (ownPiece _ _) eqn:Hown.
  - split; [reflexivity|]. cbn [withSelection gameState chess halfMoves].
    intros [Hc|Hn]; contradiction.
  - split; [discriminate|].
    destruct (selectedSquare (gameState h)) as [sel|];
      [|cbn [withSelection gameState chess halfMoves]; intros [Hc|Hn]; contradiction].
    destruct (bool_decide (sel ≠ EmptyString) && bool_decide (sq ∈ validMoves (gameState h)))
      eqn:Hv; [|cbn [withSelection gameState chess halfMoves];
                intros [Hc|Hn]; contradiction].
    apply andb_prop in Hv as [_ Hin]. apply bool_decide_eq_true in Hin.
    intros Hchanged. exists sel. split; [reflexivity|]. split; [exact Hin|].
    split; [reflexivity|].
    destruct (makeMove h sel sq) as [[] h'] eqn:Hm; [reflexivity|].
    apply makeMove_fails_unchanged in Hm as ->. cbn [snd] in Hchanged.
    destruct Hchanged; contradiction.
Qed.
End Selecting.

Lemma selectSquare_effect_witness :
  ownPiece (gameState initialHook) (get (chess (gameState initialHook)) "e2") = true
  ∧ selectedSquare (gameState (selectSquare (engine := looseEngine) initialHook "e2"))
    = Some "e2"%string.
Proof.
  assert (ownPiece (gameState initialHook) (get (chess (gameState initialHook)) "e2")
          = true) as Hown by (vm_compute; reflexivity).
  split; [exact Hown|].
  rewrite (proj1 (proj2 (selectSquare_effect (engine := looseEngine) initialHook "e2"))
             Hown).
  reflexivity.
Defined.

(** ** What every reachable state satisfies *)

Lemma initialHook_invariant : hookInvariant initialHook.
Proof.
  unfold hookInvariant. cbn [initialHook gameState actionRegistry initialGameState
    halfMoves phase lastMove selectedSquare validMoves].
  unfold CREATIVE_PHASE_THRESHOLD.
  split; [lia|]. split; [split; [discriminate|lia]|]. split; [tauto|].
  split; [reflexivity|]. split; [|reflexivity].
  intros _ actionId. unfold isUsed.
  destruct (initialRegistry !! actionId) as [[]|] eqn:Hl; try reflexivity.
  exfalso. revert Hl. unfold initialRegistry, creativeActions. cbn [foldl id
    snip rubberBand nuke jobApplication robotProxy swapPlaces shield empBlast
    lootDrop timeFreeze cloneRay spyDrone sniperShot puzzleTrap rocketBarrage].
  rewrite !lookup_insert. repeat case_decide; discriminate.
Qed.

Lemma catalogue_id_in_registry actionId action :
  getActionById actionId = Some action → actionId ∈ dom initialRegistry.
Proof.
  intros Ha. apply getActionById_Some in Ha as [Hin <-].
  pose proof initialRegistry_flags as Hall. rewrite Forall_forall in Hall.
  apply elem_of_dom. rewrite (Hall action Hin). by eexists.
Qed.

Section Invariant.
Context {engine : Engine}.

Lemma makeMove_invariant h from to :
  hookInvariant h → hookInvariant (makeMove h from to).2.
Proof.
  intros (Hn & Hp & Hl & Hs & Hu & Hd).
  destruct (makeMove h from to) as [[] h'] eqn:Hm; cbn [snd].
  - unfold makeMove in Hm. destruct (move _ from to) as [c|]; [|discriminate].
    destruct (checkWinCondition c) as [g w]. injection Hm as <-.
    unfold hookInvariant.
    cbn [gameState actionRegistry halfMoves phase lastMove selectedSquare validMoves].
    split; [lia|]. split; [case_bool_decide; split; (done || lia)|].
    split; [split; [discriminate|lia]|]. split; [reflexivity|]. split; [|exact Hd].
    case_bool_decide as Hc; [discriminate|]. intros _. apply Hu.
    destruct (phase (gameState h)) eqn:Eph; [reflexivity|].
    assert (CREATIVE_PHASE_THRESHOLD ≤ halfMoves (gameState h)) by (by apply Hp). lia.
  - apply makeMove_fails_unchanged in Hm as ->. unfold hookInvariant. tauto.
Qed.

Lemma withSelection_invariant h sel valid :
  (sel = None → valid = []) → hookInvariant h → hookInvariant (withSelection h sel valid).
Proof.
  intros Hsel (Hn & Hp & Hl & Hs & Hu & Hd). unfold hookInvariant.
  cbn [withSelection gameState actionRegistry halfMoves phase lastMove
       selectedSquare validMoves]. tauto.
Qed.

Lemma executeAction_invariant h actionId args rnd :
  hookInvariant h → hookInvariant (executeAction h actionId args rnd).1.2.
Proof.
  intros (Hn & Hp & Hl & Hs & Hu & Hd).
  destruct (executeAction h actionId args rnd) as [[[] h'] rnd'] eqn:He; cbn [fst snd].
  - pose proof He as He'.
    apply executeAction_true in He' as (action & c & Ha & _ & Hphase & _ & Hr & Hgs).
    unfold hookInvariant. rewrite Hgs, Hr.
    cbn [halfMoves phase lastMove selectedSquare validMoves].
    split; [exact Hn|]. split; [exact Hp|]. split; [exact Hl|]. split; [exact Hs|].
    split; [rewrite Hphase; discriminate|].
    rewrite dom_insert_L, <- Hd.
    pose proof (catalogue_id_in_registry _ _ Ha) as Hin. rewrite <- Hd in Hin.
    apply subseteq_union_1_L, singleton_subseteq_l. exact Hin.
  - apply executeAction_false in He as ->. unfold hookInvariant. tauto.
Qed.

Lemma step_invariant st i : hookInvariant st.1 → hookInvariant (step st i).1.
Proof.
  destruct st as [h rnd]. cbn [fst]. intros Hinv.
  destruct i as [from to|sq|actionId args|]; cbn [step].
  - cbn [fst]. by apply makeMove_invariant.
  - cbn [fst]. unfold selectSquare. destruct (ownPiece _ _).
    + by apply withSelection_invariant.
    + destruct (selectedSquare (gameState h)) as [sel|];
        [|by apply withSelection_invariant].
      destruct (_ && _); [by apply makeMove_invariant|by apply withSelection_invariant].
  - pose proof (executeAction_invariant h actionId args rnd Hinv) as Hx.
    destruct (executeAction h actionId args rnd) as [[b h'] rnd']. exact Hx.
  - exact initialHook_invariant.
Qed.

Lemma run_invariant st inputs : hookInvariant st.1 → hookInvariant (run st inputs).1.
Proof.
  revert st. induction inputs as [|i inputs IH]; intros st Hst; [exact Hst|].
  cbn [run foldl]. apply IH. by apply step_invariant.
Qed.

(** X17.  In every state reached from a fresh game by moves, selections,
    actions and resets: the counter is not negative; the last move is
    absent exactly when the counter is 0; an empty selection goes with an
    empty list of valid moves; in the standard phase no action is marked
    used; and the registry has exactly the fifteen ids of the catalogue as
    keys. *)
Theorem reachable_invariant (inputs : list Input) (rnd : Random) :
  hookInvariant (run (initialHook, rnd) inputs).1
  ∧ dom (actionRegistry (run (initialHook, rnd) inputs).1)
    = list_to_set (id <$> creativeActions).
Proof.
  pose proof (run_invariant (initialHook, rnd) inputs initialHook_invariant) as Hinv.
  split; [exact Hinv|].
  destruct Hinv as (_ & _ & _ & _ & _ & ->).
  apply (bool_decide_unpack _). vm_compute. exact I.
Qed.
End Invariant.

(** ** The colours of the squares *)

(** X18.  The board component colours a square of the board light exactly
    when the sum of its file (a = 0) and rank is even, whether or not the
    board is flipped: a1 is dark, neighbouring squares differ, and flipping
    the board changes no square's colour. *)
Theorem isLightSquare_parity (flipped : bool) (f r : Z) :
  0 ≤ f < 8 → 1 ≤ r ≤ 8 →
  squareIsLight flipped (squareName f r) = Z.even (f + r)
  ∧ squareIsLight flipped (squareName f r) = squareIsLight (negb flipped) (squareName f r).
Proof.
  intros Hf Hr. board_cases f r Hf Hr; destruct flipped; split; reflexivity.
Qed.

Lemma isLightSquare_parity_witness :
  squareIsLight false (squareName 0 1) = Z.even (0 + 1)
  ∧ squareIsLight false "a1" = false
  ∧ squareIsLight true "h1" = true.
Proof.
  split; [apply (isLightSquare_parity false 0 1); lia|].
  split; [exact (proj1 (isLightSquare_parity false 0 1 ltac:(lia) ltac:(lia)))|].
  exact (proj1 (isLightSquare_parity true 7 1 ltac:(lia) ltac:(lia))).
Defined.

(** ** The interface *)

Section InterfaceProperties.
Context {engine : Engine}.

(** X19.  In every state reached from a fresh game the "moves to go" shown
    by the interface is from 0 to 20 and is 0 exactly in the creative phase;
    in the standard phase it is the distance of the counter to 20, and a
    successful move lowers it by exactly one. *)
Theorem movesToCreative_phase (inputs : list Input) (rnd : Random)
    (sel : option string) (target : option Square) :
  let h := (run (initialHook, rnd) inputs).1 in
  let ui := {| hook := h; selectedAction := sel; actionTarget := target |} in
  0 ≤ movesToCreative ui ≤ 20
  ∧ (movesToCreative ui = 0 ↔ phase (gameState h) = creative)
  ∧ (phase (gameState h) = standard →
     movesToCreative ui = CREATIVE_PHASE_THRESHOLD - halfMoves (gameState h)
     ∧ ∀ from to h',
         makeMove h from to = (true, h') →
         movesToCreative {| hook := h'; selectedAction := sel; actionTarget := target |}
         = movesToCreative ui - 1).
Proof.
  intros h ui.
  destruct (run_invariant (initialHook, rnd) inputs initialHook_invariant)
    as (Hn & Hp & _).
  fold h in Hn, Hp. unfold movesToCreative, CREATIVE_PHASE_THRESHOLD in *.
  cbn [hook ui]. split; [lia|]. split.
  - rewrite Hp. lia.
  - intros Hstd.
    assert (halfMoves (gameState h) < 20) as Hlt.
    { destruct (decide (20 ≤ halfMoves (gameState h))) as [Hge|]; [|lia].
      apply Hp in Hge. congruence. }
    split; [lia|]. intros from to h' Hm.
    apply makeMove_true in Hm as (c & _ & _ & _ & Hh & _). cbn [hook]. lia.
Qed.
End InterfaceProperties.

Lemma movesToCreative_phase_witness :
  phase (gameState initialHook) = standard
  ∧ makeMove (engine := looseEngine) initialHook "g1" "f3"
    = (true, (makeMove (engine := looseEngine) initialHook "g1" "f3").2)
  ∧ movesToCreative
      {| hook := (makeMove (engine := looseEngine) initialHook "g1" "f3").2;
         selectedAction := None; actionTarget := None |}
    = movesToCreative initialInterface - 1.
Proof.
  assert (makeMove (engine := looseEngine) initialHook "g1" "f3"
          = (true, (makeMove (engine := looseEngine) initialHook "g1" "f3").2)) as Hm.
  { assert ((makeMove (engine := looseEngine) initialHook "g1" "f3").1 = true) as Hb
      by (vm_compute; reflexivity).
    destruct (makeMove (engine := looseEngine) initialHook "g1" "f3") as [b h'].
    cbn [fst snd] in *. by rewrite Hb. }
  split; [reflexivity|]. split; [exact Hm|].
  exact (proj2 (proj2 (proj2 (movesToCreative_phase (engine := looseEngine) []
                               (constantRandom 0) None None)) eq_refl) _ _ _ Hm).
Defined.

(** *** Looking an action up *)

Lemma catalogue_by_id action :
  action ∈ creativeActions → getActionById (id action) = Some action.
Proof.
  unfold creativeActions. rewrite !elem_of_cons, elem_of_nil.
  intros [->|[->|[->|[->|[->|[->|[->|[->|[->|[->|[->|[->|[->|[->|[->|[]]]]]]]]]]]]]]]];
    reflexivity.
Qed.

Lemma findAvailable_Some h actionId action :
  findAvailable h actionId = Some action →
  getActionById actionId = Some action ∧ isUsed (actionRegistry h) actionId = false.
Proof.
  unfold findAvailable, availableActions. intros Hf.
  apply find_some in Hf as [Hin Hid]. apply bool_decide_eq_true in Hid.
  apply list_elem_of_In, list_elem_of_filter in Hin as [Hu Hin].
  subst actionId. split; [by apply catalogue_by_id|exact Hu].
Qed.

Lemma find_filter {A} (f : A → bool) (P : A → Prop) `{∀ x, Decision (P x)}
    (l : list A) (a : A) :
  find f l = Some a → P a → find f (filter P l) = Some a.
Proof.
  induction l as [|x l IH]; [discriminate|]. cbn [find]. intros Hf Ha.
  rewrite filter_cons. destruct (f x) eqn:Hx.
  - injection Hf as ->. rewrite decide_True by exact Ha. cbn [find]. by rewrite Hx.
  - destruct (decide (P x)); [cbn [find]; rewrite Hx|]; by apply IH.
Qed.

Lemma findAvailable_complete h actionId action :
  getActionById actionId = Some action →
  isUsed (actionRegistry h) actionId = false →
  findAvailable h actionId = Some action.
Proof.
  intros Ha Hu. unfold findAvailable, availableActions.
  apply find_filter; [exact Ha|].
  apply getActionById_Some in Ha as [_ ->]. exact Hu.
Qed.

Lemma targetless_execute action :
  action ∈ creativeActions → needsTarget action = false →
  ∀ gs args rnd, execute action gs args rnd = (Some gs, rnd).
Proof.
  unfold creativeActions. rewrite !elem_of_cons, elem_of_nil.
  intros [->|[->|[->|[->|[->|[->|[->|[->|[->|[->|[->|[->|[->|[->|[->|[]]]]]]]]]]]]]]]];
    cbn [needsTarget snip rubberBand nuke jobApplication robotProxy swapPlaces
         shield empBlast lootDrop timeFreeze cloneRay spyDrone sniperShot
         puzzleTrap rocketBarrage];
    intros Hn; first [discriminate Hn | reflexivity].
Qed.

Lemma executeAction_frame h actionId args rnd :
  halfMoves (gameState (executeAction h actionId args rnd).1.2) = halfMoves (gameState h)
  ∧ phase (gameState (executeAction h actionId args rnd).1.2) = phase (gameState h)
  ∧ lastMove (gameState (executeAction h actionId args rnd).1.2) = lastMove (gameState h).
Proof.
  destruct (executeAction h actionId args rnd) as [[[] h'] rnd'] eqn:He; cbn [fst snd].
  - apply executeAction_true in He as (action & c & _ & _ & _ & _ & _ & ->).
    repeat split.
  - apply executeAction_false in He as ->. repeat split.
Qed.

Section Clicks.
Context {engine : Engine}.

(** X20.  Swap Places cannot be carried out through the interface.  With it
    selected, a click on any square changes nothing (its [validateTarget] is
    given one square and needs two), and the button of the action only
    selects it or fails: neither handler ever changes the hook for it. *)
Theorem swapPlaces_never_by_click (ui : Interface) (square : Square) (rnd : Random) :
  (selectedAction ui = Some "swapPlaces"%string →
   handleSquareClick ui square rnd = (ui, rnd))
  ∧ hook (handleActionClick ui "swapPlaces" rnd).1 = hook ui.
Proof.
  split.
  - intros Hsel. unfold handleSquareClick. rewrite Hsel.
    rewrite bool_decide_eq_false_2 by discriminate.
    destruct (findAvailable (hook ui) "swapPlaces") as [action|] eqn:Hf; [|reflexivity].
    apply findAvailable_Some in Hf as [Ha _].
    change (getActionById "swapPlaces") with (Some swapPlaces) in Ha.
    injection Ha as <-. cbn [needsTarget validateTarget swapPlaces].
    cbn [lookup list_lookup getArg mbind option_bind].
    by destruct (get (chess (gameState (hook ui))) square).
  - unfold handleActionClick.
    destruct (findAvailable (hook ui) "swapPlaces") as [action|] eqn:Hf.
    + apply findAvailable_Some in Hf as [Ha _].
      change (getActionById "swapPlaces") with (Some swapPlaces) in Ha.
      injection Ha as <-. reflexivity.
    + destruct (isUsed (actionRegistry (hook ui)) "swapPlaces") eqn:Hu.
      * rewrite (executeAction_used _ _ _ _ Hu). reflexivity.
      * rewrite (findAvailable_complete (hook ui) "swapPlaces" swapPlaces eq_refl Hu) in Hf. discriminate.
Qed.

(** X21.  Clone Ray never clones through the interface: with it selected, a
    click on any square leaves the position as it was.  When the phase is
    creative, the action unused and the clicked square holds a piece of the
    current player that is not a king, the click all the same spends the
    action, passes the turn and clears the selection, provided the position
    is one the constructor accepts (one king of either colour, no pawn on an
    edge rank); on any other position the copy throws, and the click only
    clears the selection: the hook is untouched and the action unspent. *)
Theorem cloneRay_by_click (ui : Interface) (square : Square) (rnd : Random) :
  selectedAction ui = Some "cloneRay"%string →
  chess (gameState (hook (handleSquareClick ui square rnd).1))
  = chess (gameState (hook ui))
  ∧ (phase (gameState (hook ui)) = creative →
     isUsed (actionRegistry (hook ui)) "cloneRay" = false →
     (∃ p, get (chess (gameState (hook ui))) square = Some p
           ∧ color p = currentPlayer (gameState (hook ui)) ∧ type p ≠ King) →
     (validFen (chess (gameState (hook ui))) = true →
      isUsed (actionRegistry (hook (handleSquareClick ui square rnd).1)) "cloneRay" = true
      ∧ currentPlayer (gameState (hook (handleSquareClick ui square rnd).1))
        = getOpponentColor (currentPlayer (gameState (hook ui)))
      ∧ selectedAction (handleSquareClick ui square rnd).1 = None)
     ∧ (validFen (chess (gameState (hook ui))) = false →
        handleSquareClick ui square rnd
        = ({| hook := hook ui; selectedAction := None; actionTarget := None |}, rnd))).
Proof.
  intros Hsel.
  assert (∀ h' rnd',
            executeAction (hook ui) "cloneRay" [square] rnd = (true, h', rnd') →
            chess (gameState h') = chess (gameState (hook ui))) as Hsame.
  { intros h' rnd' He. valid_copy He cloneRay Hvalid.
    destruct (get (chess (gameState (hook ui))) square) as [p|] eqn:Hg.
    - eapply (executeAction_chess _ _ _ _ _ _ cloneRay) in He; [exact He|reflexivity|].
      run_execute Hvalid.
      cbn [lookup list_lookup getArg mbind option_bind]. rewrite Hg.
      cbn [putArg]. by rewrite withChess_id.
    - eapply (executeAction_chess _ _ _ _ _ _ cloneRay) in He; [exact He|reflexivity|].
      run_execute Hvalid.
      cbn [lookup list_lookup getArg mbind option_bind]. rewrite Hg.
      by rewrite withChess_id. }
  split.
  - unfold handleSquareClick. rewrite Hsel.
    rewrite bool_decide_eq_false_2 by discriminate.
    destruct (findAvailable (hook ui) "cloneRay") as [action|] eqn:Hf; [|reflexivity].
    apply findAvailable_Some in Hf as [Ha _].
    change (getActionById "cloneRay") with (Some cloneRay) in Ha.
    injection Ha as <-. cbn [needsTarget validateTarget cloneRay].
    match goal with |- context [if ?b then _ else _] => destruct b end;
      [|reflexivity].
    destruct (executeAction (hook ui) "cloneRay" [square] rnd) as [[[] h'] rnd'] eqn:He;
      cbn [fst hook].
    + by apply (Hsame h' rnd').
    + by apply executeAction_false in He as ->.
  - intros Hphase Hu (p & Hg & Hcol & Hk).
    assert (handleSquareClick ui square rnd
            = ({| hook := (executeAction (hook ui) "cloneRay" [square] rnd).1.2;
                  selectedAction := None; actionTarget := None |},
               (executeAction (hook ui) "cloneRay" [square] rnd).2)) as Hclick.
    { unfold handleSquareClick. rewrite Hsel.
      rewrite bool_decide_eq_false_2 by discriminate.
      rewrite (findAvailable_complete (hook ui) "cloneRay" cloneRay eq_refl Hu).
      cbn [needsTarget validateTarget cloneRay].
      cbn [lookup list_lookup getArg mbind option_bind]. rewrite Hg.
      rewrite !bool_decide_eq_true_2 by done. cbn [andb].
      by destruct (executeAction (hook ui) "cloneRay" [square] rnd) as [[b h'] rnd']. }
    split.
    + intros Hvalid.
      assert (executeAction (hook ui) "cloneRay" [square] rnd
              = (true, (executeAction (hook ui) "cloneRay" [square] rnd).1.2,
                 (executeAction (hook ui) "cloneRay" [square] rnd).2)) as He.
      { apply result_true. unfold executeAction. rewrite Hu.
        rewrite bool_decide_eq_false_2 by (intros Hn; by apply Hn). cbn [orb].
        change (getActionById "cloneRay") with (Some cloneRay).
        cbn [validateTarget needsTarget cloneRay execute]. unfold pureExecute.
        rewrite (copyChess_valid _ Hvalid).
        cbn [lookup list_lookup getArg mbind option_bind]. rewrite Hg.
        rewrite !bool_decide_eq_true_2 by done. cbn [andb putArg].
        by destruct (checkWinCondition _). }
      rewrite Hclick. cbn [fst hook selectedAction].
      pose proof (executeAction_true _ _ _ _ _ _ He) as (a & c & _ & _ & _ & _ & Hr & Hs).
      rewrite Hr, Hs. cbn [currentPlayer]. split; [|split; reflexivity].
      rewrite isUsed_insert. by rewrite bool_decide_eq_true_2.
    + intros Hinvalid. rewrite Hclick.
      assert (execute cloneRay (gameState (hook ui)) [square] rnd = (None, rnd)) as Hx
        by (cbn [execute cloneRay]; unfold pureExecute;
            by rewrite (copyChess_invalid _ Hinvalid)).
      by rewrite (executeAction_throws _ "cloneRay" cloneRay _ _ eq_refl Hx).
Qed.

(** X22.  While an action is selected, a click on the board never plays a
    move: the counter, the phase and the last move are as before, and the
    hook is either untouched or what [executeAction] on that one square
    leaves. *)
Theorem click_with_action_selected (ui : Interface) (sel : string) (square : Square)
    (rnd : Random) :
  selectedAction ui = Some sel → sel ≠ EmptyString →
  halfMoves (gameState (hook (handleSquareClick ui square rnd).1))
  = halfMoves (gameState (hook ui))
  ∧ phase (gameState (hook (handleSquareClick ui square rnd).1))
    = phase (gameState (hook ui))
  ∧ lastMove (gameState (hook (handleSquareClick ui square rnd).1))
    = lastMove (gameState (hook ui))
  ∧ (handleSquareClick ui square rnd = (ui, rnd)
     ∨ handleSquareClick ui square rnd
       = ({| hook := (executeAction (hook ui) sel [square] rnd).1.2;
             selectedAction := None; actionTarget := None |},
          (executeAction (hook ui) sel [square] rnd).2)).
Proof.
  intros Hsel Hne. unfold handleSquareClick. rewrite Hsel.
  rewrite bool_decide_eq_false_2 by exact Hne.
  destruct (findAvailable (hook ui) sel) as [action|]; [|by repeat split; try left].
  destruct (needsTarget action); [|by repeat split; try left].
  destruct (validateTarget action) as [validate|]; [|by repeat split; try left].
  destruct (validate (gameState (hook ui)) [square]) as [[]|];
    try (by repeat split; try left).
  pose proof (executeAction_frame (hook ui) sel [square] rnd) as (Hn & Hp & Hl).
  destruct (executeAction (hook ui) sel [square] rnd) as [[b h'] rnd'].
  cbn [fst snd hook] in *. repeat split; try assumption. by right.
Qed.

(** X23.  The button of an action never changes the position, the counter
    or the phase: an action that needs a target is only selected, and the
    four actions that need none leave the board alone. *)
Theorem handleActionClick_board (ui : Interface) (actionId : string) (rnd : Random) :
  chess (gameState (hook (handleActionClick ui actionId rnd).1))
  = chess (gameState (hook ui))
  ∧ halfMoves (gameState (hook (handleActionClick ui actionId rnd).1))
    = halfMoves (gameState (hook ui))
  ∧ phase (gameState (hook (handleActionClick ui actionId rnd).1))
    = phase (gameState (hook ui))
  ∧ ((∃ action, findAvailable (hook ui) actionId = Some action
                ∧ needsTarget action = true) →
     handleActionClick ui actionId rnd
     = ({| hook := hook ui; selectedAction := Some actionId; actionTarget := None |},
        rnd)).
Proof.
  unfold handleActionClick.
  destruct (findAvailable (hook ui) actionId) as [action|] eqn:Hf.
  - destruct (needsTarget action) eqn:Hn; [by repeat split|].
    pose proof (executeAction_frame (hook ui) actionId [] rnd) as (Hh & Hp & _).
    split; [|split; [|split]].
    + apply findAvailable_Some in Hf as [Ha _].
      pose proof (getActionById_Some _ _ Ha) as [Hin _].
      destruct (executeAction (hook ui) actionId [] rnd) as [[[] h'] rnd'] eqn:He;
        cbn [fst hook].
      * by apply (executeAction_identity _ _ _ _ _ _ _ Ha
                    (targetless_execute _ Hin Hn)) in He as [Hc _].
      * by apply executeAction_false in He as ->.
    + by destruct (executeAction (hook ui) actionId [] rnd) as [[b h'] rnd'].
    + by destruct (executeAction (hook ui) actionId [] rnd) as [[b h'] rnd'].
    + intros (a & [= <-] & Hn'). congruence.
  - assert ((executeAction (hook ui) actionId [] rnd).1.2 = hook ui) as Hsame.
    { destruct (executeAction (hook ui) actionId [] rnd) as [[[] h'] rnd'] eqn:He;
        cbn [fst snd]; [|by apply executeAction_false in He].
      apply executeAction_true in He as (a & c & Ha & Hu & _).
      rewrite (findAvailable_complete _ _ _ Ha Hu) in Hf. discriminate. }
    destruct (executeAction (hook ui) actionId [] rnd) as [[b h'] rnd'].
    cbn [fst snd hook] in *. subst h'. split; [reflexivity|].
    split; [reflexivity|]. split; [reflexivity|]. intros (a & Ha & _). discriminate.
Qed.
End Clicks.

Lemma swapPlaces_never_by_click_witness :
  selectedAction (creativeInterface (Some "swapPlaces"%string)) = Some "swapPlaces"%string
  ∧ handleSquareClick (engine := looseEngine)
      (creativeInterface (Some "swapPlaces"%string)) "a1" (constantRandom 0)
    = (creativeInterface (Some "swapPlaces"%string), constantRandom 0).
Proof.
  split; [reflexivity|].
  exact (proj1 (swapPlaces_never_by_click (engine := looseEngine)
                  (creativeInterface (Some "swapPlaces"%string)) "a1"
                  (constantRandom 0)) eq_refl).
Defined.

Lemma cloneRay_by_click_witness :
  selectedAction (creativeInterface (Some "cloneRay"%string)) = Some "cloneRay"%string
  ∧ phase (gameState creativeHook) = creative
  ∧ isUsed (actionRegistry creativeHook) "cloneRay" = false
  ∧ (∃ p, get (chess (gameState creativeHook)) "b1" = Some p
          ∧ color p = currentPlayer (gameState creativeHook) ∧ type p ≠ King)
  ∧ validFen (chess (gameState creativeHook)) = true
  ∧ chess (gameState (hook cloneClick.1)) = chess (gameState creativeHook)
  ∧ isUsed (actionRegistry (hook cloneClick.1)) "cloneRay" = true
  ∧ validFen (chess (gameState sniperE8.1.2)) = false
  ∧ cloneClickKingless
    = ({| hook := sniperE8.1.2; selectedAction := None; actionTarget := None |},
       sniperE8.2).
Proof.
  assert (phase (gameState creativeHook) = creative) as Hp by (vm_compute; reflexivity).
  assert (isUsed (actionRegistry creativeHook) "cloneRay" = false) as Hu
    by (vm_compute; reflexivity).
  assert (∃ p, get (chess (gameState creativeHook)) "b1" = Some p
               ∧ color p = currentPlayer (gameState creativeHook) ∧ type p ≠ King) as Hg.
  { exists {| type := Knight; color := White |}.
    split; [vm_compute; reflexivity|]. split; [vm_compute; reflexivity|discriminate]. }
  assert (validFen (chess (gameState creativeHook)) = true) as Hv
    by (vm_compute; reflexivity).
  assert (validFen (chess (gameState sniperE8.1.2)) = false) as Hk
    by (vm_compute; reflexivity).
  split; [reflexivity|]. split; [exact Hp|]. split; [exact Hu|]. split; [exact Hg|].
  split; [exact Hv|].
  destruct (cloneRay_by_click (engine := looseEngine)
              (creativeInterface (Some "cloneRay"%string)) "b1" (constantRandom 0)
              eq_refl) as [Hsame Hspent].
  split; [exact Hsame|].
  split; [exact (proj1 (proj1 (Hspent Hp Hu Hg) Hv))|].
  split; [exact Hk|].
  destruct (cloneRay_by_click (engine := looseEngine)
              {| hook := sniperE8.1.2; selectedAction := Some "cloneRay"%string;
                 actionTarget := None |} "b8" sniperE8.2 eq_refl) as [_ Hblack].
  refine (proj2 (Hblack _ _ _) Hk).
  - vm_compute. reflexivity.
  - vm_compute. reflexivity.
  - exists {| type := Knight; color := Black |}.
    split; [vm_compute; reflexivity|]. split; [vm_compute; reflexivity|discriminate].
Defined.

Lemma click_with_action_selected_witness :
  selectedAction (creativeInterface (Some "snip"%string)) = Some "snip"%string
  ∧ "snip"%string ≠ EmptyString
  ∧ halfMoves (gameState (hook (handleSquareClick (engine := looseEngine)
                                  (creativeInterface (Some "snip"%string)) "a7"
                                  (constantRandom 0)).1))
    = halfMoves (gameState creativeHook).
Proof.
  assert ("snip"%string ≠ EmptyString) as Hne by discriminate.
  split; [reflexivity|]. split; [exact Hne|].
  exact (proj1 (click_with_action_selected (engine := looseEngine)
                  (creativeInterface (Some "snip"%string)) "snip" "a7"
                  (constantRandom 0) eq_refl Hne)).
Defined.

Lemma handleActionClick_board_witness :
  (∃ action, findAvailable creativeHook "snip" = Some action ∧ needsTarget action = true)
  ∧ handleActionClick (creativeInterface None) "snip" (constantRandom 0)
    = ({| hook := creativeHook; selectedAction := Some "snip"%string;
          actionTarget := None |}, constantRandom 0).
Proof.
  assert (∃ action, findAvailable creativeHook "snip" = Some action
                    ∧ needsTarget action = true) as Hav.
  { exists snip. split; [|reflexivity].
    apply (findAvailable_complete creativeHook "snip" snip eq_refl).
    vm_compute. reflexivity. }
  split; [exact Hav|].
  exact (proj2 (proj2 (proj2 (handleActionClick_board (creativeInterface None) "snip"
                               (constantRandom 0)))) Hav).
Defined.

(** ** The position string and the board component *)

Lemma contains_app sep s t : contains sep (s +:+ t) = contains sep s || contains sep t.
Proof.
  induction s as [|ch s IH]; [reflexivity|].
  change (contains sep (String ch s +:+ t))
    with (bool_decide (ch = sep) || contains sep (s +:+ t)).
  rewrite IH. cbn [contains]. by rewrite orb_assoc.
Qed.

Lemma splitOn_lacks sep s : contains sep s = false → splitOn sep s = [s].
Proof.
  induction s as [|ch s IH]; [reflexivity|]. cbn [contains splitOn].
  intros Hc. apply orb_false_elim in Hc as [Hch Hs]. by rewrite Hch, IH.
Qed.

Lemma splitOn_app sep s t :
  contains sep s = false → splitOn sep (s +:+ String sep t) = s :: splitOn sep t.
Proof.
  induction s as [|ch s IH].
  - intros _. change (EmptyString +:+ String sep t) with (String sep t).
    cbn [splitOn]. by rewrite bool_decide_eq_true_2.
  - cbn [contains]. intros Hc. apply orb_false_elim in Hc as [Hch Hs].
    change (String ch s +:+ String sep t) with (String ch (s +:+ String sep t)).
    cbn [splitOn]. by rewrite Hch, IH.
Qed.

Lemma parseRank_app ri st s t :
  parseRank ri st (s +:+ t) = parseRank ri (parseRank ri st s) t.
Proof.
  revert st. induction s as [|ch s IH]; intros st; [reflexivity|].
  change (String ch s +:+ t) with (String ch (s +:+ t)).
  cbn [parseRank]. apply IH.
Qed.

Lemma run_cases (e : Z) :
  0 ≤ e ≤ 8 → e ∈ [0; 1; 2; 3; 4; 5; 6; 7; 8].
Proof.
  intros He.
  assert (e = 0 ∨ e = 1 ∨ e = 2 ∨ e = 3 ∨ e = 4 ∨ e = 5 ∨ e = 6 ∨ e = 7 ∨ e = 8)
    as Hc by lia.
  rewrite !elem_of_cons. tauto.
Qed.

Ltac run_cases e He :=
  apply run_cases in He;
  repeat (apply elem_of_cons in He as [->|He]);
  try (by apply elem_of_nil in He).

Lemma parseRank_emptyRun ri board f e :
  0 ≤ e ≤ 8 → parseRank ri (board, f) (emptyRun e) = (board, f + e).
Proof.
  intros He. run_cases e He; rewrite ?Z.add_0_r; reflexivity.
Qed.

Lemma contains_emptyRun sep e :
  0 ≤ e ≤ 8 → sep = "/"%char ∨ sep = " "%char → contains sep (emptyRun e) = false.
Proof. intros He [-> | ->]; run_cases e He; reflexivity. Qed.

Lemma parseChar_pieceLetter ri board f p :
  parseChar ri (board, f) (pieceLetter p)
  = (<[squareName f (8 - ri) := pieceKey p]> board, f + 1).
Proof. destruct p as [[] []]; reflexivity. Qed.

Lemma pieceLetter_not_separator sep p :
  sep = "/"%char ∨ sep = " "%char → bool_decide (pieceLetter p = sep) = false.
Proof. intros [-> | ->]; destruct p as [[] []]; reflexivity. Qed.

Lemma contains_fenCells sep cells e :
  sep = "/"%char ∨ sep = " "%char →
  0 ≤ e → e + Z.of_nat (List.length cells) ≤ 8 →
  contains sep (fenCells e cells) = false.
Proof.
  intros Hsep. revert e. induction cells as [|[p|] cells IH]; intros e He Hlen;
    cbn [fenCells List.length] in *.
  - apply contains_emptyRun; [lia|exact Hsep].
  - rewrite contains_app, contains_emptyRun by (lia || exact Hsep).
    cbn [orb contains]. rewrite pieceLetter_not_separator by exact Hsep.
    apply IH; lia.
  - apply IH; lia.
Qed.

Lemma parseRank_fenCells ri cells e f board :
  0 ≤ e → e + Z.of_nat (List.length cells) ≤ 8 →
  parseRank ri (board, f) (fenCells e cells)
  = (foldl placeCell board (cellsFrom (8 - ri) (f + e) cells),
     f + e + Z.of_nat (List.length cells)).
Proof.
  revert e f board. induction cells as [|[p|] cells IH]; intros e f board He Hlen;
    cbn [fenCells cellsFrom foldl List.length] in *.
  - rewrite parseRank_emptyRun by lia. f_equal. lia.
  - rewrite parseRank_app, parseRank_emptyRun by lia.
    cbn [parseRank]. rewrite parseChar_pieceLetter.
    rewrite IH by lia. cbn [placeCell fst snd].
    rewrite Z.add_0_r. f_equal. lia.
  - rewrite IH by lia. cbn [placeCell fst snd].
    replace (f + (e + 1)) with (f + e + 1) by lia. f_equal. lia.
Qed.

Lemma cellsFrom_rank c rank :
  cellsFrom rank 0 (get c <$> rankSquares rank)
  = (λ sq, (sq, get c sq)) <$> rankSquares rank.
Proof. reflexivity. Qed.

Lemma rankCells_length c rank : List.length (get c <$> rankSquares rank) = 8%nat.
Proof. reflexivity. Qed.

Lemma parseRank_fenRank c ri board :
  (parseRank ri (board, 0) (fenRank c (8 - ri))).1
  = foldl placeCell board ((λ sq, (sq, get c sq)) <$> rankSquares (8 - ri)).
Proof.
  unfold fenRank. rewrite parseRank_fenCells; [|lia|rewrite rankCells_length; lia].
  cbn [fst]. rewrite Z.add_0_r. by rewrite cellsFrom_rank.
Qed.

Lemma contains_fenRank sep c rank :
  sep = "/"%char ∨ sep = " "%char → contains sep (fenRank c rank) = false.
Proof.
  intros Hsep. apply contains_fenCells; [exact Hsep|lia|].
  rewrite rankCells_length. lia.
Qed.

Lemma placeCell_lookup c (squares : list Square) board sq :
  NoDup squares →
  foldl placeCell board ((λ sq, (sq, get c sq)) <$> squares) !! sq
  = if bool_decide (sq ∈ squares)
    then match get c sq with Some p => Some (pieceKey p) | None => board !! sq end
    else board !! sq.
Proof.
  revert board. induction squares as [|sq0 l IH]; intros board Hnd.
  - cbn [fmap list_fmap foldl]. by rewrite bool_decide_eq_false_2 by apply not_elem_of_nil.
  - apply NoDup_cons in Hnd as [Hsq0 Hnd]. rewrite fmap_cons. cbn [foldl].
    rewrite IH by exact Hnd. unfold placeCell. cbn [fst snd].
    destruct (decide (sq = sq0)) as [->|Hne].
    + rewrite (bool_decide_eq_false_2 (sq0 ∈ l)) by exact Hsq0.
      rewrite (bool_decide_eq_true_2 (sq0 ∈ sq0 :: l)) by left.
      destruct (get c sq0); [apply lookup_insert_eq|reflexivity].
    + rewrite (bool_decide_ext (sq ∈ sq0 :: l) (sq ∈ l))
        by (rewrite elem_of_cons; tauto).
      assert (match get c sq0 with
              | Some p => <[sq0:=pieceKey p]> board
              | None => board
              end !! sq = board !! sq) as ->; [|reflexivity].
      destruct (get c sq0); [by apply lookup_insert_ne|reflexivity].
Qed.

Lemma fenSquares_NoDup : NoDup fenSquares.
Proof. apply (bool_decide_unpack _). vm_compute. exact I. Qed.

Lemma fenSquares_scan sq : sq ∈ fenSquares ↔ sq ∈ scanSquares.
Proof.
  assert (Forall (λ x, x ∈ scanSquares) fenSquares) as H1
    by (apply (bool_decide_unpack _); vm_compute; exact I).
  assert (Forall (λ x, x ∈ fenSquares) scanSquares) as H2
    by (apply (bool_decide_unpack _); vm_compute; exact I).
  rewrite Forall_forall in H1, H2. split; [apply H1|apply H2].
Qed.

Lemma splitOn_row sep s t :
  contains sep s = false →
  splitOn sep (s +:+ String sep EmptyString +:+ t) = s :: splitOn sep t.
Proof. apply splitOn_app. Qed.

(** The loop over the eight rows, when there are eight. *)
Lemma parseFEN_rows r8 r7 r6 r5 r4 r3 r2 r1 (more : list string) :
  foldl (λ acc rankIndex,
           board ← acc;
           rank ← (r8 :: r7 :: r6 :: r5 :: r4 :: r3 :: r2 :: r1 :: more)
                   !! Z.to_nat rankIndex;
           Some (parseRank rankIndex (board, 0) rank).1)
        (Some ∅) (seqZ 0 8)
  = Some (parseRank 7 ((parseRank 6 ((parseRank 5 ((parseRank 4 ((parseRank 3
            ((parseRank 2 ((parseRank 1 ((parseRank 0 (∅, 0) r8).1, 0) r7).1, 0) r6).1,
             0) r5).1, 0) r4).1, 0) r3).1, 0) r2).1, 0) r1).1.
Proof. reflexivity. Qed.

Lemma placement_lacks_space c : contains " " (fenPlacement c) = false.
Proof.
  unfold fenPlacement.
  rewrite !contains_app, !contains_fenRank by (by right). reflexivity.
Qed.

Lemma placement_rows c :
  splitOn "/" (fenPlacement c)
  = [fenRank c 8; fenRank c 7; fenRank c 6; fenRank c 5;
     fenRank c 4; fenRank c 3; fenRank c 2; fenRank c 1].
Proof.
  unfold fenPlacement.
  rewrite !splitOn_row by (apply contains_fenRank; by left).
  rewrite splitOn_lacks by (apply contains_fenRank; by left). reflexivity.
Qed.

(** X24.  The board component reads back the position string of a position
    exactly: [parseFEN] of the placement of [c], followed by a space and any
    further fields, returns a board that has under each square the key (w or
    b, then the upper-case letter of the type) of the piece [get] finds
    there, and nothing under a square that is empty or under any other
    name. *)
Theorem parseFEN_placement (c : Chess) (rest : string) :
  ∃ board,
    parseFEN (fenPlacement c +:+ String " " rest) = Some board
    ∧ ∀ sq, board !! sq = pieceKey <$> get c sq.
Proof.
  exists (foldl placeCell ∅ ((λ sq, (sq, get c sq)) <$> fenSquares)). split.
  - unfold parseFEN.
    rewrite splitOn_app by apply placement_lacks_space. cbn [hd].
    rewrite placement_rows, parseFEN_rows.
    rewrite (parseRank_fenRank c 0 ∅ :
               (parseRank 0 (∅, 0) (fenRank c 8)).1 = _).
    rewrite (parseRank_fenRank c 1 _ :
               (parseRank 1 (_, 0) (fenRank c 7)).1 = _).
    rewrite (parseRank_fenRank c 2 _ :
               (parseRank 2 (_, 0) (fenRank c 6)).1 = _).
    rewrite (parseRank_fenRank c 3 _ :
               (parseRank 3 (_, 0) (fenRank c 5)).1 = _).
    rewrite (parseRank_fenRank c 4 _ :
               (parseRank 4 (_, 0) (fenRank c 4)).1 = _).
    rewrite (parseRank_fenRank c 5 _ :
               (parseRank 5 (_, 0) (fenRank c 3)).1 = _).
    rewrite (parseRank_fenRank c 6 _ :
               (parseRank 6 (_, 0) (fenRank c 2)).1 = _).
    rewrite (parseRank_fenRank c 7 _ :
               (parseRank 7 (_, 0) (fenRank c 1)).1 = _).
    unfold fenSquares. rewrite !fmap_app, !foldl_app. reflexivity.
  - intros sq. rewrite placeCell_lookup by apply fenSquares_NoDup.
    rewrite lookup_empty. case_bool_decide as Hin.
    + by destruct (get c sq).
    + rewrite get_not_square; [reflexivity|].
      destruct (isSquare sq) eqn:Hs; [|reflexivity].
      apply isSquare_spec, fenSquares_scan in Hs. contradiction.
Qed.

(** X25.  [parseFEN] needs eight rows: when the text before the first space
    has fewer than eight parts separated by [/], the loop runs into the
    missing row and throws. *)
Theorem parseFEN_short (fen : string) :
  (List.length (splitOn "/" (hd EmptyString (splitOn " " fen))) < 8)%nat →
  parseFEN fen = None.
Proof.
  unfold parseFEN.
  destruct (splitOn "/" (hd EmptyString (splitOn " " fen)))
    as [|r0 [|r1 [|r2 [|r3 [|r4 [|r5 [|r6 [|r7 more]]]]]]]];
    cbn [List.length]; intros Hlen; try reflexivity. lia.
Qed.

Lemma parseFEN_short_witness :
  (List.length (splitOn "/" (hd EmptyString (splitOn " " "8/8/8 w - - 0 1"))) < 8)%nat
  ∧ parseFEN "8/8/8 w - - 0 1" = None.
Proof.
  assert (List.length (splitOn "/" (hd EmptyString (splitOn " " "8/8/8 w - - 0 1"))) < 8)%nat
    as Hlen by (vm_compute; lia).
  split; [exact Hlen|]. exact (parseFEN_short "8/8/8 w - - 0 1" Hlen).
Defined.
